(** * RPN proposal post-processing and the debug tensor saver

  A shallow embedding of
  - [maskrcnn_benchmark/utils/tensor_saver.py],
  - [maskrcnn_benchmark/modeling/rpn/inference.py],
  - the tensor-saver call sites and the prediction merge of
    [maskrcnn_benchmark/engine/trainer.py] and
    [maskrcnn_benchmark/engine/inference.py],
  together with the properties of the specification that concern them.

  Conventions.  Floating-point scores and coordinates are finite and are
  read as rationals ([Q]); comparisons on them are the comparisons of the
  rationals.  Python integers are [Z] or, where they count things, [nat].
  Python exceptions are values of [exn]; code that can raise returns a
  [result]; code that also touches the global tensor saver or the dump
  directory runs in the state-and-exception monad [M].  Paths are POSIX
  paths.  The file system is seen through the calls of [numpy.save]: a
  file holds what the latest call for its path wrote, and the
  directories are the working directory, the root and those that the
  saver made; beyond that the operating system is taken to accept what
  it is asked (permissions, space). *)

From Stdlib Require Import QArith Qminmax Lqa Ascii.
From stdpp Require Import gmap strings list fin_maps pretty sorting.

Set Default Proof Using "Type".

(** ** Python runtime fragments *)

Module Py.

Inductive exn : Type :=
| TypeError
| IndexError
| KeyError
| RuntimeError
| FileNotFoundError
| Exception (msg : string).

Inductive result (A : Type) : Type :=
| Ok (a : A)
| Raise (e : exn).
Arguments Ok {A} a.
Arguments Raise {A} e.

Definition result_bind {A B} (f : A → result B) (r : result A) : result B :=
  match r with
  | Ok a => f a
  | Raise e => Raise e
  end.

#[export] Instance result_ret : MRet result := @Ok.
#[export] Instance result_mbind : MBind result := @result_bind.

(** [l[i]] on a sequence, for [0 <= i]: [IndexError] out of range. *)
Definition getitem {A} (l : list A) (i : nat) : result A :=
  match l !! i with
  | Some a => Ok a
  | None => Raise IndexError
  end.

(** A [for] loop whose body can raise: the bodies run in order and the
    first exception ends the loop. *)
Fixpoint for_each {A B} (f : A → result B) (l : list A) : result (list B) :=
  match l with
  | [] => Ok []
  | a :: l' =>
      match f a with
      | Ok b =>
          match for_each f l' with
          | Ok bs => Ok (b :: bs)
          | Raise e => Raise e
          end
      | Raise e => Raise e
      end
  end.

(** [enumerate(l)]. *)
Definition enumerate {A} (l : list A) : list (nat * A) := zip (seq 0 (length l)) l.

(** *** Binding the arguments of a call

    A [def] is described by its parameter names, each with or without a
    default; a call site by the number of its positional arguments and
    the names of its keyword arguments (distinct, by the grammar).  The
    call binds when there are no more positionals than parameters, each
    keyword names a parameter not already bound by position, and each
    parameter without a default is bound.  Otherwise the interpreter
    raises [TypeError] before the body runs. *)

Record param : Type := Param { p_name : string; p_has_default : bool }.

Record call_site : Type :=
  CallSite { positionals : nat; keywords : list string }.

Definition param_names (sig : list param) : list string := p_name <$> sig.

Definition bound_by (sig : list param) (site : call_site) (p : string) : bool :=
  bool_decide (p ∈ take (positionals site) (param_names sig))
  || bool_decide (p ∈ keywords site).

Definition binds (sig : list param) (site : call_site) : bool :=
  bool_decide (positionals site ≤ length sig)
  && forallb (λ k, bool_decide (k ∈ param_names sig)
                   && negb (bool_decide
                              (k ∈ take (positionals site) (param_names sig))))
             (keywords site)
  && forallb (λ p, p_has_default p || bound_by sig site (p_name p)) sig.

End Py.
Export Py.

(** ** [utils/tensor_saver.py] *)

Module TensorSaver.

(** The tensors that reach the saver: a vector of indices, or rows of
    four floats (boxes or deltas).  [GradRows] is such a tensor of floats
    that takes part in the gradient graph ([requires_grad]); only
    [register_hook] tells the two apart, and the post-processor dumps
    with [save_grad=False]. *)
Definition row4 : Type := Q * Q * Q * Q.

Inductive tensor : Type :=
| LongVec (v : list nat)
| FloatRows (rows : list row4)
| GradRows (rows : list row4).

Definition tensor_size (t : tensor) : list nat :=
  match t with
  | LongVec v => [length v]
  | FloatRows rows => [length rows; 4]
  | GradRows rows => [length rows; 4]
  end.

Definition requires_grad (t : tensor) : bool :=
  match t with
  | GradRows _ => true
  | _ => false
  end.

(** *** Paths ([posixpath]) *)

Definition is_slash (c : ascii) : bool := bool_decide (c = "/"%char).

Definition starts_with_slash (s : string) : bool :=
  match s with
  | String c _ => is_slash c
  | EmptyString => false
  end.

Fixpoint ends_with_slash (s : string) : bool :=
  match s with
  | EmptyString => false
  | String c EmptyString => is_slash c
  | String _ s' => ends_with_slash s'
  end.

Fixpoint has_slash (s : string) : bool :=
  match s with
  | EmptyString => false
  | String c s' => is_slash c || has_slash s'
  end.

Fixpoint all_slashes (s : string) : bool :=
  match s with
  | EmptyString => true
  | String c s' => is_slash c && all_slashes s'
  end.

(** [os.path.join(a, b)]: an absolute [b] replaces [a]. *)
Definition path_join (a b : string) : string :=
  if starts_with_slash b then b
  else if bool_decide (a = "") || ends_with_slash a then a +:+ b
  else a +:+ "/" +:+ b.

(** [p[:p.rfind('/') + 1]]. *)
Fixpoint head_of (p : string) : string :=
  match p with
  | EmptyString => ""
  | String c p' => if has_slash p then String c (head_of p') else ""
  end.

(** [s.rstrip('/')]. *)
Fixpoint rstrip (s : string) : string :=
  match s with
  | EmptyString => ""
  | String c s' => if all_slashes s then "" else String c (rstrip s')
  end.

(** [os.path.dirname(p)]. *)
Definition dirname (p : string) : string :=
  let head := head_of p in
  if all_slashes head then head else rstrip head.

(** [class TensorSaver]. *)
Record t : Type := Build { base_dir : string; iteration : Z }.

(** One [numpy.save]: the directory [save_dir] of the call, the tensor
    name and shape that make the file name, and the data. *)
Record dump : Type :=
  Dump { d_dir : string; d_name : string; d_shape : list nat;
         d_data : tensor }.

(** [str(tuple(tensor.size()))]: [(3,)], [(5, 4)]. *)
Definition shape_str (shape : list nat) : string :=
  match shape with
  | [] => "()"
  | [n] => "(" +:+ pretty n +:+ ",)"
  | n :: ns => "(" +:+ foldl (λ acc m, acc +:+ ", " +:+ pretty m) (pretty n) ns +:+ ")"
  end.

(** ['{}.{}'.format(tensor_name, str(tuple(tensor.size())))]. *)
Definition file_name (tensor_name : string) (shape : list nat) : string :=
  tensor_name +:+ "." +:+ shape_str shape.

(** The path handed to [numpy.save], which writes to it with [.npy]
    appended. *)
Definition save_path (d : dump) : string :=
  path_join (d_dir d) (file_name (d_name d) (d_shape d)).

(** The module global [tensor_saver], the calls of [numpy.save] so far
    (latest first) and the files that registered gradient hooks will
    write.  A call replaces what an earlier call wrote to the same path:
    see [file_at]. *)
Record world : Type :=
  World { tensor_saver : option t; disk : list dump;
          hooks : list (string * string * list nat) }.


(** Whether [p] names a directory, when the directories are the working
    directory, the root and those that [os.makedirs] made, with their
    ancestors.  Paths are compared as they are written, up to trailing
    slashes. *)
Definition dir_exists (made : list string) (p : string) : bool :=
  bool_decide (p = "") || all_slashes p
  || existsb (λ d, bool_decide (rstrip p = rstrip d)
                   || String.prefix (rstrip p +:+ "/") d) made.

Definition M (A : Type) : Type := world → result A * world.

Definition ret {A} (a : A) : M A := λ w, (Ok a, w).
Definition raise {A} (e : exn) : M A := λ w, (Raise e, w).
Definition bind {A B} (f : A → M B) (m : M A) : M B :=
  λ w, match m w with
       | (Ok a, w') => f a w'
       | (Raise e, w') => (Raise e, w')
       end.
Definition lift {A} (r : result A) : M A := λ w, (r, w).

#[export] Instance M_ret : MRet M := @ret.
#[export] Instance M_mbind : MBind M := @bind.

(** A [for] loop in [M]. *)
Fixpoint for_each_M {A B} (f : A → M B) (l : list A) : M (list B) :=
  match l with
  | [] => ret []
  | a :: l' =>
      bind (λ b, bind (λ bs, ret (b :: bs)) (for_each_M f l')) (f a)
  end.

(** A call: the arguments are bound against the signature, then the
    body runs. *)
Definition call {A} (sig : list param) (site : call_site) (body : M A) : M A :=
  if binds sig site then body else raise TypeError.

(** [def step(self, iteration=None)].  The argument is [None] or an
    integer; [if iteration:] is the truth value of that. *)
Definition truthy (iteration : option Z) : bool :=
  match iteration with
  | None => false
  | Some k => negb (k =? 0)%Z
  end.

Definition step (arg : option Z) (self : t) : t :=
  if truthy arg
  then Build (base_dir self) (default 0%Z arg)
  else Build (base_dir self) (iteration self + 1)%Z.

(** [def save(self, tensor, tensor_name, scope=None, save_grad=False)]. *)
Definition save_sig : list param :=
  [Param "tensor" false; Param "tensor_name" false;
   Param "scope" true; Param "save_grad" true].

(** Lines 20-22: [if scope:] skips [None] and the empty string. *)
Definition save_dir (self : t) (scope : option string) : string :=
  let save_dir := path_join (base_dir self) ("iter_" +:+ pretty (iteration self)) in
  match scope with
  | Some s => if bool_decide (s = "") then save_dir else path_join save_dir s
  | None => save_dir
  end.

(** Lines 24-32.  [os.makedirs] makes [save_dir]; [numpy.save] opens the
    file, which fails with [FileNotFoundError] when the file name leads
    into a directory that does not exist; with [save_grad] the hook is
    registered after the file is written, and [register_hook] refuses a
    tensor that does not require grad with [RuntimeError]. *)
Definition save (self : t) (tensor : tensor) (tensor_name : string)
    (scope : option string) (save_grad : bool) : M unit :=
  λ w,
    let save_dir := save_dir self scope in
    let file := Dump save_dir tensor_name (tensor_size tensor) tensor in
    if dir_exists (save_dir :: (d_dir <$> disk w)) (dirname (save_path file))
    then
      let w := World (tensor_saver w) (file :: disk w) (hooks w) in
      if save_grad
      then
        if requires_grad tensor
        then (Ok (), World (tensor_saver w) (disk w)
                       ((save_dir, tensor_name +:+ "_grad",
                         tensor_size tensor) :: hooks w))
        else (Raise RuntimeError, w)
      else (Ok (), w)
    else (Raise FileNotFoundError, w).

(** [def create_tensor_saver(base_dir, iteration=0)]. *)
Definition create_tensor_saver_sig : list param :=
  [Param "base_dir" false; Param "iteration" true].

Definition create_tensor_saver (base_dir : string) (iteration : Z) : M unit :=
  λ w, (Ok (), World (Some (Build base_dir iteration)) (disk w) (hooks w)).

(** [def get_tensor_saver()]: the [global] declaration that follows the
    test does not change what is read. *)
Definition get_tensor_saver : M t :=
  λ w, match tensor_saver w with
       | None => (Raise (Exception "Tensor saver not created yet"), w)
       | Some s => (Ok s, w)
       end.


End TensorSaver.

(** ** Tensor operations of the array library

    Only what the post-processor uses.  A tensor of shape [[N, M]] is a
    list of [N] rows of length [M]; of shape [[N, M, 4]], a list of [N]
    rows of [M] quadruples. *)

Module Torch.

(** Modelled from the spec: the order of [torch.topk(k, sorted=True)],
    which is not part of the sources: descending by score, ties broken by
    original index order.  [outranksb a b]: the candidate
    [a = (index, score)] comes no later than [b]. *)
Definition outranksb (a b : nat * Q) : bool :=
  match (a.2 ?= b.2)%Q with
  | Gt => true
  | Eq => bool_decide (a.1 ≤ b.1)
  | Lt => false
  end.

Definition outranks (a b : nat * Q) : Prop := Is_true (outranksb a b).

#[export] Instance outranks_dec a b : Decision (outranks a b) := Is_true_dec _.

Definition ranking (scores : list Q) : list (nat * Q) :=
  merge_sort outranks (enumerate scores).

(** Modelled from the spec: [torch.topk(k, sorted=True)] along the last
    dimension, which is not part of the sources: the [k] highest-scoring
    indices (all of them when there are fewer), best first, with their
    scores.  The result is the pair (values, indices). *)
Definition topk (scores : list Q) (k : nat) : list Q * list nat :=
  let top := take k (ranking scores) in (top.*2, top.*1).

(** [torch.stack(tensors, dim=0)] on scalars: a vector with one entry
    per scalar; refuses an empty list. *)
Definition stack {A} (tensors : list A) : result (list A) :=
  match tensors with
  | [] => Raise RuntimeError
  | _ => Ok tensors
  end.

(** [torch.cat(tensors, dim=0)]: refuses an empty list. *)
Definition cat {A} (tensors : list (list A)) : result (list A) :=
  match tensors with
  | [] => Raise RuntimeError
  | _ => Ok (mjoin tensors)
  end.

(** [t.view(-1, 4)] of a [[N, M, 4]] tensor. *)
Definition flatten {A} (t : list (list A)) : list A := mjoin t.

Fixpoint chunks {A} (sz n : nat) (flat : list A) : list (list A) :=
  match n with
  | 0 => []
  | S n' => take sz flat :: chunks sz n' (drop sz flat)
  end.

(** [t.reshape(n, -1, 4)] / [t.view(n, -1, 4)] of a [[T, 4]] tensor: the
    inferred dimension must exist. *)
Definition reshape {A} (n : nat) (flat : list A) : result (list (list A)) :=
  if bool_decide (n = 0) then Raise RuntimeError
  else if bool_decide (length flat `mod` n = 0)
       then Ok (chunks (length flat `div` n) n flat)
       else Raise RuntimeError.

(** [t[batch_idx, idx]] with [batch_idx] of shape [[N, 1]] and [idx] of
    shape [[N, k]]: entry [(n, j)] of the result is
    [t[batch_idx[n], idx[n][j]]]. *)
Definition index_rows {A} (t : list (list A)) (batch_idx : list nat)
    (idx : list (list nat)) : result (list (list A)) :=
  for_each (λ bi, for_each (λ j, row ← getitem t bi.1; getitem row j) bi.2)
           (zip batch_idx idx).

(** [mask[inds] = 1] on a vector. *)
Definition index_put (mask : list nat) (inds : list nat) (v : nat) : list nat :=
  foldl (λ m i, <[i := v]> m) mask inds.

(** [t.split(sizes)]: the sizes must add up to the length. *)
Fixpoint split_go {A} (flat : list A) (sizes : list nat) : list (list A) :=
  match sizes with
  | [] => []
  | sz :: sizes' => take sz flat :: split_go (drop sz flat) sizes'
  end.

Definition split {A} (flat : list A) (sizes : list nat) : result (list (list A)) :=
  if bool_decide (sum_list sizes = length flat)
  then Ok (split_go flat sizes)
  else Raise RuntimeError.

(** [t[mask]] with a [uint8] mask: the mask has the length of [t]; the
    rows with a non-zero mask stay, in their order. *)
Definition mask_rows {A} (t : list A) (mask : list nat) : list A :=
  (filter (λ rm, rm.2 ≠ 0) (zip t mask)).*1.

End Torch.

(** ** Box collections ([structures/bounding_box.py], [structures/boxlist_ops.py])

    The sources of [BoxList] and of its operations are not part of the
    tree; they are modelled from the specification's data model. *)

Module BoxLists.
Import TensorSaver.

Inductive box_mode : Type := xyxy | xywh.

Record image_size : Type := ImageSize { im_width : Q; im_height : Q }.

(** Modelled from the spec: the Box Collection, which is not part of the
    sources: an ordered sequence of boxes, an image size, a mode tag and
    a mapping from field name to a sequence of per-box values. *)
Record BoxList : Type :=
  MkBoxList { bbox : list row4; size : image_size; mode : box_mode;
              extra_fields : gmap string (list Q) }.

(** The invariant of the data model: every field sequence has exactly as
    many entries as there are boxes. *)
Definition aligned (b : BoxList) : Prop :=
  map_Forall (λ _ v, length v = length (bbox b)) (extra_fields b).

Definition len (b : BoxList) : nat := length (bbox b).

#[export] Instance BoxList_inhabited : Inhabited BoxList :=
  populate (MkBoxList [] (ImageSize 0 0) xyxy ∅).

Definition add_field (field : string) (field_data : list Q) (b : BoxList) : BoxList :=
  MkBoxList (bbox b) (size b) (mode b) (<[field := field_data]> (extra_fields b)).

Definition get_field (field : string) (b : BoxList) : result (list Q) :=
  match extra_fields b !! field with
  | Some v => Ok v
  | None => Raise KeyError
  end.

(** Modelled from the spec: [copy_with_fields], which is not part of the
    sources: the same boxes, size and mode, and of the fields only the
    listed ones. *)
Definition copy_with_fields (fields : list string) (b : BoxList) : result BoxList :=
  if bool_decide (Forall (λ f, is_Some (extra_fields b !! f)) fields)
  then Ok (MkBoxList (bbox b) (size b) (mode b)
             (filter (λ kv, kv.1 ∈ fields) (extra_fields b)))
  else Raise KeyError.

(** Modelled from the spec: reordering by an index sequence, the same
    for the boxes and for every field of a collection (not part of the
    sources). *)
Definition gather {A} (l : list A) (idx : list nat) : list A := omap (l !!.) idx.

Definition in_range {A} (l : list A) (idx : list nat) : Prop :=
  Forall (λ i, i < length l) idx.

(** Modelled from the spec: [boxlist[idx]] for an index tensor, not part
    of the sources: [IndexError] when an index is out of range for the
    boxes or for a field. *)
Definition index_boxlist (b : BoxList) (idx : list nat) : result BoxList :=
  if bool_decide (in_range (bbox b) idx
                  ∧ map_Forall (λ _ v, in_range v idx) (extra_fields b))
  then Ok (MkBoxList (gather (bbox b) idx) (size b) (mode b)
             ((λ v, gather v idx) <$> extra_fields b))
  else Raise IndexError.

(** Modelled from the spec: filtering a collection by a mask
    ([boxlist[mask]], not part of the sources) filters the boxes and all
    fields identically. *)
Definition mask_boxlist (b : BoxList) (mask : list nat) : result BoxList :=
  if bool_decide (length mask = length (bbox b)
                  ∧ map_Forall (λ _ v, length mask = length v) (extra_fields b))
  then Ok (MkBoxList (Torch.mask_rows (bbox b) mask) (size b) (mode b)
             ((λ v, Torch.mask_rows v mask) <$> extra_fields b))
  else Raise IndexError.

(** [x.clamp(min=lo, max=hi)]. *)
Definition clamp (lo hi x : Q) : Q := Qmin (Qmax x lo) hi.

(** Modelled from the spec: clipping one box to the image, not part of
    the sources: after clipping all coordinates lie within
    [[0, image_width] × [0, image_height]]. *)
Definition clip_row (sz : image_size) (r : row4) : row4 :=
  let '(x1, y1, x2, y2) := r in
  (clamp 0 (im_width sz) x1, clamp 0 (im_height sz) y1,
   clamp 0 (im_width sz) x2, clamp 0 (im_height sz) y2).

(** Modelled from the spec: [clip_to_image(remove_empty=False)], which is
    not part of the sources: every box is clipped, none is discarded. *)
Definition clip_to_image (b : BoxList) : BoxList :=
  MkBoxList (clip_row (size b) <$> bbox b) (size b) (mode b) (extra_fields b).

(** Width and height of a box in either representation. *)
Definition box_width (m : box_mode) (r : row4) : Q :=
  let '(x1, y1, x2, y2) := r in
  match m with xyxy => x2 - x1 | xywh => x2 end.

Definition box_height (m : box_mode) (r : row4) : Q :=
  let '(x1, y1, x2, y2) := r in
  match m with xyxy => y2 - y1 | xywh => y2 end.

Definition box_area (m : box_mode) (r : row4) : Q := box_width m r * box_height m r.

(** Modelled from the spec: the test of [remove_small_boxes], which is
    not part of the sources: neither width nor height falls below
    [min_size]. *)
Definition big_enough (m : box_mode) (min_size : Q) (r : row4) : bool :=
  Qle_bool min_size (box_width m r) && Qle_bool min_size (box_height m r).

(** [keep.nonzero().squeeze(1)]: the positions that hold. *)
Definition nonzero (keep : list bool) : list nat :=
  (filter (λ ik, ik.2 = true) (enumerate keep)).*1.

(** Modelled from the spec: [remove_small_boxes], which is not part of the
    sources: the boxes whose width or height falls below [min_size] are
    removed, the others stay, in their order. *)
Definition remove_small_boxes (b : BoxList) (min_size : Q) : result BoxList :=
  let keep := nonzero (big_enough (mode b) min_size <$> bbox b) in
  index_boxlist b keep.

(** Modelled from the spec: [cat_boxlist], which is not part of the
    sources: the collections of one image are concatenated, boxes and
    every field; each field must be present in all of them. *)
Definition cat_boxlist (bboxes : list BoxList) : result BoxList :=
  match bboxes with
  | [] => Raise IndexError
  | b0 :: _ =>
      if bool_decide (Forall (λ b, dom (extra_fields b) = dom (extra_fields b0)) bboxes)
      then Ok (MkBoxList (mjoin (bbox <$> bboxes)) (size b0) (mode b0)
                 (map_imap
                    (λ f _, Some (mjoin ((λ b, default [] (extra_fields b !! f)) <$> bboxes)))
                    (extra_fields b0)))
      else Raise KeyError
  end.

End BoxLists.

(** ** [modeling/rpn/inference.py] *)

Module Rpn.
Import TensorSaver BoxLists.

(** The attributes of [RPNPostProcessor]; [training] is the flag of
    [torch.nn.Module]. *)
Record RPNPostProcessor : Type :=
  MkRPNPostProcessor {
    pre_nms_top_n : nat;
    post_nms_top_n : nat;
    nms_thresh : Q;
    min_size : Q;
    fpn_post_nms_top_n : nat;
    fpn_post_nms_per_batch : bool;
    training : bool }.

(** [__init__]: a missing [fpn_post_nms_top_n] is [post_nms_top_n]. *)
Definition init (pre_nms_top_n post_nms_top_n : nat) (nms_thresh min_size : Q)
    (fpn_post_nms_top_n : option nat) (fpn_post_nms_per_batch : bool)
    (training : bool) : RPNPostProcessor :=
  MkRPNPostProcessor pre_nms_top_n post_nms_top_n nms_thresh min_size
    (default post_nms_top_n fpn_post_nms_top_n) fpn_post_nms_per_batch training.

(** What the post-processor receives from outside the sources: the
    sigmoid of the array library, the decoder of the box coder (one box
    from one delta and one reference box) and the greedy suppression
    kernel, which returns the kept indices. *)
Record collaborators : Type :=
  Collaborators {
    sigmoid : Q → Q;
    decode_row : row4 → row4 → row4;
    nms : list row4 → list Q → Q → nat → list nat }.

(** The score and regression tensors of one level after
    [permute_and_flatten] (a change of layout, not part of the sources):
    shapes [[N, A*H*W]] and [[N, A*H*W, 4]], with [N] the number of rows. *)
Record level_input : Type :=
  LevelInput {
    shape_A : nat; shape_H : nat; shape_W : nat;
    objectness_logits : list (list Q);
    box_regression : list (list row4) }.

(** The two shapes of call that reach [TensorSaver.save]. *)
Definition by_keyword : call_site :=
  CallSite 0 ["tensor"; "tensor_name"; "scope"; "save_grad"].

Definition with_level_and_image : call_site :=
  CallSite 3 ["level"; "im_idx"].

(** [get_tensor_saver().save(tensor=..., tensor_name=..., scope=...,
    save_grad=False)]. *)
Definition dump_by_keyword (t : tensor) (tensor_name scope : string) : M unit :=
  s ← get_tensor_saver;
  call save_sig by_keyword (save s t tensor_name (Some scope) false).

(** [get_tensor_saver().save(tensor=topk_idx[i,:], ...)]: the saver is
    looked up, then the row is read, then the call is made. *)
Definition dump_topk_row (topk_idx : list (list nat)) (i level : nat) : M unit :=
  s ← get_tensor_saver;
  row ← lift (getitem topk_idx i);
  call save_sig by_keyword
    (save s (LongVec row)
       ("topk_idx_img_" +:+ pretty i +:+ "_layer_" +:+ pretty level)
       (Some "rpn") false).

(** [get_tensor_saver().save(t, name, 'rpn', level=level, im_idx=im_i)]. *)
Definition dump_with_level_and_image (t : tensor) (tensor_name : string) : M unit :=
  s ← get_tensor_saver;
  call save_sig with_level_and_image (save s t tensor_name (Some "rpn") false).

Section WithCollaborators.
Variable ext : collaborators.

(** Lines 94-97: the per-image top-k of the sigmoid scores. *)
Definition prefilter (self : RPNPostProcessor) (x : level_input)
    : list (list Q * list nat) :=
  let objectness := (λ row, sigmoid ext <$> row) <$> objectness_logits x in
  let num_anchors := shape_A x * shape_H x * shape_W x in
  let pre_nms_top_n := pre_nms_top_n self `min` num_anchors in
  (λ row, Torch.topk row pre_nms_top_n) <$> objectness.

(** Lines 110-115: the deltas and the reference boxes selected for
    decoding. *)
Definition gather_for_decode (anchors : list BoxList) (x : level_input)
    (topk_idx : list (list nat)) : result (list (list row4) * list (list row4)) :=
  let N := length (objectness_logits x) in
  let batch_idx := seq 0 N in
  box_regression ← Torch.index_rows (box_regression x) batch_idx topk_idx;
  concat_anchors ← Torch.cat (bbox <$> anchors);
  concat_anchors ← Torch.reshape N concat_anchors;
  concat_anchors ← Torch.index_rows concat_anchors batch_idx topk_idx;
  Ok (box_regression, concat_anchors).

(** Modelled from the spec: [self.box_coder.decode(deltas,
    reference_boxes)] on flat tensors; the box coder is not part of the
    sources and decodes per box pair. *)
Definition decode (deltas ref_boxes : list row4) : list row4 :=
  zip_with (decode_row ext) deltas ref_boxes.

(** Lines 151-154: the collection of one image before suppression. *)
Definition image_boxlist (self : RPNPostProcessor) (proposal : list row4)
    (score : list Q) (im_shape : image_size) : result BoxList :=
  let boxlist := MkBoxList proposal im_shape xyxy ∅ in
  let boxlist := add_field "objectness" score boxlist in
  let boxlist := clip_to_image boxlist in
  remove_small_boxes boxlist (min_size self).

(** Modelled from the spec: [boxlist_nms], which is not part of the
    sources: the kept indices come from the suppression kernel run on
    the ranking field; the callback sees them; the collection is
    reordered by them. *)
Definition boxlist_nms (b : BoxList) (nms_thresh : Q) (max_proposals : nat)
    (score_field : string) (dump_callback : list nat → M unit) : M BoxList :=
  score ← lift (get_field score_field b);
  let keep := nms ext (bbox b) score nms_thresh max_proposals in
  dump_callback keep;;
  lift (index_boxlist b keep).

(** The body of the loop of lines 150-166. *)
Definition process_image (self : RPNPostProcessor) (level : nat)
    (it : nat * (list row4 * list Q * image_size)) : M BoxList :=
  let '(im_i, (proposal, score, im_shape)) := it in
  boxlist ← lift (image_boxlist self proposal score im_shape);
  dump_with_level_and_image (FloatRows (bbox boxlist)) "after_remove_small_boxes";;
  let dump_callback keep := dump_with_level_and_image (LongVec keep) "nms_indices" in
  boxlist ← boxlist_nms boxlist (nms_thresh self) (post_nms_top_n self)
              "objectness" dump_callback;
  dump_with_level_and_image (FloatRows (bbox boxlist)) "proposals";;
  mret boxlist.

Definition zip3 {A B C} (a : list A) (b : list B) (c : list C) : list (A * B * C) :=
  zip (zip a b) c.

Definition forward_for_single_feature_map (self : RPNPostProcessor)
    (anchors : list BoxList) (x : level_input) (level : nat) : M (list BoxList) :=
  let N := length (objectness_logits x) in
  (* permute_and_flatten(...).view(N, -1): a dimension of a tensor
     without elements cannot be inferred *)
  (if bool_decide (N * (shape_A x * shape_H x * shape_W x) = 0)
   then raise RuntimeError else mret ());;
  let tk := prefilter self x in
  let objectness := fst <$> tk in
  let topk_idx := snd <$> tk in
  dump_topk_row topk_idx 0 level;;
  dump_topk_row topk_idx 1 level;;
  let image_shapes := size <$> anchors in
  '(box_regression, concat_anchors) ← lift (gather_for_decode anchors x topk_idx);
  dump_by_keyword (FloatRows (Torch.flatten concat_anchors)) "ref_boxes" "rpn/box_decode";;
  dump_by_keyword (FloatRows (Torch.flatten box_regression)) "boxes_delta" "rpn/box_decode";;
  let proposals := decode (Torch.flatten box_regression) (Torch.flatten concat_anchors) in
  dump_by_keyword (FloatRows proposals) "boxes" "rpn/box_decode";;
  proposals ← lift (Torch.reshape N proposals);
  for_each_M
    (λ ip, dump_by_keyword (FloatRows ip.2)
             ("proposals_after_decode_img_" +:+ pretty ip.1 +:+ "_layer_" +:+ pretty level)
             "rpn")
    (enumerate proposals);;
  for_each_M (process_image self level)
    (enumerate (zip3 proposals objectness image_shapes)).

(** [select_over_all_levels]. *)
Definition select_over_all_levels (self : RPNPostProcessor)
    (boxlists : list BoxList) : result (list BoxList) :=
  let num_images := length boxlists in
  if training self && fpn_post_nms_per_batch self then
    fields ← for_each (get_field "objectness") boxlists;
    objectness ← Torch.cat fields;
    let box_sizes := len <$> boxlists in
    let post_nms_top_n := fpn_post_nms_top_n self `min` length objectness in
    let inds_sorted := (Torch.topk objectness post_nms_top_n).2 in
    let inds_mask := replicate (length objectness) 0 in
    let inds_mask := Torch.index_put inds_mask inds_sorted 1 in
    inds_mask ← Torch.split inds_mask box_sizes;
    for_each (λ i, b ← getitem boxlists i;
                   m ← getitem inds_mask i;
                   mask_boxlist b m)
             (seq 0 num_images)
  else
    for_each (λ i, b ← getitem boxlists i;
                   objectness ← get_field "objectness" b;
                   let post_nms_top_n := fpn_post_nms_top_n self `min` length objectness in
                   let inds_sorted := (Torch.topk objectness post_nms_top_n).2 in
                   index_boxlist b inds_sorted)
             (seq 0 num_images).

(** [add_gt_proposals]. *)
Definition add_gt_proposals (proposals targets : list BoxList)
    : result (list BoxList) :=
  _ ← getitem proposals 0;
  gt_boxes ← for_each (copy_with_fields []) targets;
  let gt_boxes := (λ gt_box, add_field "objectness" (replicate (len gt_box) 1%Q) gt_box)
                    <$> gt_boxes in
  for_each (λ pg, cat_boxlist [pg.1; pg.2]) (zip proposals gt_boxes).

(** [list(zip( *rows ))]: the transposition, cut at the shortest row. *)
Definition zip_star {A} (rows : list (list A)) : list (list A) :=
  match rows with
  | [] => []
  | r0 :: _ =>
      let n := foldr (λ r m, length r `min` m) (length r0) rows in
      (λ i, omap (λ r, r !! i) rows) <$> seq 0 n
  end.

(** Lines 187-191 of [forward]: the per-level results of each image
    are concatenated and, with more than one level, selected from. *)
Definition merge_levels (self : RPNPostProcessor) (num_levels : nat)
    (sampled_boxes : list (list BoxList)) : result (list BoxList) :=
  let boxlists := zip_star sampled_boxes in
  boxlists ← for_each cat_boxlist boxlists;
  if bool_decide (1 < num_levels)
  then select_over_all_levels self boxlists
  else Ok boxlists.

(** Lines 197-203 of [forward]. *)
Definition dump_final_proposals (boxlists : list BoxList) : M (list unit) :=
  for_each_M
    (λ ib, dump_by_keyword (FloatRows (bbox ib.2))
             ("final_proposals_img_" +:+ pretty ib.1) "rpn")
    (enumerate boxlists).

(** Lines 187-205 of [forward]: what happens to the per-level results. *)
Definition forward_after_levels (self : RPNPostProcessor) (num_levels : nat)
    (sampled_boxes : list (list BoxList)) (targets : option (list BoxList))
    : M (list BoxList) :=
  boxlists ← lift (merge_levels self num_levels sampled_boxes);
  boxlists ← (match targets with
              | Some targets =>
                  if training self
                  then lift (add_gt_proposals boxlists targets)
                  else mret boxlists
              | None => mret boxlists
              end);
  dump_final_proposals boxlists;;
  mret boxlists.

(** [forward]: [anchors] is indexed by image then level, [levels] holds
    the score and regression tensors of each level. *)
Definition forward (self : RPNPostProcessor) (anchors : list (list BoxList))
    (levels : list level_input) (targets : option (list BoxList))
    : M (list BoxList) :=
  let num_levels := length levels in
  let anchors := zip_star anchors in
  sampled_boxes ←
    for_each_M (λ lax, forward_for_single_feature_map self lax.2.1 lax.2.2 (S lax.1))
               (enumerate (zip anchors levels));
  forward_after_levels self num_levels sampled_boxes targets.

End WithCollaborators.
End Rpn.

(** ** [engine/trainer.py] and [engine/inference.py] *)

Module Engine.
Import TensorSaver.

(** The call of [create_tensor_saver] in [do_train] and in [inference]:
    four keyword arguments, [training], [base_dir], [iteration] and
    [max_iter]. *)
Definition driver_site : call_site :=
  CallSite 0 ["training"; "base_dir"; "iteration"; "max_iter"].

(** [do_train], lines 69-74. *)
Definition do_train_create_tensor_saver (start_iter : Z) : M unit :=
  call create_tensor_saver_sig driver_site
    (create_tensor_saver "train_dump" start_iter).

(** [inference], lines 114-119. *)
Definition inference_create_tensor_saver : M unit :=
  call create_tensor_saver_sig driver_site
    (create_tensor_saver "inference_dump" 0).

(** [_accumulate_predictions_from_multiple_gpus].  [all_predictions] is
    what [all_gather] returned: one dictionary per process, keyed by the
    index of the image in the data set.  The function returns the
    warnings it logged along with its result; [None] stands for the bare
    [return]. *)
Definition not_contiguous_warning : string :=
  "Number of images that were gathered from multiple processes is not a contiguous set. Some images might be missing from the evaluation".

Definition update {P} (predictions p : gmap nat P) : gmap nat P := p ∪ predictions.

Definition sorted_keys {P} (predictions : gmap nat P) : list nat :=
  merge_sort (≤) (elements (dom predictions)).

Definition accumulate_predictions_from_multiple_gpus {P}
    (is_main_process : bool) (all_predictions : list (gmap nat P))
    : list string * result (option (list P)) :=
  if negb is_main_process then ([], Ok None)
  else
    let predictions := foldl update ∅ all_predictions in
    let image_ids := sorted_keys predictions in
    match last image_ids with
    | None => ([], Raise IndexError)
    | Some last_id =>
        let log := if bool_decide (length image_ids ≠ last_id + 1)
                   then [not_contiguous_warning] else [] in
        (log,
         predictions ← for_each (λ i, match predictions !! i with
                                      | Some p => Ok p
                                      | None => Raise KeyError
                                      end) image_ids;
         Ok (Some predictions))
    end.

(** [reduce_loss_dict].  The losses are scalars keyed by name.  What
    [get_world_size()] and [dist.get_rank()] return, and what
    [dist.reduce(all_losses, dst=0)] leaves in the tensor of this
    process, belong to the process group. *)
Record process_group : Type :=
  ProcessGroup { world_size : nat; rank : nat; dist_reduce : list Q → list Q }.

(** [{k: v for k, v in pairs}]: a later pair replaces an earlier one of
    the same key. *)
Definition dict_of {V} (pairs : list (string * V)) : gmap string V :=
  foldl (λ d kv, <[kv.1 := kv.2]> d) ∅ pairs.

Definition reduce_loss_dict (g : process_group) (loss_dict : gmap string Q)
    : result (gmap string Q) :=
  if bool_decide (world_size g < 2) then Ok loss_dict
  else
    let loss_names := merge_sort String.le (elements (dom loss_dict)) in
    all_losses ← for_each (λ k, match loss_dict !! k with
                                | Some v => Ok v
                                | None => Raise KeyError
                                end) loss_names;
    all_losses ← Torch.stack all_losses;
    let all_losses := dist_reduce g all_losses in
    let all_losses :=
      if bool_decide (rank g = 0)
      then (λ v, v / inject_Z (Z.of_nat (world_size g)))%Q <$> all_losses
      else all_losses in
    Ok (dict_of (zip loss_names all_losses)).

End Engine.

(** ** Vocabulary of the properties *)

Module Props.

(** Candidate [i] is ranked before candidate [j]: a strictly higher
    score, or the same score and a smaller original index. *)
Definition ranked_before (scores : list Q) (i j : nat) : Prop :=
  ∃ si sj, scores !! i = Some si ∧ scores !! j = Some sj
           ∧ ((sj < si)%Q ∨ (sj == si ∧ i < j)).

(** [idx] is the selection of the [k] best of [scores]: [min k n]
    distinct indices, listed best first, and nothing left out is ranked
    before something selected. *)
Definition top_k_selection (scores : list Q) (k : nat) (idx : list nat) : Prop :=
  length idx = k `min` length scores
  ∧ NoDup idx
  ∧ (∀ i, i ∈ idx → i < length scores)
  ∧ (∀ p q i j, p < q → idx !! p = Some i → idx !! q = Some j →
               ranked_before scores i j)
  ∧ (∀ i j, i ∈ idx → j < length scores → j ∉ idx → ranked_before scores i j).

(** The [objectness] sequence of a collection (empty when the field is
    missing). *)
Definition objectness_of (b : BoxLists.BoxList) : list Q :=
  default [] (BoxLists.extra_fields b !! "objectness").

(** The collection reordered or narrowed to the positions [idx]. *)
Definition restricted_to (idx : list nat) (b : BoxLists.BoxList) : BoxLists.BoxList :=
  BoxLists.MkBoxList (BoxLists.gather (BoxLists.bbox b) idx) (BoxLists.size b)
    (BoxLists.mode b) ((λ v, BoxLists.gather v idx) <$> BoxLists.extra_fields b).

(** The objectness scores of a batch, pooled image after image; the
    position in the pool of the first candidate of image [i]; and the
    positions of an image with [n] candidates whose pooled index belongs
    to a selection [sel]. *)
Definition pooled (boxlists : list BoxLists.BoxList) : list Q :=
  mjoin (objectness_of <$> boxlists).

Definition offset_of (boxlists : list BoxLists.BoxList) (i : nat) : nat :=
  sum_list (BoxLists.len <$> take i boxlists).

Definition positions_in (sel : list nat) (offset n : nat) : list nat :=
  filter (λ p, offset + p ∈ sel) (seq 0 n).

(** The input contract of one level: [N] score rows, [N] regression
    rows and [N] anchor collections, each with [A*H*W] entries. *)
Definition well_formed_level (anchors : list BoxLists.BoxList)
    (x : Rpn.level_input) : Prop :=
  let N := length (Rpn.objectness_logits x) in
  let num_anchors := Rpn.shape_A x * Rpn.shape_H x * Rpn.shape_W x in
  Forall (λ r, length r = num_anchors) (Rpn.objectness_logits x)
  ∧ length (Rpn.box_regression x) = N
  ∧ Forall (λ r, length r = num_anchors) (Rpn.box_regression x)
  ∧ length anchors = N
  ∧ Forall (λ a, length (BoxLists.bbox a) = num_anchors) anchors.

(** The decoder's share in its first wording: each image has
    [pre_nms_top_n] reference boxes decoded, and never all [A*H*W]. *)
Definition decodes_the_budget_never_all (ext : Rpn.collaborators)
    (self : Rpn.RPNPostProcessor) (anchors : list BoxLists.BoxList)
    (x : Rpn.level_input) : Prop :=
  ∀ deltas refs,
    Rpn.gather_for_decode anchors x (snd <$> Rpn.prefilter ext self x)
    = Ok (deltas, refs) →
    Forall (λ r, length r = Rpn.pre_nms_top_n self
                 ∧ length r < Rpn.shape_A x * Rpn.shape_H x * Rpn.shape_W x)
           refs.

(** A run that ends in an exception. *)
Definition raises {A} (m : TensorSaver.M A) (w : TensorSaver.world) : Prop :=
  ∃ e w', m w = (Raise e, w').

(** A box that lies entirely outside of the image. *)
Definition fully_outside (sz : BoxLists.image_size) (r : TensorSaver.row4) : Prop :=
  let '(x1, y1, x2, y2) := r in
  (x2 <= 0 ∨ BoxLists.im_width sz <= x1 ∨ y2 <= 0 ∨ BoxLists.im_height sz <= y1)%Q.

End Props.

(** ** Sample inputs

    Stand-ins for the collaborators and small inputs on which the
    properties below are instantiated. *)

Module Samples.
Import TensorSaver BoxLists Rpn.

(** A monotone stand-in for the sigmoid, a decoder that shifts the
    reference box by the deltas, and a suppression kernel that keeps the
    best [max_proposals] candidates. *)
Definition ext : collaborators :=
  Collaborators
    (λ q, q)
    (λ d r, let '(dx, dy, dw, dh) := d in
            let '(x1, y1, x2, y2) := r in
            (x1 + dx, y1 + dy, x2 + dw, y2 + dh)%Q)
    (λ _ scores _ max_proposals, (Torch.topk scores max_proposals).2).

Definition self : RPNPostProcessor :=
  MkRPNPostProcessor 3 2 0.5%Q 1%Q 3 true true.

(** The same with a budget of five candidates before suppression, more
    than the four anchors of the sample levels. *)
Definition wide : RPNPostProcessor :=
  MkRPNPostProcessor 5 2 0.5%Q 1%Q 3 true true.

Definition image : image_size := ImageSize 10%Q 10%Q.

Definition anchor_boxes : list row4 :=
  [(0, 0, 4, 4); (2, 2, 8, 8); (5, 5, 9, 9); (20, 20, 30, 30)]%Q.

Definition anchors : list BoxList :=
  [MkBoxList anchor_boxes image xyxy ∅; MkBoxList anchor_boxes image xyxy ∅].

Definition zero_deltas : list row4 := replicate 4 (0, 0, 0, 0)%Q.

(** Two images, [A = 1], [H = 2], [W = 2]. *)
Definition level : level_input :=
  LevelInput 1 2 2
    [[0.9; 0.1; 0.8; 0.3]; [0.2; 0.7; 0.7; 0.1]]%Q
    [zero_deltas; zero_deltas].

(** One image, [A = 1], [H = 2], [W = 2]. *)
Definition single_level : level_input :=
  LevelInput 1 2 2 [[0.9; 0.1; 0.8; 0.3]]%Q [zero_deltas].

Definition single_anchors : list BoxList := [MkBoxList anchor_boxes image xyxy ∅].

Definition saver_ready : world := World (Some (Build "train_dump" 0)) [] [].

(** Two images with five candidates each, and a budget of six. *)
Definition five_boxes : list row4 :=
  [(0, 0, 1, 1); (1, 1, 2, 2); (2, 2, 3, 3); (3, 3, 4, 4); (4, 4, 5, 5)]%Q.

Definition batch : list BoxList :=
  [MkBoxList five_boxes image xyxy {["objectness" := [0.9; 0.8; 0.3; 0.2; 0.1]%Q]};
   MkBoxList five_boxes image xyxy {["objectness" := [0.95; 0.7; 0.6; 0.5; 0.05]%Q]}].

Definition trainer : RPNPostProcessor :=
  MkRPNPostProcessor 3 2 0.5%Q 1%Q 6 true true.

Definition tester : RPNPostProcessor :=
  MkRPNPostProcessor 3 2 0.5%Q 1%Q 3 true false.

(** Ground truth of the two images, with a field of labels. *)
Definition targets : list BoxList :=
  [MkBoxList [(1, 1, 3, 3)]%Q image xyxy {["labels" := [7]%Q]};
   MkBoxList [(2, 2, 6, 6); (0, 0, 9, 9)]%Q image xyxy {["labels" := [3; 4]%Q]}].

End Samples.

(** * Properties *)

Import TensorSaver BoxLists Rpn Engine Props.

(** ** Call binding and the tensor saver *)

Lemma binds_keywords sig site :
  binds sig site = true → ∀ k, k ∈ keywords site → k ∈ param_names sig.
Proof.
  unfold binds. intros H k Hk.
  apply andb_prop in H as [H _]. apply andb_prop in H as [_ H].
  rewrite forallb_forall in H.
  specialize (H k). rewrite <- list_elem_of_In in H. specialize (H Hk).
  apply andb_prop in H as [H _]. by apply bool_decide_eq_true in H.
Qed.

Lemma call_unexpected_keyword {A} sig site (body : M A) k w :
  k ∈ keywords site → k ∉ param_names sig →
  call sig site body w = (Raise TypeError, w).
Proof.
  intros Hk Hn. unfold call.
  destruct (binds sig site) eqn:Hb; [|done].
  exfalso. eapply Hn, binds_keywords; eauto.
Qed.

(** C9.  [create_tensor_saver] takes [base_dir] and [iteration] and
    [TensorSaver.save] takes [tensor], [tensor_name], [scope] and
    [save_grad], and nothing else: a call with these keywords binds, a
    call that binds uses only these keywords, and a call with any other
    keyword raises [TypeError] and leaves the saver and the dump
    directory as they were.  So do the calls of the training driver and
    of the inference driver ([training], [max_iter]) and the calls of the
    RPN decoder that pass [level] and [im_idx]. *)
Theorem other_keywords_raise_TypeError :
  param_names create_tensor_saver_sig = ["base_dir"; "iteration"]
  ∧ param_names save_sig = ["tensor"; "tensor_name"; "scope"; "save_grad"]
  ∧ binds create_tensor_saver_sig (CallSite 0 ["base_dir"; "iteration"]) = true
  ∧ binds save_sig (CallSite 0 ["tensor"; "tensor_name"; "scope"; "save_grad"]) = true
  ∧ (∀ site, binds create_tensor_saver_sig site = true →
       ∀ k, k ∈ keywords site → k ∈ ["base_dir"; "iteration"])
  ∧ (∀ site, binds save_sig site = true →
       ∀ k, k ∈ keywords site → k ∈ ["tensor"; "tensor_name"; "scope"; "save_grad"])
  ∧ (∀ site k base_dir iteration w,
       k ∈ keywords site → k ∉ ["base_dir"; "iteration"] →
       call create_tensor_saver_sig site (create_tensor_saver base_dir iteration) w
       = (Raise TypeError, w))
  ∧ (∀ site k self tensor tensor_name scope save_grad w,
       k ∈ keywords site → k ∉ ["tensor"; "tensor_name"; "scope"; "save_grad"] →
       call save_sig site (save self tensor tensor_name scope save_grad) w
       = (Raise TypeError, w))
  ∧ (∀ start_iter w, do_train_create_tensor_saver start_iter w = (Raise TypeError, w))
  ∧ (∀ w, inference_create_tensor_saver w = (Raise TypeError, w))
  ∧ (∀ tensor tensor_name w,
       is_Some (tensor_saver w) →
       dump_with_level_and_image tensor tensor_name w = (Raise TypeError, w)).
Proof.
  split_and!; try done.
  - intros site Hb k Hk. by apply (binds_keywords _ _ Hb).
  - intros site Hb k Hk. by apply (binds_keywords _ _ Hb).
  - intros site k base_dir iteration w Hk Hn.
    by eapply call_unexpected_keyword.
  - intros site k self tensor tensor_name scope save_grad w Hk Hn.
    by eapply call_unexpected_keyword.
  - intros tensor tensor_name [s d h] [s' Hs]. simpl in Hs. subst s. done.
Qed.

(** The hypotheses of C9 are met by the call of the training driver. *)
Lemma other_keywords_raise_TypeError_witness :
  call create_tensor_saver_sig Engine.driver_site
    (create_tensor_saver "train_dump" 0) (World None [] [])
  = (Raise TypeError, World None [] []).
Proof.
  apply (proj1 (proj2 (proj2 (proj2 (proj2 (proj2 (proj2
                  other_keywords_raise_TypeError))))))
           Engine.driver_site "max_iter").
  - compute_done.
  - compute_done.
Defined.

(** C10.  [step] with a non-zero [k] stores [k]; [step()] and [step(0)]
    both add one to the stored iteration, so no call of [step] stores 0
    except by counting up from -1. *)
Theorem step_zero_is_no_argument (self : TensorSaver.t) :
  (∀ k : Z, k ≠ 0%Z → iteration (step (Some k) self) = k)
  ∧ iteration (step None self) = (iteration self + 1)%Z
  ∧ iteration (step (Some 0%Z) self) = (iteration self + 1)%Z
  ∧ (∀ arg, iteration (step arg self) = 0%Z → iteration self = (-1)%Z).
Proof.
  split_and!; try done.
  - intros k Hk. unfold step, truthy.
    by destruct (Z.eqb_spec k 0).
  - intros arg. unfold step, truthy. destruct arg as [k|]; simpl.
    + destruct (Z.eqb_spec k 0); simpl; lia.
    + lia.
Qed.

Lemma step_zero_is_no_argument_witness :
  iteration (step (Some 7%Z) (Build "train_dump" 3)) = 7%Z.
Proof.
  apply (proj1 (step_zero_is_no_argument (Build "train_dump" 3))).
  lia.
Defined.

(** ** Ranking and top-k *)

Lemma outranks_spec i s j t :
  Torch.outranks (i, s) (j, t) ↔ (t < s)%Q ∨ (t == s ∧ i ≤ j).
Proof.
  unfold Torch.outranks, Torch.outranksb. simpl.
  destruct (s ?= t)%Q eqn:E.
  - apply Qeq_alt in E. rewrite bool_decide_spec. split.
    + intros H. right. split; [by symmetry|done].
    + intros [H|[_ H]]; [|done]. rewrite E in H. by apply Qlt_irrefl in H.
  - apply Qlt_alt in E. split; [done|].
    intros [H|[H _]].
    + by apply (Qlt_irrefl s), (Qlt_trans _ t).
    + rewrite H in E. by apply Qlt_irrefl in E.
  - apply Qgt_alt in E. split; [by left|done].
Qed.

Lemma outranks_total : Total Torch.outranks.
Proof.
  intros [i s] [j t]. rewrite !outranks_spec.
  destruct (Q_dec s t) as [[H|H]|H].
  - right. by left.
  - left. by left.
  - destruct (Nat.le_ge_cases i j).
    + left. right. split; [by symmetry|done].
    + right. right. done.
Qed.

Lemma outranks_trans : Transitive Torch.outranks.
Proof.
  intros [i s] [j t] [k u]. rewrite !outranks_spec.
  intros [H1|[H1 L1]] [H2|[H2 L2]].
  - left. by apply (Qlt_trans _ t).
  - left. by rewrite H2.
  - left. by rewrite <- H1.
  - right. split; [by rewrite H2|lia].
Qed.

Lemma enumerate_lookup {A} (l : list A) i j x :
  enumerate l !! i = Some (j, x) ↔ j = i ∧ l !! i = Some x.
Proof.
  unfold enumerate. rewrite lookup_zip_with_Some. split.
  - intros (a & b & Heq & Ha & Hb). simplify_eq.
    apply lookup_seq in Ha as [-> _]. done.
  - intros [-> H]. exists i, x. split_and!; [done| |done].
    apply lookup_seq. split; [done|]. by eapply lookup_lt_Some.
Qed.

Lemma elem_of_enumerate {A} (l : list A) j x :
  (j, x) ∈ enumerate l ↔ l !! j = Some x.
Proof.
  rewrite list_elem_of_lookup. split.
  - intros [i H]. by apply enumerate_lookup in H as [-> H].
  - intros H. exists j. by apply enumerate_lookup.
Qed.

Lemma enumerate_fst {A} (l : list A) : (enumerate l).*1 = seq 0 (length l).
Proof. apply fst_zip. by rewrite length_seq. Qed.

Lemma enumerate_snd {A} (l : list A) : (enumerate l).*2 = l.
Proof. apply snd_zip. by rewrite length_seq. Qed.

Lemma enumerate_length {A} (l : list A) : length (enumerate l) = length l.
Proof. by rewrite <- (length_fmap snd), enumerate_snd. Qed.

Lemma ranking_perm scores : Torch.ranking scores ≡ₚ enumerate scores.
Proof. apply merge_sort_Permutation. Qed.

Lemma ranking_sorted scores : StronglySorted Torch.outranks (Torch.ranking scores).
Proof.
  apply (@StronglySorted_merge_sort _ _ _ outranks_trans outranks_total).
Qed.

Lemma ranking_length scores : length (Torch.ranking scores) = length scores.
Proof. by rewrite ranking_perm, enumerate_length. Qed.

Lemma ranking_indices scores : (Torch.ranking scores).*1 ≡ₚ seq 0 (length scores).
Proof. by rewrite ranking_perm, enumerate_fst. Qed.

Lemma elem_of_ranking scores j s :
  (j, s) ∈ Torch.ranking scores ↔ scores !! j = Some s.
Proof. by rewrite ranking_perm, elem_of_enumerate. Qed.

Lemma ranking_NoDup_fst scores : NoDup (Torch.ranking scores).*1.
Proof. rewrite ranking_indices. apply NoDup_seq. Qed.

(** In a strongly sorted list an earlier entry is related to a later one. *)
Lemma StronglySorted_lookup_lt {A} (R : relation A) l p q x y :
  StronglySorted R l → p < q → l !! p = Some x → l !! q = Some y → R x y.
Proof.
  intros Hs Hpq Hp Hq.
  rewrite <- (take_drop q l) in Hs.
  eapply StronglySorted_app_1_elem_of; [done| |].
  - apply list_elem_of_lookup. exists p. by rewrite lookup_take_lt.
  - apply list_elem_of_lookup. exists 0. rewrite lookup_drop. by rewrite Nat.add_0_r.
Qed.

Lemma outranks_ranked_before scores i j si sj :
  scores !! i = Some si → scores !! j = Some sj → i ≠ j →
  Torch.outranks (i, si) (j, sj) → ranked_before scores i j.
Proof.
  intros Hi Hj Hne H. exists si, sj. split_and!; [done..|].
  apply outranks_spec in H as [H|[H L]]; [by left|right].
  split; [done|lia].
Qed.

Lemma topk_values scores k :
  (Torch.topk scores k).1 = gather scores (Torch.topk scores k).2.
Proof.
  unfold Torch.topk. simpl.
  assert (Forall (λ a, scores !! a.1 = Some a.2) (take k (Torch.ranking scores))) as H.
  { apply Forall_forall. intros [j s] Hin. simpl. apply elem_of_ranking.
    by eapply subseteq_take. }
  induction H as [|[j s] l Hj _ IH]; [done|].
  unfold gather in *. simpl in *. rewrite Hj. simpl. by f_equal.
Qed.

Lemma topk_top_k_selection scores k :
  top_k_selection scores k (Torch.topk scores k).2.
Proof.
  unfold Torch.topk. simpl.
  pose proof (ranking_sorted scores) as Hsorted.
  pose proof (ranking_NoDup_fst scores) as Hnd.
  split_and!.
  - by rewrite length_fmap, length_take, ranking_length.
  - rewrite fmap_take. eapply sublist_NoDup; [done|apply sublist_take].
  - intros i Hi. rewrite fmap_take in Hi.
    assert (i ∈ (Torch.ranking scores).*1) as Hi'.
    { by eapply subseteq_take. }
    rewrite ranking_indices in Hi'. apply elem_of_seq in Hi'. lia.
  - intros p q i j Hpq Hp Hq.
    rewrite list_lookup_fmap in Hp, Hq.
    destruct (take k (Torch.ranking scores) !! p) as [[i' si]|] eqn:Ep; [|done].
    destruct (take k (Torch.ranking scores) !! q) as [[j' sj]|] eqn:Eq; [|done].
    simpl in *. simplify_eq.
    apply lookup_take_Some in Ep as [Ep _]. apply lookup_take_Some in Eq as [Eq _].
    apply (outranks_ranked_before _ _ _ si sj).
    + apply elem_of_ranking, list_elem_of_lookup; eauto.
    + apply elem_of_ranking, list_elem_of_lookup; eauto.
    + intros ->. 
      assert (p = q); [|lia].
      eapply NoDup_lookup; [exact Hnd|..]; rewrite list_lookup_fmap.
      * by rewrite Ep.
      * by rewrite Eq.
    + eapply StronglySorted_lookup_lt; eauto.
  - intros i j Hi Hj Hnj.
    apply list_elem_of_fmap in Hi as ([i' si] & -> & Hi). simpl in *.
    assert (j ∈ (Torch.ranking scores).*1) as Hj'.
    { rewrite ranking_indices. apply elem_of_seq. lia. }
    apply list_elem_of_fmap in Hj' as ([j' sj] & -> & Hj'). simpl in *.
    rewrite <- (take_drop k (Torch.ranking scores)) in Hj', Hsorted.
    apply elem_of_app in Hj' as [Hj'|Hj'].
    { exfalso. apply Hnj. apply list_elem_of_fmap. by exists (j', sj). }
    apply (outranks_ranked_before _ _ _ si sj).
    + apply elem_of_ranking. by eapply subseteq_take.
    + apply elem_of_ranking. by eapply subseteq_drop.
    + intros ->. apply Hnj. apply list_elem_of_fmap. by exists (j', si).
    + eapply StronglySorted_app_1_elem_of; eauto.
Qed.

Lemma topk_all scores k :
  length scores ≤ k → (Torch.topk scores k).2 ≡ₚ seq 0 (length scores).
Proof.
  intros Hk. unfold Torch.topk. simpl.
  rewrite take_ge by (rewrite ranking_length; lia).
  apply ranking_indices.
Qed.

(** ** The top-k pre-filter *)

(** C2.  For every image of the batch, the pre-filter returns the
    selection of the [min(pre_nms_top_n, A*H*W)] best sigmoid scores of
    that image's row: that many distinct indices, sorted descending by
    score with ties in original index order, together with their scores.
    When [pre_nms_top_n] is at least the number of anchors, every
    candidate is kept and the result is a reordering. *)
Theorem prefilter_selects_top_k_per_image ext self x n logits :
  objectness_logits x !! n = Some logits →
  length logits = shape_A x * shape_H x * shape_W x →
  ∃ values idx,
    prefilter ext self x !! n = Some (values, idx)
    ∧ let scores := sigmoid ext <$> logits in
      let num_anchors := shape_A x * shape_H x * shape_W x in
      length idx = pre_nms_top_n self `min` num_anchors
      ∧ top_k_selection scores (pre_nms_top_n self `min` num_anchors) idx
      ∧ values = gather scores idx
      ∧ (num_anchors ≤ pre_nms_top_n self →
         idx ≡ₚ seq 0 num_anchors ∧ values ≡ₚ scores).
Proof.
  intros Hn Hlen.
  set (scores := sigmoid ext <$> logits).
  set (k := pre_nms_top_n self `min` (shape_A x * shape_H x * shape_W x)).
  exists (Torch.topk scores k).1, (Torch.topk scores k).2.
  assert (length scores = shape_A x * shape_H x * shape_W x) as Hs.
  { unfold scores. by rewrite length_fmap. }
  split.
  { unfold prefilter. rewrite !list_lookup_fmap, Hn. simpl.
    by destruct (Torch.topk scores k). }
  cbv zeta. fold scores k.
  pose proof (topk_top_k_selection scores k) as Hsel. split_and!.
  - destruct Hsel as [Hl _]. rewrite Hl, Hs. unfold k. lia.
  - done.
  - apply topk_values.
  - intros Hall. assert (length scores ≤ k) as Hk by (unfold k; lia).
    rewrite <- Hs. split; [by apply topk_all|].
    unfold Torch.topk. simpl. rewrite take_ge by (rewrite ranking_length; lia).
    by rewrite ranking_perm, enumerate_snd.
Qed.

Lemma prefilter_selects_top_k_per_image_witness :
  ∃ values idx,
    prefilter Samples.ext Samples.self Samples.level !! 1 = Some (values, idx)
    ∧ length idx = 3
    ∧ top_k_selection [0.2; 0.7; 0.7; 0.1]%Q 3 idx
    ∧ values = gather [0.2; 0.7; 0.7; 0.1]%Q idx
    ∧ (4 ≤ 3 → idx ≡ₚ seq 0 4 ∧ values ≡ₚ [0.2; 0.7; 0.7; 0.1]%Q).
Proof.
  apply (prefilter_selects_top_k_per_image Samples.ext Samples.self Samples.level
           1 [0.2; 0.7; 0.7; 0.1]%Q); reflexivity.
Defined.

(** ** Loops, gathering and reshaping *)

Lemma for_each_ok {A B} (f : A → result B) (g : A → B) l :
  (∀ a, a ∈ l → f a = Ok (g a)) → for_each f l = Ok (g <$> l).
Proof.
  induction l as [|a l IH]; intros H; [done|]. simpl.
  rewrite (H a) by left. rewrite IH; [done|].
  intros b Hb. apply H. by right.
Qed.

Lemma for_each_ext {A B} (f g : A → result B) l :
  (∀ a, a ∈ l → f a = g a) → for_each f l = for_each g l.
Proof.
  induction l as [|a l IH]; intros H; [done|]. simpl.
  rewrite (H a) by left. rewrite IH; [done|].
  intros b Hb. apply H. by right.
Qed.

Lemma getitem_Some {A} (l : list A) i a : l !! i = Some a → getitem l i = Ok a.
Proof. unfold getitem. by intros ->. Qed.

Lemma for_each_seq_getitem_from {A B} (f : A → result B) (pre l : list A) :
  for_each (λ i, a ← getitem (pre ++ l) i; f a) (seq (length pre) (length l))
  = for_each f l.
Proof.
  revert pre. induction l as [|a l IH]; intros pre; [done|].
  simpl. rewrite (getitem_Some _ _ a); [|by apply list_lookup_middle].
  cbn. specialize (IH (pre ++ [a])).
  rewrite <- app_assoc, length_app, Nat.add_1_r in IH. simpl in IH.
  by rewrite IH.
Qed.

Lemma for_each_seq_getitem {A B} (f : A → result B) (l : list A) :
  for_each (λ i, a ← getitem l i; f a) (seq 0 (length l)) = for_each f l.
Proof. apply (for_each_seq_getitem_from f [] l). Qed.

Lemma for_each_seq_getitem2 {A B C} (f : A → B → result C) (l : list A) (m : list B) :
  length m = length l →
  for_each (λ i, a ← getitem l i; b ← getitem m i; f a b) (seq 0 (length l))
  = for_each (λ ab, f ab.1 ab.2) (zip l m).
Proof.
  intros Hlen.
  rewrite <- (for_each_seq_getitem (λ ab, f ab.1 ab.2) (zip l m)).
  rewrite length_zip, Hlen, Nat.min_id.
  apply for_each_ext. intros i Hi. apply elem_of_seq in Hi as [_ Hi]. simpl in Hi.
  destruct (lookup_lt_is_Some_2 l i Hi) as [a Ha].
  destruct (lookup_lt_is_Some_2 m i ltac:(lia)) as [b Hb].
  rewrite (getitem_Some _ _ _ Ha), (getitem_Some _ _ _ Hb).
  rewrite (getitem_Some (zip l m) i (a, b)); [done|].
  apply lookup_zip_with_Some. eauto.
Qed.

Lemma gather_cons {A} (l : list A) i idx a :
  l !! i = Some a → gather l (i :: idx) = a :: gather l idx.
Proof. unfold gather. simpl. by intros ->. Qed.

Lemma gather_length {A} (l : list A) idx :
  in_range l idx → length (gather l idx) = length idx.
Proof.
  induction 1 as [|i idx Hi _ IH]; [done|].
  destruct (lookup_lt_is_Some_2 l i Hi) as [a Ha].
  rewrite (gather_cons _ _ _ _ Ha). simpl. by rewrite IH.
Qed.

Lemma for_each_getitem {A} (l : list A) idx :
  in_range l idx → for_each (getitem l) idx = Ok (gather l idx).
Proof.
  induction 1 as [|i idx Hi _ IH]; [done|].
  destruct (lookup_lt_is_Some_2 l i Hi) as [a Ha].
  rewrite (gather_cons _ _ _ _ Ha). simpl. by rewrite (getitem_Some _ _ _ Ha), IH.
Qed.

(** Fancy indexing by [arange(N)[:, None]] and a per-row index tensor
    gathers each row by its own indices. *)
Lemma index_rows_arange {A} (t : list (list A)) (idx : list (list nat)) :
  Forall2 in_range t idx →
  Torch.index_rows t (seq 0 (length t)) idx = Ok (zip_with gather t idx).
Proof.
  intros H. unfold Torch.index_rows.
  set (h := λ bi : nat * list nat,
         for_each (λ j, row ← getitem t bi.1; getitem row j) bi.2).
  transitivity (for_each (λ i, r ← getitem t i; row ← getitem idx i;
                               for_each (getitem r) row) (seq 0 (length t))).
  { rewrite <- (for_each_seq_getitem h (zip (seq 0 (length t)) idx)).
    rewrite length_zip, length_seq, <- (Forall2_length _ _ _ H), Nat.min_id.
    apply for_each_ext. intros i Hi. apply elem_of_seq in Hi as [_ Hi]. simpl in Hi.
    destruct (lookup_lt_is_Some_2 t i Hi) as [r Hr].
    destruct (lookup_lt_is_Some_2 idx i) as [row Hrow].
    { by rewrite <- (Forall2_length _ _ _ H). }
    rewrite (getitem_Some (zip _ _) i (i, row)).
    2:{ apply lookup_zip_with_Some. exists i, row. split_and!; [done| |done].
        by apply lookup_seq. }
    rewrite (getitem_Some _ _ _ Hr), (getitem_Some _ _ _ Hrow). cbn.
    unfold h. simpl. apply for_each_ext. intros j _.
    by rewrite (getitem_Some _ _ _ Hr). }
  rewrite for_each_seq_getitem2 by (by rewrite (Forall2_length _ _ _ H)).
  induction H as [|r row t' idx' Hr _ IH]; [done|].
  simpl. rewrite (for_each_getitem _ _ Hr), IH. done.
Qed.

Lemma chunks_mjoin {A} (k : nat) (rows : list (list A)) :
  Forall (λ r, length r = k) rows →
  Torch.chunks k (length rows) (mjoin rows) = rows.
Proof.
  induction 1 as [|r rows Hr _ IH]; [done|]. simpl.
  rewrite take_app_length' by done. rewrite drop_app_length' by done.
  by rewrite IH.
Qed.

Lemma length_mjoin_uniform {A} (k : nat) (rows : list (list A)) :
  Forall (λ r, length r = k) rows → length (mjoin rows) = length rows * k.
Proof.
  induction 1 as [|r rows Hr _ IH]; [done|]. simpl.
  rewrite length_app, IH, Hr. done.
Qed.

Lemma reshape_mjoin {A} (k : nat) (rows : list (list A)) :
  rows ≠ [] → Forall (λ r, length r = k) rows →
  Torch.reshape (length rows) (mjoin rows) = Ok rows.
Proof.
  intros Hne Hk. unfold Torch.reshape.
  assert (length rows ≠ 0) as Hn by (by destruct rows).
  rewrite bool_decide_eq_false_2 by done.
  rewrite (length_mjoin_uniform k) by done.
  rewrite Nat.mul_comm, Nat.Div0.mod_mul, bool_decide_eq_true_2 by done.
  rewrite Nat.div_mul by done. by rewrite chunks_mjoin.
Qed.

(** ** Gathering for the decoder *)

(** Well-formed input of one level: [N] score rows, [N] regression rows
    and [N] anchor collections, each with [A*H*W] entries. *)
Lemma Forall2_in_range {A} (num : nat) (t : list (list A)) (idxs : list (list nat)) :
  length idxs = length t →
  Forall (λ r, length r = num) t →
  Forall (Forall (λ i, i < num)) idxs →
  Forall2 in_range t idxs.
Proof.
  intros Hlen Ht Hi. apply Forall2_same_length_lookup. split; [done|].
  intros n r idx Hr Hidx.
  rewrite Forall_lookup in Ht. rewrite Forall_lookup in Hi.
  unfold in_range. rewrite (Ht _ _ Hr). by eapply Hi.
Qed.

Lemma zip_with_gather_lengths {A} (num k : nat) (t : list (list A)) idxs :
  Forall2 in_range t idxs →
  Forall (λ idx, length idx = k) idxs →
  Forall (λ r, length r = k) (zip_with gather t idxs).
Proof.
  intros H. induction H as [|r idx t' idxs' Hr _ IH]; intros Hk; [done|].
  apply Forall_cons in Hk as [Hk1 Hk2]. simpl. constructor; [|by apply IH].
  by rewrite gather_length.
Qed.

Lemma cat_ok {A} (tensors : list (list A)) :
  tensors ≠ [] → Torch.cat tensors = Ok (mjoin tensors).
Proof. by destruct tensors. Qed.

Lemma gather_for_decode_ok anchors x idxs :
  let N := length (objectness_logits x) in
  let num_anchors := shape_A x * shape_H x * shape_W x in
  N ≠ 0 →
  length (box_regression x) = N →
  Forall (λ r, length r = num_anchors) (box_regression x) →
  length anchors = N →
  Forall (λ a, length (bbox a) = num_anchors) anchors →
  length idxs = N →
  Forall (Forall (λ i, i < num_anchors)) idxs →
  gather_for_decode anchors x idxs
  = Ok (zip_with gather (box_regression x) idxs,
        zip_with gather (bbox <$> anchors) idxs).
Proof.
  intros N num_anchors HN Hreg Hregs Hanc Hancs Hidx Hidxs.
  unfold gather_for_decode. fold N.
  assert (Forall2 in_range (box_regression x) idxs) as H1.
  { apply (Forall2_in_range num_anchors); [congruence|done..]. }
  assert (Forall2 in_range (bbox <$> anchors) idxs) as H2.
  { apply (Forall2_in_range num_anchors); [by rewrite length_fmap; congruence| |done].
    by apply Forall_fmap. }
  rewrite <- Hreg at 1. rewrite index_rows_arange by done. cbn.
  assert (Forall (λ r, length r = num_anchors) (bbox <$> anchors)) as Hl
    by (by apply Forall_fmap).
  assert (length (bbox <$> anchors) = N) as Hn by (by rewrite length_fmap).
  revert H2 Hl Hn. generalize (bbox <$> anchors). intros l H2 Hl Hn.
  assert (l ≠ []) as Hne by (intros ->; simpl in Hn; congruence).
  rewrite (cat_ok _ Hne). cbn. rewrite <- Hn.
  rewrite (reshape_mjoin num_anchors) by done. cbn.
  by rewrite index_rows_arange.
Qed.

Lemma zip_with_mjoin {A B C} (f : A → B → C) (a : list (list A)) (b : list (list B)) :
  Forall2 (λ r s, length r = length s) a b →
  zip_with f (mjoin a) (mjoin b) = mjoin (zip_with (zip_with f) a b).
Proof.
  induction 1 as [|r s a' b' Hrs _ IH]; [done|]. simpl.
  rewrite zip_with_app by done. by rewrite IH.
Qed.

Lemma decode_reshape_ok ext (k : nat) (deltas refs : list (list row4)) :
  deltas ≠ [] → length refs = length deltas →
  Forall (λ r, length r = k) deltas → Forall (λ r, length r = k) refs →
  Torch.reshape (length deltas)
    (decode ext (Torch.flatten deltas) (Torch.flatten refs))
  = Ok (zip_with (zip_with (decode_row ext)) deltas refs).
Proof.
  intros Hne Hlen Hd Hr. unfold decode, Torch.flatten.
  assert (Forall2 (λ r s : list row4, length r = length s) deltas refs) as H2.
  { apply Forall2_same_length_lookup. split; [done|]. intros i r s Hi Hs.
    rewrite Forall_lookup in Hd. rewrite Forall_lookup in Hr.
    rewrite (Hd _ _ Hi), (Hr _ _ Hs). done. }
  rewrite zip_with_mjoin by done.
  assert (length (zip_with (zip_with (decode_row ext)) deltas refs) = length deltas) as Hl.
  { rewrite length_zip_with. lia. }
  rewrite <- Hl. apply (reshape_mjoin k).
  - destruct deltas, refs; simpl in *; congruence.
  - clear Hl Hne Hlen. induction H2 as [|r s a' b' Hrs _ IH]; [done|].
    apply Forall_cons in Hd as [Hd1 Hd2]. apply Forall_cons in Hr as [Hr1 Hr2].
    simpl. constructor; [|by apply IH].
    rewrite length_zip_with. lia.
Qed.

Lemma prefilter_length ext self x :
  length (prefilter ext self x) = length (objectness_logits x).
Proof. unfold prefilter. by rewrite !length_fmap. Qed.

Lemma prefilter_indices ext self x :
  let num_anchors := shape_A x * shape_H x * shape_W x in
  Forall (λ r, length r = num_anchors) (objectness_logits x) →
  Forall (λ idx, Forall (λ i, i < num_anchors) idx
                 ∧ length idx = pre_nms_top_n self `min` num_anchors)
         (snd <$> prefilter ext self x).
Proof.
  intros num_anchors H. unfold prefilter.
  rewrite Forall_fmap. rewrite Forall_fmap. rewrite Forall_fmap.
  eapply Forall_impl; [exact H|]. intros logits Hlen. unfold compose.
  set (scores := sigmoid ext <$> logits).
  assert (length scores = num_anchors) as Hs by (unfold scores; by rewrite length_fmap).
  destruct (topk_top_k_selection scores (pre_nms_top_n self `min` num_anchors))
    as (Hl & _ & Hr & _).
  fold num_anchors. split.
  - apply Forall_forall. intros i Hi. rewrite <- Hs. by apply Hr.
  - etrans; [apply Hl|]. lia.
Qed.

(** C3, amended.  For every image, the deltas and the reference boxes
    handed to the decoder are those at the indices of that image's top-k
    selection, in the order of the selection, which is also the order of
    the retained scores; the decoder runs on the retained candidates
    only, [min(pre_nms_top_n, A*H*W)] per image, which are all the
    anchors of the image exactly when [pre_nms_top_n] is at least
    [A*H*W]; the decoded boxes of an image are the decoded pairs of that
    image. *)
Theorem decode_gathers_by_the_top_k_indices ext self anchors x :
  let N := length (objectness_logits x) in
  let num_anchors := shape_A x * shape_H x * shape_W x in
  let k := pre_nms_top_n self `min` num_anchors in
  N ≠ 0 →
  well_formed_level anchors x →
  ∃ deltas refs proposals,
    gather_for_decode anchors x (snd <$> prefilter ext self x) = Ok (deltas, refs)
    ∧ length (decode ext (Torch.flatten deltas) (Torch.flatten refs)) = N * k
    ∧ Torch.reshape N (decode ext (Torch.flatten deltas) (Torch.flatten refs))
      = Ok proposals
    ∧ ∀ n logits regs a,
        objectness_logits x !! n = Some logits →
        box_regression x !! n = Some regs →
        anchors !! n = Some a →
        ∃ idx,
          prefilter ext self x !! n = Some (gather (sigmoid ext <$> logits) idx, idx)
          ∧ length idx = k
          ∧ (num_anchors ≤ pre_nms_top_n self ↔ idx ≡ₚ seq 0 num_anchors)
          ∧ deltas !! n = Some (gather regs idx)
          ∧ refs !! n = Some (gather (bbox a) idx)
          ∧ proposals !! n
            = Some (zip_with (decode_row ext) (gather regs idx) (gather (bbox a) idx)).
Proof.
  intros N num_anchors k HN (Hobj & Hreg & Hregs & Hanc & Hancs).
  fold N in Hreg, Hanc. fold num_anchors in Hobj, Hregs, Hancs.
  set (idxs := snd <$> prefilter ext self x).
  pose proof (prefilter_indices ext self x Hobj) as Hidx. fold idxs num_anchors k in Hidx.
  assert (length idxs = N) as Hlen.
  { unfold idxs. by rewrite length_fmap, prefilter_length. }
  assert (Forall (Forall (λ i, i < num_anchors)) idxs) as Hin.
  { eapply Forall_impl; [exact Hidx|]. by intros idx [? _]. }
  assert (Forall (λ idx, length idx = k) idxs) as Hk.
  { eapply Forall_impl; [exact Hidx|]. by intros idx [_ ?]. }
  set (deltas := zip_with gather (box_regression x) idxs).
  set (refs := zip_with gather (bbox <$> anchors) idxs).
  assert (Forall2 in_range (box_regression x) idxs) as H1.
  { apply (Forall2_in_range num_anchors); [congruence|done..]. }
  assert (Forall2 in_range (bbox <$> anchors) idxs) as H2.
  { apply (Forall2_in_range num_anchors); [by rewrite length_fmap; congruence| |done].
    by apply Forall_fmap. }
  assert (Forall (λ r, length r = k) deltas) as Hdk
    by (by apply (zip_with_gather_lengths num_anchors)).
  assert (Forall (λ r, length r = k) refs) as Hrk
    by (by apply (zip_with_gather_lengths num_anchors)).
  assert (length deltas = N) as Hdl.
  { unfold deltas. rewrite length_zip_with. lia. }
  assert (length refs = N) as Hrl.
  { unfold refs. rewrite length_zip_with, length_fmap. lia. }
  exists deltas, refs, (zip_with (zip_with (decode_row ext)) deltas refs).
  split_and!.
  - by apply gather_for_decode_ok.
  - unfold decode, Torch.flatten. rewrite length_zip_with.
    rewrite !(length_mjoin_uniform k) by done. lia.
  - rewrite <- Hdl. apply (decode_reshape_ok ext k); [|congruence|done..].
    destruct deltas; simpl in *; congruence.
  - intros n logits regs a Hl Hr Ha.
    assert (prefilter ext self x !! n
            = Some (Torch.topk (sigmoid ext <$> logits) k)) as Hp.
    { unfold prefilter. by rewrite !list_lookup_fmap, Hl. }
    exists (Torch.topk (sigmoid ext <$> logits) k).2.
    assert (idxs !! n = Some (Torch.topk (sigmoid ext <$> logits) k).2) as Hi.
    { unfold idxs. by rewrite list_lookup_fmap, Hp. }
    assert (deltas !! n = Some (gather regs (Torch.topk (sigmoid ext <$> logits) k).2)) as Hd.
    { unfold deltas. rewrite lookup_zip_with, Hr, Hi. done. }
    assert (refs !! n = Some (gather (bbox a) (Torch.topk (sigmoid ext <$> logits) k).2)) as Hf.
    { unfold refs. rewrite lookup_zip_with, list_lookup_fmap, Ha, Hi. done. }
    assert (length (Torch.topk (sigmoid ext <$> logits) k).2 = k) as Hlk.
    { rewrite Forall_lookup in Hk. by apply (Hk n). }
    assert (length (sigmoid ext <$> logits) = num_anchors) as Hls.
    { rewrite length_fmap. rewrite Forall_lookup in Hobj. by apply (Hobj n). }
    split_and!; [|done| |done|done|].
    + rewrite Hp, <- topk_values. by destruct (Torch.topk _ _).
    + split.
      * intros Hall. rewrite <- Hls. apply topk_all. unfold k. lia.
      * intros Hperm. apply Permutation_length in Hperm.
        rewrite Hlk, length_seq in Hperm. unfold k in Hperm. lia.
    + rewrite lookup_zip_with, Hd, Hf. done.
Qed.

(** C3 as worded fails when the budget is not below the number of
    anchors: with four anchors per image and [pre_nms_top_n = 5], four
    boxes per image are decoded, which is not five and is all of them. *)
Lemma decodes_the_budget_never_all_counterexample :
  ¬ decodes_the_budget_never_all Samples.ext Samples.wide Samples.anchors Samples.level.
Proof.
  intros H.
  destruct (gather_for_decode Samples.anchors Samples.level
              (snd <$> prefilter Samples.ext Samples.wide Samples.level))
    as [[deltas refs]|e] eqn:E; [|vm_compute in E; discriminate].
  specialize (H deltas refs E). vm_compute in E. injection E as <- <-.
  apply Forall_cons in H as [[Hl _] _]. vm_compute in Hl. discriminate.
Qed.

(** ** Clipping and the minimum-size filter *)

Lemma gather_nonzero_from {A B} (P : B → bool) (pre l : list A) (m : list B) :
  length l = length m →
  gather (pre ++ l)
    (filter (λ ik : nat * bool, ik.2 = true)
       (zip (seq (length pre) (length m)) (P <$> m))).*1
  = (filter (λ xm : A * B, P xm.2 = true) (zip l m)).*1.
Proof.
  revert pre l. induction m as [|y m IH]; intros pre [|a l] Hlen; try done.
  simpl in Hlen. injection Hlen as Hlen.
  specialize (IH (pre ++ [a]) l Hlen).
  rewrite <- app_assoc, length_app, Nat.add_1_r in IH. simpl in IH.
  cbn [length seq fmap list_fmap zip zip_with]. rewrite !filter_cons. simpl.
  destruct (decide (P y = true)) as [Hy|Hy].
  - cbn [fmap list_fmap fst]. rewrite (gather_cons _ _ _ a) by apply list_lookup_middle, eq_refl.
    by rewrite IH.
  - apply IH.
Qed.

Lemma gather_nonzero {A B} (P : B → bool) (l : list A) (m : list B) :
  length l = length m →
  gather l (nonzero (P <$> m))
  = (filter (λ xm : A * B, P xm.2 = true) (zip l m)).*1.
Proof.
  intros H. unfold nonzero, enumerate. rewrite length_fmap.
  by apply (gather_nonzero_from P [] l m).
Qed.

Lemma filter_zip_self {A} (P : A → bool) (l : list A) :
  (filter (λ xm : A * A, P xm.2 = true) (zip l l)).*1 = filter (λ r, P r = true) l.
Proof.
  induction l as [|a l IH]; [done|]. cbn [zip zip_with]. rewrite !filter_cons. simpl.
  destruct (decide (P a = true)); cbn [fmap list_fmap fst]; by rewrite IH.
Qed.

Lemma nonzero_in_range {A} (l : list A) (keep : list bool) :
  length keep = length l → in_range l (nonzero keep).
Proof.
  intros H. unfold in_range, nonzero. apply Forall_forall. intros i Hi.
  apply list_elem_of_fmap in Hi as ([j b] & -> & Hi). simpl.
  apply list_elem_of_filter in Hi as [_ Hi].
  apply list_elem_of_lookup in Hi as [p Hp].
  apply enumerate_lookup in Hp as [-> Hp].
  rewrite <- H. by eapply lookup_lt_Some.
Qed.

Lemma clamp_bounds lo hi x : (lo <= hi → lo <= clamp lo hi x <= hi)%Q.
Proof.
  intros H. unfold clamp.
  destruct (Q.max_spec x lo) as [[? Hm]|[? Hm]];
    destruct (Q.min_spec (Qmax x lo) hi) as [[? Hn]|[? Hn]];
    rewrite Hn; try rewrite Hm; split; lra.
Qed.

Lemma clamp_below lo hi x : (lo <= hi → x <= lo → clamp lo hi x == lo)%Q.
Proof.
  intros H Hx. unfold clamp.
  destruct (Q.max_spec x lo) as [[? Hm]|[? Hm]];
    destruct (Q.min_spec (Qmax x lo) hi) as [[? Hn]|[? Hn]];
    rewrite Hn; try rewrite Hm; lra.
Qed.

Lemma clamp_above lo hi x : (lo <= hi → hi <= x → clamp lo hi x == hi)%Q.
Proof.
  intros H Hx. unfold clamp.
  destruct (Q.max_spec x lo) as [[? Hm]|[? Hm]];
    destruct (Q.min_spec (Qmax x lo) hi) as [[? Hn]|[? Hn]];
    rewrite Hn; try rewrite Hm; lra.
Qed.

Lemma clip_row_outside sz x1 y1 x2 y2 :
  (0 <= im_width sz)%Q → (0 <= im_height sz)%Q →
  (x1 <= x2)%Q → (y1 <= y2)%Q →
  fully_outside sz (x1, y1, x2, y2) →
  (box_area xyxy (clip_row sz (x1, y1, x2, y2)) == 0)%Q.
Proof.
  intros HW HH Hx Hy Hout. unfold box_area, clip_row, box_width, box_height.
  destruct Hout as [H|[H|[H|H]]].
  - rewrite (clamp_below _ _ x2), (clamp_below _ _ x1) by lra. ring.
  - rewrite (clamp_above _ _ x2), (clamp_above _ _ x1) by lra. ring.
  - rewrite (clamp_below _ _ y2), (clamp_below _ _ y1) by lra. ring.
  - rewrite (clamp_above _ _ y2), (clamp_above _ _ y1) by lra. ring.
Qed.

Lemma big_enough_spec m min_size r :
  big_enough m min_size r = true
  ↔ (min_size <= box_width m r ∧ min_size <= box_height m r)%Q.
Proof.
  unfold big_enough. rewrite andb_true_iff, !Qle_bool_iff. done.
Qed.

Lemma index_boxlist_one_field b f v idx :
  extra_fields b = {[f := v]} →
  in_range (bbox b) idx → in_range v idx →
  index_boxlist b idx
  = Ok (MkBoxList (gather (bbox b) idx) (size b) (mode b) {[f := gather v idx]}).
Proof.
  intros Hf Hb Hv. unfold index_boxlist. rewrite Hf.
  rewrite bool_decide_eq_true_2.
  - by rewrite map_fmap_singleton.
  - split; [done|]. by apply map_Forall_singleton.
Qed.

(** Lines 151-154, the collection of one image before suppression: it
    is built with the scores as its [objectness] field; clipping maps every box to a box within
    the image and drops none (a box lying entirely outside stays, with
    zero area); only then the boxes whose clipped width or height is
    below [min_size] are removed, each with its score, whatever that
    score is, and the others stay in their order. *)
Theorem image_boxlist_clips_then_filters self proposal score im_shape :
  length score = length proposal →
  let built := add_field "objectness" score (MkBoxList proposal im_shape xyxy ∅) in
  let clipped := clip_to_image built in
  let keeps (r : row4) := big_enough xyxy (min_size self) r = true in
  extra_fields built = {["objectness" := score]}
  ∧ bbox clipped = clip_row im_shape <$> proposal
  ∧ length (bbox clipped) = length proposal
  ∧ extra_fields clipped = {["objectness" := score]}
  ∧ (∀ x1 y1 x2 y2,
       (x1, y1, x2, y2) ∈ proposal →
       (0 <= im_width im_shape)%Q → (0 <= im_height im_shape)%Q →
       (x1 <= x2)%Q → (y1 <= y2)%Q →
       fully_outside im_shape (x1, y1, x2, y2) →
       clip_row im_shape (x1, y1, x2, y2) ∈ bbox clipped
       ∧ (box_area xyxy (clip_row im_shape (x1, y1, x2, y2)) == 0)%Q)
  ∧ image_boxlist self proposal score im_shape
    = Ok (MkBoxList (filter keeps (bbox clipped)) im_shape xyxy
            {["objectness" :=
                (filter (λ sr : Q * row4, keeps sr.2) (zip score (bbox clipped))).*1]})
  ∧ (∀ r, keeps r ↔ (min_size self <= box_width xyxy r
                     ∧ min_size self <= box_height xyxy r)%Q).
Proof.
  intros Hlen built clipped keeps.
  assert (extra_fields built = {["objectness" := score]}) as Hf.
  { unfold built, add_field. simpl. by rewrite insert_empty. }
  split_and!; try done.
  - unfold clipped, clip_to_image. simpl. by rewrite length_fmap.
  - intros x1 y1 x2 y2 Hin HW HH Hx Hy Hout. split.
    + unfold clipped, clip_to_image. cbn [bbox built add_field].
      apply list_elem_of_fmap. by exists (x1, y1, x2, y2).
    + by apply clip_row_outside.
  - unfold image_boxlist. fold built. fold clipped. unfold remove_small_boxes.
    assert (length (bbox clipped) = length proposal) as Hl.
    { unfold clipped, clip_to_image. simpl. by rewrite length_fmap. }
    rewrite (index_boxlist_one_field clipped "objectness" score).
    + f_equal. f_equal.
      * rewrite gather_nonzero by done. apply filter_zip_self.
      * rewrite gather_nonzero by congruence. done.
    + done.
    + apply nonzero_in_range. by rewrite length_fmap.
    + apply nonzero_in_range. rewrite length_fmap. congruence.
  - intros r. apply big_enough_spec.
Qed.

(** A box of width 1/2 with the best score is removed when [min_size]
    is 1. *)
Lemma image_boxlist_clips_then_filters_witness :
  image_boxlist Samples.self [(0, 0, 1 # 2, 5); (1, 1, 4, 4)]%Q [0.9; 0.2]%Q Samples.image
  = Ok (MkBoxList [(1, 1, 4, 4)]%Q Samples.image xyxy {["objectness" := [0.2]%Q]}).
Proof.
  apply (image_boxlist_clips_then_filters Samples.self
           [(0, 0, 1 # 2, 5); (1, 1, 4, 4)]%Q [0.9; 0.2]%Q Samples.image eq_refl).
Defined.

(** ** Selection over all levels *)

Lemma index_boxlist_ok b idx :
  aligned b → in_range (bbox b) idx →
  index_boxlist b idx = Ok (restricted_to idx b).
Proof.
  intros Ha Hi. unfold index_boxlist. rewrite bool_decide_eq_true_2; [done|].
  split; [done|]. intros f v Hv. unfold in_range. by rewrite (Ha f v Hv).
Qed.

Lemma objectness_of_Some b scores :
  extra_fields b !! "objectness" = Some scores → objectness_of b = scores.
Proof. unfold objectness_of. by intros ->. Qed.

Lemma get_field_objectness b :
  is_Some (extra_fields b !! "objectness") →
  get_field "objectness" b = Ok (objectness_of b).
Proof. intros [v Hv]. unfold get_field, objectness_of. by rewrite Hv. Qed.

Lemma objectness_of_length b :
  aligned b → is_Some (extra_fields b !! "objectness") →
  length (objectness_of b) = len b.
Proof.
  intros Ha [v Hv]. rewrite (objectness_of_Some _ _ Hv). by apply (Ha _ _ Hv).
Qed.

Lemma restricted_to_objectness idx b :
  is_Some (extra_fields b !! "objectness") →
  extra_fields (restricted_to idx b) !! "objectness"
  = Some (gather (objectness_of b) idx).
Proof.
  intros [v Hv]. unfold restricted_to. simpl.
  by rewrite lookup_fmap, Hv, (objectness_of_Some _ _ Hv).
Qed.

(** C5.  Outside of the batch-wide training policy, every image is
    treated on its own: its output is its collection reordered by the
    selection of the [min(fpn_post_nms_top_n, n)] best objectness scores
    among its [n] candidates, best first, so it has that many boxes and
    at most [fpn_post_nms_top_n]. *)
Theorem select_per_image self boxlists :
  training self && fpn_post_nms_per_batch self = false →
  Forall aligned boxlists →
  Forall (λ b, is_Some (extra_fields b !! "objectness")) boxlists →
  ∃ out,
    select_over_all_levels self boxlists = Ok out
    ∧ length out = length boxlists
    ∧ ∀ i b, boxlists !! i = Some b →
        ∃ idx,
          top_k_selection (objectness_of b)
            (fpn_post_nms_top_n self `min` len b) idx
          ∧ out !! i = Some (restricted_to idx b)
          ∧ objectness_of (restricted_to idx b) = gather (objectness_of b) idx
          ∧ len (restricted_to idx b) = fpn_post_nms_top_n self `min` len b
          ∧ len (restricted_to idx b) ≤ fpn_post_nms_top_n self.
Proof.
  intros Hmode Ha Ho.
  set (k b := fpn_post_nms_top_n self `min` len b).
  set (sel b := (Torch.topk (objectness_of b) (k b)).2).
  assert (∀ b, b ∈ boxlists →
            top_k_selection (objectness_of b) (k b) (sel b)
            ∧ in_range (bbox b) (sel b) ∧ length (sel b) = k b) as Hsel.
  { intros b Hb. rewrite Forall_forall in Ha. rewrite Forall_forall in Ho.
    pose proof (objectness_of_length b (Ha b Hb) (Ho b Hb)) as Hl.
    pose proof (topk_top_k_selection (objectness_of b) (k b)) as Ht.
    split; [done|]. destruct Ht as (Hlen & _ & Hr & _). split.
    - apply Forall_forall. intros i Hi. unfold len in Hl. rewrite <- Hl. by apply Hr.
    - etrans; [apply Hlen|]. rewrite Hl. unfold k. lia. }
  exists ((λ b, restricted_to (sel b) b) <$> boxlists).
  split_and!.
  - unfold select_over_all_levels. rewrite Hmode.
    rewrite for_each_seq_getitem. apply for_each_ok.
    intros b Hb. rewrite Forall_forall in Ha. rewrite Forall_forall in Ho.
    rewrite (get_field_objectness b (Ho b Hb)). cbn.
    rewrite (objectness_of_length b (Ha b Hb) (Ho b Hb)).
    apply index_boxlist_ok; [by apply Ha|]. by apply Hsel.
  - by rewrite length_fmap.
  - intros i b Hi. exists (sel b).
    assert (b ∈ boxlists) as Hb by (by eapply list_elem_of_lookup_2).
    destruct (Hsel b Hb) as (Ht & Hr & Hl).
    rewrite Forall_forall in Ho.
    assert (len (restricted_to (sel b) b) = k b) as Hlen.
    { unfold len, restricted_to. simpl. by rewrite gather_length. }
    split_and!; [done| | |done|].
    + by rewrite list_lookup_fmap, Hi.
    + apply objectness_of_Some, restricted_to_objectness. by apply Ho.
    + rewrite Hlen. unfold k. lia.
Qed.


(** *** The batch-wide mask *)

Lemma index_put_length mask inds v :
  length (Torch.index_put mask inds v) = length mask.
Proof.
  unfold Torch.index_put. revert mask.
  induction inds as [|i inds IH]; intros mask; [done|].
  simpl. by rewrite IH, length_insert.
Qed.

Lemma index_put_lookup mask inds v j :
  j < length mask →
  Torch.index_put mask inds v !! j
  = if bool_decide (j ∈ inds) then Some v else mask !! j.
Proof.
  unfold Torch.index_put. revert mask.
  induction inds as [|i inds IH]; intros mask Hj.
  { cbn [foldl]. by rewrite bool_decide_eq_false_2 by apply not_elem_of_nil. }
  cbn [foldl]. rewrite IH by (by rewrite length_insert).
  destruct (decide (j ∈ inds)) as [Hin|Hin].
  - rewrite !bool_decide_eq_true_2; [done| by right | done].
  - rewrite (bool_decide_eq_false_2 (j ∈ inds)) by done.
    destruct (decide (j = i)) as [->|Hne].
    + rewrite bool_decide_eq_true_2 by left. by rewrite list_lookup_insert_eq.
    + rewrite bool_decide_eq_false_2.
      * by rewrite list_lookup_insert_ne.
      * intros Hc. apply elem_of_cons in Hc as [?|?]; done.
Qed.

(** The mask of a selection: 1 at the selected positions, 0 elsewhere. *)
Lemma index_put_zeros n inds :
  Torch.index_put (replicate n 0) inds 1
  = (λ j, if bool_decide (j ∈ inds) then 1 else 0) <$> seq 0 n.
Proof.
  apply list_eq. intros j.
  destruct (decide (j < n)) as [Hj|Hj].
  - rewrite index_put_lookup by (by rewrite length_replicate).
    rewrite list_lookup_fmap, lookup_seq_lt by done. simpl.
    case_bool_decide; [done|]. by rewrite lookup_replicate_2.
  - rewrite !lookup_ge_None_2; [done|..].
    + rewrite length_fmap, length_seq. lia.
    + rewrite index_put_length, length_replicate. lia.
Qed.

Lemma split_go_length {A} (flat : list A) sizes :
  length (Torch.split_go flat sizes) = length sizes.
Proof.
  revert flat. induction sizes as [|sz sizes IH]; intros flat; [done|].
  simpl. by rewrite IH.
Qed.

Lemma split_go_lookup {A} (flat : list A) sizes i sz :
  sizes !! i = Some sz →
  Torch.split_go flat sizes !! i
  = Some (take sz (drop (sum_list (take i sizes)) flat)).
Proof.
  revert flat i. induction sizes as [|s sizes IH]; intros flat i Hi; [done|].
  destruct i as [|i]; simpl in *.
  - by simplify_eq.
  - rewrite (IH _ _ Hi). by rewrite drop_drop.
Qed.

Lemma split_go_mjoin {A} (flat : list A) sizes :
  sum_list sizes = length flat → mjoin (Torch.split_go flat sizes) = flat.
Proof.
  revert flat. induction sizes as [|s sizes IH]; intros flat H; simpl in *.
  - by destruct flat.
  - rewrite IH; [by rewrite take_drop|]. rewrite length_drop. lia.
Qed.

Lemma sum_list_take_le (sizes : list nat) i sz :
  sizes !! i = Some sz → sum_list (take i sizes) + sz ≤ sum_list sizes.
Proof.
  revert i. induction sizes as [|s sizes IH]; intros i Hi; [done|].
  destruct i as [|i]; simpl in *.
  - simplify_eq. lia.
  - specialize (IH _ Hi). lia.
Qed.

Lemma take_drop_fmap_seq {A} (f : nat → A) n off sz :
  off + sz ≤ n →
  take sz (drop off (f <$> seq 0 n)) = (λ p, f (off + p)) <$> seq 0 sz.
Proof.
  intros H. apply list_eq. intros p.
  destruct (decide (p < sz)) as [Hp|Hp].
  - rewrite lookup_take_lt, lookup_drop, !list_lookup_fmap by done.
    rewrite !lookup_seq_lt by lia. done.
  - rewrite lookup_take_ge by lia.
    rewrite lookup_ge_None_2; [done|]. rewrite length_fmap, length_seq. lia.
Qed.

Lemma mask_rows_cons {A} (a : A) t m mask :
  Torch.mask_rows (a :: t) (m :: mask)
  = if decide (m ≠ 0) then a :: Torch.mask_rows t mask else Torch.mask_rows t mask.
Proof.
  unfold Torch.mask_rows. cbn [zip zip_with]. rewrite filter_cons. simpl.
  by destruct (decide (m ≠ 0)).
Qed.

Lemma mask_rows_indicator_from {A} (P : nat → Prop) `{∀ p, Decision (P p)}
    (pre t : list A) :
  Torch.mask_rows t
    ((λ p, if bool_decide (P p) then 1 else 0) <$> seq (length pre) (length t))
  = gather (pre ++ t) (filter P (seq (length pre) (length t))).
Proof.
  revert pre. induction t as [|a t IH]; intros pre; [done|].
  specialize (IH (pre ++ [a])).
  rewrite <- app_assoc, length_app, Nat.add_1_r in IH. simpl in IH.
  cbn [length seq fmap list_fmap]. rewrite mask_rows_cons, filter_cons.
  destruct (decide (P (length pre))) as [Hp|Hp].
  - rewrite bool_decide_eq_true_2 by done.
    rewrite decide_True by done.
    rewrite (gather_cons _ _ _ a) by apply list_lookup_middle, eq_refl.
    by rewrite IH.
  - rewrite bool_decide_eq_false_2 by done.
    rewrite decide_False by (intros Hc; by apply Hc). apply IH.
Qed.

Lemma mask_rows_indicator {A} (P : nat → Prop) `{∀ p, Decision (P p)} (t : list A) :
  Torch.mask_rows t ((λ p, if bool_decide (P p) then 1 else 0) <$> seq 0 (length t))
  = gather t (filter P (seq 0 (length t))).
Proof. apply (mask_rows_indicator_from P [] t). Qed.

Lemma mask_rows_length {A} (t : list A) mask :
  length mask = length t →
  length (Torch.mask_rows t mask) = length (filter (λ m, m ≠ 0) mask).
Proof.
  revert mask. induction t as [|a t IH]; intros [|m mask] Hl; try done.
  simpl in Hl. injection Hl as Hl.
  rewrite mask_rows_cons, filter_cons.
  destruct (decide (m ≠ 0)); simpl; by rewrite IH.
Qed.

Lemma indicator_count (sel : list nat) (l : list nat) :
  length (filter (λ m, m ≠ 0)
            ((λ j, if bool_decide (j ∈ sel) then 1 else 0) <$> l))
  = length (filter (λ j, j ∈ sel) l).
Proof.
  induction l as [|j l IH]; [done|].
  cbn [fmap list_fmap]. rewrite !filter_cons.
  destruct (decide (j ∈ sel)) as [Hj|Hj].
  - rewrite bool_decide_eq_true_2 by done. rewrite decide_True by done.
    simpl. by rewrite IH.
  - rewrite bool_decide_eq_false_2 by done. rewrite decide_False by (intros Hc; by apply Hc).
    done.
Qed.

Lemma selected_count (sel : list nat) n :
  NoDup sel → (∀ i, i ∈ sel → i < n) →
  length (filter (λ j, j ∈ sel) (seq 0 n)) = length sel.
Proof.
  intros Hnd Hr. apply Permutation_length, NoDup_Permutation.
  - apply NoDup_filter, NoDup_seq.
  - done.
  - intros j. rewrite list_elem_of_filter, elem_of_seq. split; [by intros [? _]|].
    intros Hj. split; [done|]. specialize (Hr j Hj). lia.
Qed.

Lemma filter_mjoin_length {A} (P : A → Prop) `{∀ a, Decision (P a)} (ls : list (list A)) :
  length (filter P (mjoin ls)) = sum_list ((λ l, length (filter P l)) <$> ls).
Proof.
  induction ls as [|l ls IH]; [done|]. simpl.
  by rewrite filter_app, length_app, IH.
Qed.

Lemma for_each_seq_ok {B} (f : nat → result B) (g : nat → B) n :
  (∀ i, i < n → f i = Ok (g i)) → for_each f (seq 0 n) = Ok (g <$> seq 0 n).
Proof.
  intros H. apply for_each_ok. intros i Hi. apply H.
  apply elem_of_seq in Hi. lia.
Qed.

Lemma pooled_length boxlists :
  Forall aligned boxlists →
  Forall (λ b, is_Some (extra_fields b !! "objectness")) boxlists →
  length (pooled boxlists) = sum_list (len <$> boxlists).
Proof.
  unfold pooled. induction 1 as [|b bs Hb _ IH]; intros Ho; [done|].
  apply Forall_cons in Ho as [Ho1 Ho2].
  change (length (objectness_of b ++ mjoin (objectness_of <$> bs))
          = len b + sum_list (len <$> bs)).
  rewrite length_app, (IH Ho2). by rewrite objectness_of_length.
Qed.

Lemma pooled_lookup boxlists i b p :
  Forall aligned boxlists →
  Forall (λ b, is_Some (extra_fields b !! "objectness")) boxlists →
  boxlists !! i = Some b → p < len b →
  pooled boxlists !! (offset_of boxlists i + p) = objectness_of b !! p.
Proof.
  unfold pooled, offset_of. intros Ha. revert i.
  induction Ha as [|b0 bs Hb0 _ IH]; intros i Ho Hi Hp; [done|].
  apply Forall_cons in Ho as [Ho1 Ho2].
  destruct i as [|i].
  - simpl in Hi. simplify_eq.
    change ((objectness_of b ++ mjoin (objectness_of <$> bs)) !! (0 + p)
            = objectness_of b !! p).
    rewrite lookup_app_l; [done|]. rewrite objectness_of_length by done. simpl. lia.
  - simpl in Hi.
    change ((objectness_of b0 ++ mjoin (objectness_of <$> bs))
              !! (len b0 + sum_list (len <$> take i bs) + p)
            = objectness_of b !! p).
    rewrite lookup_app_r by (rewrite objectness_of_length by done; lia).
    rewrite objectness_of_length by done.
    replace (len b0 + sum_list (len <$> take i bs) + p - len b0)
      with (sum_list (len <$> take i bs) + p) by lia.
    by apply IH.
Qed.

Lemma mask_boxlist_indicator (P : nat → Prop) `{∀ p, Decision (P p)} b :
  aligned b →
  mask_boxlist b ((λ p, if bool_decide (P p) then 1 else 0) <$> seq 0 (len b))
  = Ok (restricted_to (filter P (seq 0 (len b))) b).
Proof.
  intros Ha. unfold mask_boxlist.
  rewrite bool_decide_eq_true_2.
  - unfold restricted_to. f_equal. f_equal.
    + apply mask_rows_indicator.
    + apply map_fmap_ext. intros f v Hv. simpl.
      unfold len. rewrite <- (Ha f v Hv). apply mask_rows_indicator.
  - rewrite length_fmap, length_seq. split; [done|].
    intros f v Hv. simpl. by rewrite (Ha f v Hv).
Qed.

Lemma batch_mask_row boxlists sel i b :
  Forall aligned boxlists →
  boxlists !! i = Some b →
  let mask := (λ j, if bool_decide (j ∈ sel) then 1 else 0)
                <$> seq 0 (sum_list (len <$> boxlists)) in
  let m := (λ p, if bool_decide (offset_of boxlists i + p ∈ sel) then 1 else 0)
             <$> seq 0 (len b) in
  Torch.split_go mask (len <$> boxlists) !! i = Some m
  ∧ mask_boxlist b m
    = Ok (restricted_to (positions_in sel (offset_of boxlists i) (len b)) b)
  ∧ len (restricted_to (positions_in sel (offset_of boxlists i) (len b)) b)
    = length (filter (λ x, x ≠ 0) m).
Proof.
  intros Ha Hi mask m.
  assert (aligned b) as Hb.
  { rewrite Forall_forall in Ha. apply Ha. by eapply list_elem_of_lookup_2. }
  assert ((len <$> boxlists) !! i = Some (len b)) as Hsz
    by (by rewrite list_lookup_fmap, Hi).
  split_and!.
  - rewrite (split_go_lookup _ _ _ _ Hsz). f_equal. unfold mask.
    rewrite take_drop_fmap_seq.
    + unfold m, offset_of. by rewrite fmap_take.
    + apply sum_list_take_le. done.
  - apply (mask_boxlist_indicator (λ p, offset_of boxlists i + p ∈ sel) b Hb).
  - unfold len, restricted_to, positions_in. simpl.
    rewrite <- (mask_rows_indicator (λ p, offset_of boxlists i + p ∈ sel)).
    apply mask_rows_length. unfold m. by rewrite length_fmap, length_seq.
Qed.

(** C1.  Under the batch-wide training policy the objectness scores of
    all images are pooled image after image; the
    [min(fpn_post_nms_top_n, total)] best of the pool are selected, ties
    in pooled index order; every image keeps exactly its candidates whose
    pooled index was selected; and the output collections together hold
    [min(fpn_post_nms_top_n, total)] boxes, at most [fpn_post_nms_top_n]. *)
Theorem select_per_batch self boxlists :
  training self = true →
  fpn_post_nms_per_batch self = true →
  boxlists ≠ [] →
  Forall aligned boxlists →
  Forall (λ b, is_Some (extra_fields b !! "objectness")) boxlists →
  let scores := pooled boxlists in
  let k := fpn_post_nms_top_n self `min` length scores in
  ∃ sel out,
    top_k_selection scores k sel
    ∧ length sel = k
    ∧ select_over_all_levels self boxlists = Ok out
    ∧ length out = length boxlists
    ∧ (∀ i b, boxlists !! i = Some b →
         (∀ p, p < len b →
               scores !! (offset_of boxlists i + p) = objectness_of b !! p)
         ∧ out !! i
           = Some (restricted_to
                     (positions_in sel (offset_of boxlists i) (len b)) b))
    ∧ sum_list (len <$> out) = k
    ∧ sum_list (len <$> out) ≤ fpn_post_nms_top_n self.
Proof.
  intros Ht Hp Hne Ha Ho scores k.
  set (sel := (Torch.topk scores k).2).
  pose proof (topk_top_k_selection scores k) as Hsel. fold sel in Hsel.
  pose proof (pooled_length boxlists Ha Ho) as Hlen. fold scores in Hlen.
  assert (length sel = k) as Hk.
  { destruct Hsel as [Hl _]. rewrite Hl. unfold k. lia. }
  set (g i := restricted_to
                (positions_in sel (offset_of boxlists i) (len (boxlists !!! i)))
                (boxlists !!! i)).
  set (mask := (λ j, if bool_decide (j ∈ sel) then 1 else 0)
                 <$> seq 0 (sum_list (len <$> boxlists))).
  set (masks := Torch.split_go mask (len <$> boxlists)).
  assert (length mask = sum_list (len <$> boxlists)) as Hml.
  { unfold mask. by rewrite length_fmap, length_seq. }
  assert (sum_list (len <$> (g <$> seq 0 (length boxlists))) = k) as Hsum.
  { transitivity (sum_list ((λ l, length (filter (λ x, x ≠ 0) l)) <$> masks)).
    - f_equal. apply list_eq. intros i.
      rewrite !list_lookup_fmap.
      destruct (boxlists !! i) as [b|] eqn:Hi.
      + destruct (batch_mask_row boxlists sel i b Ha Hi) as (Hm & _ & Hc).
        fold mask in Hm. fold masks in Hm.
        rewrite lookup_seq_lt by (by eapply lookup_lt_Some). simpl.
        rewrite Hm. simpl. f_equal. unfold g.
        rewrite (list_lookup_total_correct _ _ _ Hi). exact Hc.
      + apply lookup_ge_None in Hi.
        rewrite (lookup_ge_None_2 (seq _ _)) by (by rewrite length_seq).
        rewrite (lookup_ge_None_2 masks); [done|].
        unfold masks. by rewrite split_go_length, length_fmap.
    - rewrite <- filter_mjoin_length. unfold masks.
      rewrite split_go_mjoin by done. unfold mask.
      rewrite indicator_count, <- Hlen.
      rewrite selected_count; [done|apply Hsel..]. }
  exists sel, (g <$> seq 0 (length boxlists)). split_and!; try done.
  - unfold select_over_all_levels. rewrite Ht, Hp. simpl andb. cbv iota.
    rewrite (for_each_ok _ objectness_of).
    2:{ intros b Hb. apply get_field_objectness.
        rewrite Forall_forall in Ho. by apply Ho. }
    cbn -[Torch.index_put Torch.topk Torch.split Torch.cat mjoin].
    rewrite cat_ok by (by destruct boxlists).
    cbn -[Torch.index_put Torch.topk Torch.split mjoin].
    fold (pooled boxlists). fold scores. fold k. fold sel.
    rewrite index_put_zeros, Hlen. fold mask.
    unfold Torch.split. rewrite bool_decide_eq_true_2 by done.
    cbn -[Torch.split_go].
    fold masks. apply for_each_seq_ok. intros i Hi.
    destruct (lookup_lt_is_Some_2 boxlists i Hi) as [b Hb].
    destruct (batch_mask_row boxlists sel i b Ha Hb) as (Hm & Hmb & _).
    fold mask in Hm. fold masks in Hm.
    rewrite (getitem_Some _ _ _ Hb), (getitem_Some _ _ _ Hm). cbn.
    unfold g. rewrite (list_lookup_total_correct _ _ _ Hb). exact Hmb.
  - by rewrite length_fmap, length_seq.
  - intros i b Hi. split.
    + intros p Hpb. by apply pooled_lookup.
    + rewrite list_lookup_fmap, lookup_seq_lt by (by eapply lookup_lt_Some).
      simpl. unfold g. by rewrite (list_lookup_total_correct _ _ _ Hi).
  - rewrite Hsum. unfold k. lia.
Qed.

Lemma samples_batch_aligned : Forall aligned Samples.batch.
Proof.
  repeat apply Forall_cons_2; [..|apply Forall_nil_2];
    intros f v Hv; cbn [extra_fields] in Hv;
    apply lookup_singleton_Some in Hv as [_ <-]; reflexivity.
Defined.

Lemma samples_batch_objectness :
  Forall (λ b, is_Some (extra_fields b !! "objectness")) Samples.batch.
Proof.
  repeat apply Forall_cons_2; [..|apply Forall_nil_2]; eexists; reflexivity.
Defined.

(** Two images of five candidates and a budget of six: six boxes survive
    in the whole batch. *)
Lemma select_per_batch_witness :
  ∃ out, select_over_all_levels Samples.trainer Samples.batch = Ok out
         ∧ sum_list (len <$> out) = 6.
Proof.
  destruct (select_per_batch Samples.trainer Samples.batch eq_refl eq_refl
              ltac:(discriminate) samples_batch_aligned samples_batch_objectness)
    as (sel & out & _ & _ & Hout & _ & _ & Hsum & _).
  exists out. split; [exact Hout|exact Hsum].
Defined.

Lemma select_per_image_witness :
  ∃ out, select_over_all_levels Samples.tester Samples.batch = Ok out
         ∧ length out = 2.
Proof.
  destruct (select_per_image Samples.tester Samples.batch eq_refl
              samples_batch_aligned samples_batch_objectness)
    as (out & Hout & Hlen & _).
  exists out. split; [exact Hout|exact Hlen].
Defined.

Lemma samples_level_rows :
  Forall (λ r : list Q, length r = 1 * 2 * 2) (objectness_logits Samples.level).
Proof. repeat apply Forall_cons_2; [..|apply Forall_nil_2]; reflexivity. Defined.

Lemma samples_level_regression :
  Forall (λ r : list row4, length r = 1 * 2 * 2) (box_regression Samples.level).
Proof. repeat apply Forall_cons_2; [..|apply Forall_nil_2]; reflexivity. Defined.

Lemma samples_anchors_rows :
  Forall (λ a, length (bbox a) = 1 * 2 * 2) Samples.anchors.
Proof. repeat apply Forall_cons_2; [..|apply Forall_nil_2]; reflexivity. Defined.

Lemma decode_gathers_by_the_top_k_indices_witness :
  ∃ deltas refs,
    gather_for_decode Samples.anchors Samples.level
      (snd <$> prefilter Samples.ext Samples.self Samples.level) = Ok (deltas, refs)
    ∧ length (decode Samples.ext (Torch.flatten deltas) (Torch.flatten refs)) = 2 * 3.
Proof.
  destruct (decode_gathers_by_the_top_k_indices Samples.ext Samples.self
              Samples.anchors Samples.level ltac:(discriminate)
              (conj samples_level_rows
                 (conj eq_refl
                    (conj samples_level_regression
                       (conj eq_refl samples_anchors_rows)))))
    as (deltas & refs & proposals & Hg & Hl & _).
  exists deltas, refs. split; [exact Hg|exact Hl].
Defined.

Example select_per_batch_sample :
  match select_over_all_levels Samples.trainer Samples.batch with
  | Ok out => objectness_of <$> out
  | Raise _ => []
  end = [[0.9; 0.8]; [0.95; 0.7; 0.6; 0.5]]%Q.
Proof. vm_compute. reflexivity. Qed.

Example select_per_image_sample :
  match select_over_all_levels Samples.tester Samples.batch with
  | Ok out => objectness_of <$> out
  | Raise _ => []
  end = [[0.9; 0.8; 0.3]; [0.95; 0.7; 0.6]]%Q.
Proof. vm_compute. reflexivity. Qed.

(** ** Ground-truth boxes *)

Lemma copy_without_fields t :
  copy_with_fields [] t = Ok (MkBoxList (bbox t) (size t) (mode t) ∅).
Proof.
  unfold copy_with_fields. rewrite bool_decide_eq_true_2 by constructor.
  do 2 f_equal. apply map_empty. intros f.
  apply map_lookup_filter_None. right. intros v _ Hin. simpl in Hin.
  by apply not_elem_of_nil in Hin.
Qed.

Lemma ground_truth_boxlist t :
  (gt_box ← copy_with_fields [] t;
   Ok (add_field "objectness" (replicate (len gt_box) 1%Q) gt_box))
  = Ok (MkBoxList (bbox t) (size t) (mode t)
          {["objectness" := replicate (len t) 1%Q]}).
Proof.
  rewrite copy_without_fields. cbn. unfold add_field. simpl.
  by rewrite insert_empty.
Qed.

Lemma cat_with_ground_truth p gt v :
  dom (extra_fields p) = {["objectness"]} →
  extra_fields gt = {["objectness" := v]} →
  cat_boxlist [p; gt]
  = Ok (MkBoxList (bbox p ++ bbox gt) (size p) (mode p)
          {["objectness" := objectness_of p ++ v]}).
Proof.
  intros Hd Hg. apply dom_singleton_inv_L in Hd as [s Hs].
  unfold cat_boxlist. rewrite bool_decide_eq_true_2.
  - f_equal. f_equal.
    + simpl. by rewrite app_nil_r.
    + unfold objectness_of. rewrite Hs, lookup_singleton_eq. cbn [default].
      apply map_eq. intros f. rewrite map_lookup_imap.
      destruct (decide (f = "objectness")) as [->|Hf].
      * rewrite !lookup_singleton_eq. cbn.
        rewrite Hs, Hg, !lookup_singleton_eq. cbn. by rewrite app_nil_r.
      * by rewrite !lookup_singleton_ne.
  - repeat apply Forall_cons_2; [done| |apply Forall_nil_2].
    rewrite Hs, Hg. by rewrite !dom_singleton_L.
Qed.

Lemma add_gt_proposals_ok proposals targets :
  proposals ≠ [] →
  length targets = length proposals →
  Forall (λ p, dom (extra_fields p) = {["objectness"]}) proposals →
  add_gt_proposals proposals targets
  = Ok (zip_with
          (λ p t, MkBoxList (bbox p ++ bbox t) (size p) (mode p)
                    {["objectness" := objectness_of p ++ replicate (len t) 1%Q]})
          proposals targets).
Proof.
  intros Hne Hlen Hd. unfold add_gt_proposals.
  assert (∃ p0, proposals !! 0 = Some p0) as [p0 H0]
    by (destruct proposals; [done|by eexists]).
  rewrite (getitem_Some proposals 0 p0) by done. cbn -[cat_boxlist].
  rewrite (for_each_ok _ (λ t, MkBoxList (bbox t) (size t) (mode t) ∅))
    by (intros t _; apply copy_without_fields).
  cbn -[cat_boxlist]. rewrite <- list_fmap_compose.
  set (G := (λ gt_box, add_field "objectness" (replicate (len gt_box) 1%Q) gt_box)
            ∘ (λ t, MkBoxList (bbox t) (size t) (mode t) ∅)).
  rewrite (for_each_ok _
             (λ pg, MkBoxList (bbox pg.1 ++ bbox pg.2) (size pg.1) (mode pg.1)
                      {["objectness" := objectness_of pg.1 ++ replicate (len pg.2) 1%Q]})).
  - f_equal. clear Hne p0 H0.
    revert targets Hlen. induction Hd as [|p ps Hp _ IH]; intros [|t ts] Hlen; try done.
    simpl in Hlen. injection Hlen as Hlen.
    cbn [fmap list_fmap zip zip_with fst snd]. f_equal. by apply IH.
  - intros [p gt] Hin. cbn [fst snd].
    apply list_elem_of_lookup in Hin as [i Hi].
    apply lookup_zip_with_Some in Hi as (p' & gt' & Heq & Hp & Hgt). simplify_eq.
    apply list_lookup_fmap_Some in Hgt as (t & -> & Ht).
    apply cat_with_ground_truth.
    + rewrite Forall_lookup in Hd. by apply (Hd i).
    + unfold G, add_field. simpl. by rewrite insert_empty.
Qed.

(** ** Paths and the files of the saver *)

Lemma has_slash_app a b : has_slash (a +:+ b) = has_slash a || has_slash b.
Proof.
  induction a as [|c a IH]; [done|]. simpl. by rewrite IH, orb_assoc.
Qed.

Lemma has_slash_pretty_N_go x s :
  has_slash s = false → has_slash (pretty_N_go x s) = false.
Proof.
  revert s. induction (N.lt_wf_0 x) as [x _ IH]; intros s Hs.
  assert (x = 0 ∨ 0 < x)%N as [->|Hx] by lia.
  - by rewrite pretty_N_go_0.
  - rewrite pretty_N_go_step by done. apply IH.
    { by apply N.div_lt. }
    simpl. rewrite Hs. unfold pretty_N_char. by repeat case_match.
Qed.

Lemma has_slash_pretty_nat (n : nat) : has_slash (pretty n) = false.
Proof.
  unfold pretty, pretty_nat, pretty, pretty_N. case_decide; [done|].
  by apply has_slash_pretty_N_go.
Qed.

Lemma has_slash_shape_str shape : has_slash (shape_str shape) = false.
Proof.
  destruct shape as [|n [|m ns]].
  - done.
  - unfold shape_str. by rewrite !has_slash_app, has_slash_pretty_nat.
  - unfold shape_str. rewrite !has_slash_app.
    cut (has_slash (foldl (λ acc (k : nat), acc +:+ ", " +:+ pretty k)
                      (pretty n) (m :: ns))
         = false); [by intros ->|].
    assert (∀ (l : list nat) acc, has_slash acc = false →
              has_slash (foldl (λ acc (k : nat), acc +:+ ", " +:+ pretty k) acc l)
              = false)
      as Hfold.
    { induction l as [|k l IH]; intros acc Hacc; [done|]. simpl. apply IH.
      by rewrite !has_slash_app, Hacc, has_slash_pretty_nat. }
    apply Hfold, has_slash_pretty_nat.
Qed.

Lemma has_slash_file_name tensor_name shape :
  has_slash tensor_name = false → has_slash (file_name tensor_name shape) = false.
Proof.
  intros H. unfold file_name. by rewrite !has_slash_app, H, has_slash_shape_str.
Qed.

Lemma starts_with_slash_has_slash s : has_slash s = false → starts_with_slash s = false.
Proof. destruct s as [|c s]; [done|]. simpl. by intros [? _]%orb_false_elim. Qed.

Lemma head_of_no_slash f : has_slash f = false → head_of f = "".
Proof. destruct f as [|c f]; [done|]. simpl. by intros ->. Qed.

Lemma ends_with_slash_has_slash d : ends_with_slash d = true → has_slash d = true.
Proof.
  induction d as [|c d IH]; [done|]. simpl. destruct d as [|c' d].
  - intros ->. done.
  - intros H. rewrite (IH H). apply orb_true_r.
Qed.

Lemma head_of_app d f :
  ends_with_slash d = true → has_slash f = false → head_of (d +:+ f) = d.
Proof.
  intros Hd Hf. induction d as [|c d IH]; [done|].
  change (String c d +:+ f) with (String c (d +:+ f)). cbn [head_of].
  assert (has_slash (String c (d +:+ f)) = true) as ->.
  { change (String c (d +:+ f)) with (String c d +:+ f).
    by rewrite has_slash_app, (ends_with_slash_has_slash _ Hd). }
  f_equal. destruct d as [|c' d].
  - simpl. by apply head_of_no_slash.
  - by apply IH.
Qed.

Lemma ends_with_slash_snoc d : ends_with_slash (d +:+ "/") = true.
Proof.
  induction d as [|c d IH]; [done|].
  change (String c d +:+ "/") with (String c (d +:+ "/")).
  destruct d as [|c' d]; [done|]. exact IH.
Qed.

Lemma all_slashes_app a b : all_slashes (a +:+ b) = all_slashes a && all_slashes b.
Proof.
  induction a as [|c a IH]; [done|]. simpl. by rewrite IH, andb_assoc.
Qed.

Lemma all_slashes_rstrip s : all_slashes (rstrip s) = all_slashes s.
Proof.
  induction s as [|c s IH]; [done|]. cbn [rstrip].
  destruct (all_slashes (String c s)) eqn:Hall; [done|].
  cbn [all_slashes] in *. by rewrite IH.
Qed.

Lemma rstrip_idemp s : rstrip (rstrip s) = rstrip s.
Proof.
  induction s as [|c s IH]; [done|]. cbn [rstrip].
  destruct (all_slashes (String c s)) eqn:Hall; [done|].
  cbn [rstrip]. cbn [all_slashes] in *. by rewrite all_slashes_rstrip, Hall, IH.
Qed.

Lemma rstrip_snoc d : rstrip (d +:+ "/") = rstrip d.
Proof.
  induction d as [|c d IH]; [done|].
  change (String c d +:+ "/") with (String c (d +:+ "/")). cbn [rstrip all_slashes].
  rewrite all_slashes_app, IH. simpl. by rewrite andb_true_r.
Qed.

Lemma path_join_snoc d f :
  d +:+ "/" +:+ f = (d +:+ "/") +:+ f.
Proof. induction d as [|c d IH]; [done|]. exact (f_equal (String c) IH). Qed.

(** A file name without a slash lands in the directory that was just
    made. *)
Lemma write_in_save_dir d f made :
  has_slash f = false → dir_exists (d :: made) (dirname (path_join d f)) = true.
Proof.
  intros Hf.
  assert (∀ d', ends_with_slash d' = true → rstrip d' = rstrip d →
                dir_exists (d :: made) (dirname (d' +:+ f)) = true) as Hin.
  { intros d' Hd' Hr. unfold dirname. rewrite (head_of_app d' f Hd' Hf).
    unfold dir_exists. destruct (all_slashes d') eqn:Hall.
    - rewrite Hall. by rewrite orb_true_r.
    - cbn [existsb]. rewrite rstrip_idemp, Hr.
      rewrite (bool_decide_eq_true_2 (rstrip d = rstrip d)) by done.
      by rewrite !orb_true_r. }
  unfold path_join. rewrite (starts_with_slash_has_slash f Hf).
  case_bool_decide as Hd; cbn [orb].
  - subst d. change ("" +:+ f) with f. unfold dirname.
    by rewrite (head_of_no_slash f Hf).
  - destruct (ends_with_slash d) eqn:He.
    + by apply Hin.
    + rewrite path_join_snoc. apply Hin; [apply ends_with_slash_snoc|apply rstrip_snoc].
Qed.

Lemma save_ok self t tensor_name scope w :
  has_slash tensor_name = false →
  save self t tensor_name scope false w
  = (Ok (), World (tensor_saver w)
              (Dump (save_dir self scope) tensor_name (tensor_size t) t :: disk w)
              (hooks w)).
Proof.
  intros Hn. unfold save. cbv zeta. unfold save_path. cbn [d_dir d_name d_shape].
  by rewrite write_in_save_dir by (by apply has_slash_file_name).
Qed.

Lemma has_slash_numbered a (i : nat) :
  has_slash a = false → has_slash (a +:+ pretty i) = false.
Proof. intros Ha. by rewrite has_slash_app, Ha, has_slash_pretty_nat. Qed.

Lemma has_slash_numbered2 a (i : nat) b (j : nat) :
  has_slash a = false → has_slash b = false →
  has_slash (a +:+ pretty i +:+ b +:+ pretty j) = false.
Proof.
  intros Ha Hb. by rewrite !has_slash_app, Ha, Hb, !has_slash_pretty_nat.
Qed.

Lemma dump_by_keyword_run t tensor_name scope w s :
  has_slash tensor_name = false →
  tensor_saver w = Some s →
  dump_by_keyword t tensor_name scope w
  = (Ok (), World (Some s)
              (Dump (save_dir s (Some scope)) tensor_name (tensor_size t) t :: disk w)
              (hooks w)).
Proof.
  intros Hn Hs. unfold dump_by_keyword, mbind, M_mbind, bind, get_tensor_saver.
  rewrite Hs. unfold call. change (binds save_sig by_keyword) with true.
  cbv iota. by rewrite save_ok, Hs.
Qed.

Lemma for_each_M_run {A} (f : A → M unit) (l : list A) s w :
  (∀ a w, tensor_saver w = Some s →
          ∃ w', f a w = (Ok (), w') ∧ tensor_saver w' = Some s) →
  tensor_saver w = Some s →
  ∃ w', for_each_M f l w = (Ok (replicate (length l) ()), w')
        ∧ tensor_saver w' = Some s.
Proof.
  intros Hf. revert w. induction l as [|a l IH]; intros w Hw.
  { exists w. done. }
  destruct (Hf a w Hw) as (w1 & H1 & Hw1).
  destruct (IH w1 Hw1) as (w2 & H2 & Hw2).
  exists w2. split; [|done].
  cbn [for_each_M]. unfold bind at 1. rewrite H1.
  unfold bind at 1. rewrite H2. done.
Qed.

Lemma dump_final_proposals_run boxlists s w :
  tensor_saver w = Some s →
  ∃ w', dump_final_proposals boxlists w
        = (Ok (replicate (length (enumerate boxlists)) ()), w')
        ∧ tensor_saver w' = Some s.
Proof.
  intros Hw. apply for_each_M_run; [|done].
  intros ib w0 Hw0. eexists.
  split; [by apply dump_by_keyword_run; [apply has_slash_numbered|]|done].
Qed.

(** Lines 187-205 on their own, once the levels have been merged: a
    ground-truth collection carries the target's boxes with an
    objectness of 1.0 and no other field; in training, with targets,
    every image gets its selected proposals followed by its ground-truth
    boxes, the objectness values following in the same order; without the
    training flag, or without targets, the selected proposals are passed
    on alone. *)
Theorem ground_truth_appended_in_training_only
    self num_levels sampled_boxes selected s w :
  merge_levels self num_levels sampled_boxes = Ok selected →
  tensor_saver w = Some s →
  (∀ t, (gt_box ← copy_with_fields [] t;
         Ok (add_field "objectness" (replicate (len gt_box) 1%Q) gt_box))
        = Ok (MkBoxList (bbox t) (size t) (mode t)
                {["objectness" := replicate (len t) 1%Q]}))
  ∧ (∀ targets,
       training self = true →
       selected ≠ [] →
       length targets = length selected →
       Forall (λ p, dom (extra_fields p) = {["objectness"]}) selected →
       ∃ out w',
         add_gt_proposals selected targets = Ok out
         ∧ forward_after_levels self num_levels sampled_boxes (Some targets) w
           = (Ok out, w')
         ∧ length out = length selected
         ∧ ∀ i p t, selected !! i = Some p → targets !! i = Some t →
             out !! i
             = Some (MkBoxList (bbox p ++ bbox t) (size p) (mode p)
                       {["objectness" :=
                           objectness_of p ++ replicate (len t) 1%Q]}))
  ∧ (∀ targets,
       training self = false ∨ targets = None →
       ∃ w', forward_after_levels self num_levels sampled_boxes targets w
             = (Ok selected, w')).
Proof.
  intros Hm Hw. split_and!.
  - apply ground_truth_boxlist.
  - intros targets Ht Hne Hlen Hd.
    pose proof (add_gt_proposals_ok selected targets Hne Hlen Hd) as Hgt.
    eexists. 
    destruct (dump_final_proposals_run
                (zip_with
                   (λ p t, MkBoxList (bbox p ++ bbox t) (size p) (mode p)
                             {["objectness" :=
                                 objectness_of p ++ replicate (len t) 1%Q]})
                   selected targets) s w Hw) as (w' & Hrun & _).
    exists w'. split_and!; [exact Hgt| | |].
    + unfold forward_after_levels, mbind, M_mbind, bind, lift. rewrite Hm, Ht, Hgt, Hrun.
      done.
    + rewrite length_zip_with. lia.
    + intros i p t Hp Htg. rewrite lookup_zip_with, Hp, Htg. done.
  - intros targets Hcase.
    destruct (dump_final_proposals_run selected s w Hw) as (w' & Hrun & _).
    exists w'. unfold forward_after_levels, mbind, M_mbind, bind, lift. rewrite Hm.
    destruct Hcase as [Ht| ->].
    + rewrite Ht. destruct targets; cbn; by rewrite Hrun.
    + cbn. by rewrite Hrun.
Qed.

Lemma samples_batch_dom :
  Forall (λ p, dom (extra_fields p) = {["objectness"]}) Samples.batch.
Proof.
  repeat apply Forall_cons_2; [..|apply Forall_nil_2];
    cbn [extra_fields]; apply dom_singleton_L.
Defined.

(** One level, two images: each keeps its five proposals and receives its
    ground truth. *)
Lemma ground_truth_appended_in_training_only_witness :
  ∃ out w',
    forward_after_levels Samples.trainer 1 [Samples.batch] (Some Samples.targets)
      Samples.saver_ready = (Ok out, w')
    ∧ length out = 2.
Proof.
  destruct (ground_truth_appended_in_training_only Samples.trainer 1
              [Samples.batch] Samples.batch (Build "train_dump" 0)
              Samples.saver_ready)
    as (_ & Htrain & _).
  - vm_compute. reflexivity.
  - reflexivity.
  - destruct (Htrain Samples.targets eq_refl ltac:(discriminate) eq_refl
                samples_batch_dom) as (out & w' & _ & Hrun & Hlen & _).
    exists out, w'. split; [exact Hrun|exact Hlen].
Defined.

Example ground_truth_sample :
  match add_gt_proposals Samples.batch Samples.targets with
  | Ok out => (λ b, (length (bbox b), objectness_of b)) <$> out
  | Raise _ => []
  end
  = [(6, [0.9; 0.8; 0.3; 0.2; 0.1; 1]%Q);
     (7, [0.95; 0.7; 0.6; 0.5; 0.05; 1; 1]%Q)].
Proof. vm_compute. reflexivity. Qed.

(** ** Merging the gathered predictions *)

Lemma elem_of_sorted_keys {P} (m : gmap nat P) i :
  i ∈ sorted_keys m ↔ i ∈ dom m.
Proof.
  unfold sorted_keys. rewrite merge_sort_Permutation. apply elem_of_elements.
Qed.

Lemma sorted_keys_NoDup {P} (m : gmap nat P) : NoDup (sorted_keys m).
Proof.
  unfold sorted_keys. rewrite merge_sort_Permutation. apply NoDup_elements.
Qed.

Lemma sorted_keys_sorted {P} (m : gmap nat P) : StronglySorted le (sorted_keys m).
Proof. apply StronglySorted_merge_sort; apply _. Qed.

Lemma sorted_NoDup_strict (l : list nat) :
  StronglySorted le l → NoDup l → StronglySorted lt l.
Proof.
  induction 1 as [|x l Hs IH Hx]; intros Hnd; [constructor|].
  apply NoDup_cons in Hnd as [Hnx Hnd]. constructor; [by apply IH|].
  rewrite Forall_forall in Hx. apply Forall_forall. intros y Hy.
  specialize (Hx y Hy). assert (x ≠ y) by (by intros ->). lia.
Qed.

Lemma sorted_last_max (l : list nat) x y :
  StronglySorted le l → last l = Some x → y ∈ l → y ≤ x.
Proof.
  intros Hs Hl Hy. apply last_Some in Hl as [l' ->].
  apply elem_of_app in Hy as [Hy|Hy].
  - eapply StronglySorted_app_1_elem_of; [done..|]. by left.
  - apply list_elem_of_singleton in Hy as ->. done.
Qed.

(** A duplicate-free list of [n] indices below [n] lists all of them. *)
Lemma contiguous_keys {P} (m : gmap nat P) last_id :
  last (sorted_keys m) = Some last_id →
  length (sorted_keys m) = last_id + 1 →
  dom m = set_seq 0 (last_id + 1).
Proof.
  intros Hlast Hlen.
  assert (sorted_keys m ≡ₚ seq 0 (last_id + 1)) as Hperm.
  { apply submseteq_length_Permutation.
    - apply NoDup_submseteq; [apply sorted_keys_NoDup|].
      intros i Hi. apply elem_of_seq.
      pose proof (sorted_last_max _ _ _ (sorted_keys_sorted m) Hlast Hi). lia.
    - rewrite length_seq. lia. }
  apply set_eq. intros i.
  rewrite <- elem_of_sorted_keys, Hperm, elem_of_seq, elem_of_set_seq. done.
Qed.

Lemma for_each_total {A B} (f : A → result B) (l : list A) :
  (∀ a, a ∈ l → ∃ b, f a = Ok b) →
  ∃ bs, for_each f l = Ok bs ∧ Forall2 (λ a b, f a = Ok b) l bs.
Proof.
  induction l as [|a l IH]; intros H.
  { exists []. split; [done|constructor]. }
  destruct (H a) as [b Hb]; [by left|].
  destruct IH as (bs & Hbs & HF); [intros a' Ha'; apply H; by right|].
  exists (b :: bs). split; [|by constructor].
  simpl. by rewrite Hb, Hbs.
Qed.

Lemma merged_dom {P} (m : gmap nat P) (ps : list (gmap nat P)) i :
  i ∈ dom (foldl update m ps) ↔ i ∈ dom m ∨ ∃ p, p ∈ ps ∧ i ∈ dom p.
Proof.
  revert m. induction ps as [|p ps IH]; intros m.
  { simpl. split; [by left|]. intros [?|(p & Hp & _)]; [done|].
    by apply not_elem_of_nil in Hp. }
  cbn [foldl]. rewrite IH. unfold update. rewrite dom_union_L, elem_of_union.
  split.
  - intros [[H|H]|(q & Hq & H)].
    + right. exists p. split; [by left|done].
    + by left.
    + right. exists q. split; [by right|done].
  - intros [H|(q & Hq & H)].
    + left. by right.
    + apply elem_of_cons in Hq as [->|Hq].
      * left. by left.
      * right. by exists q.
Qed.

Lemma merged_lookup {P} (m : gmap nat P) (ps : list (gmap nat P)) i v :
  foldl update m ps !! i = Some v →
  m !! i = Some v ∨ ∃ p, p ∈ ps ∧ p !! i = Some v.
Proof.
  revert m. induction ps as [|p ps IH]; intros m H; [by left|].
  cbn [foldl] in H. apply IH in H as [H|(q & Hq & H)].
  - unfold update in H. apply lookup_union_Some_raw in H as [H|[_ H]].
    + right. exists p. split; [by left|done].
    + by left.
  - right. exists q. split; [by right|done].
Qed.

(** C7.  A process other than the main one returns nothing once the
    gather is done.  On the main process, when the gathered image ids are
    not the range [0, n) for any [n], the function logs the warning once
    and still returns, without raising, the gathered predictions in
    ascending order of image id: one per gathered id, each taken from one
    of the gathered dictionaries. *)
Theorem non_contiguous_ids_warn_and_proceed {P} (all_predictions : list (gmap nat P)) :
  let predictions := foldl update ∅ all_predictions in
  let image_ids := sorted_keys predictions in
  accumulate_predictions_from_multiple_gpus false all_predictions = ([], Ok None)
  ∧ ((∀ n, dom predictions ≠ set_seq 0 n) →
     ∃ merged,
       accumulate_predictions_from_multiple_gpus true all_predictions
       = ([not_contiguous_warning], Ok (Some merged))
       ∧ StronglySorted lt image_ids
       ∧ (∀ i, i ∈ image_ids ↔ ∃ p, p ∈ all_predictions ∧ i ∈ dom p)
       ∧ Forall2 (λ i v, predictions !! i = Some v
                         ∧ ∃ p, p ∈ all_predictions ∧ p !! i = Some v)
                 image_ids merged).
Proof.
  intros predictions image_ids. split; [done|]. intros Hnc.
  destruct (last image_ids) as [last_id|] eqn:Hlast.
  2:{ exfalso. apply (Hnc 0). apply set_eq. intros i.
      rewrite <- elem_of_sorted_keys. fold image_ids.
      apply last_None in Hlast. rewrite Hlast, elem_of_set_seq.
      split; [by intros ?%not_elem_of_nil|lia]. }
  assert (length image_ids ≠ last_id + 1) as Hlen.
  { intros Hlen. apply (Hnc (last_id + 1)). by apply contiguous_keys. }
  destruct (for_each_total
              (λ i, match predictions !! i with
                    | Some p => Ok p
                    | None => Raise KeyError
                    end) image_ids) as (merged & Hrun & HF).
  { intros i Hi. apply elem_of_sorted_keys, elem_of_dom in Hi as [v Hv].
    exists v. by rewrite Hv. }
  exists merged. split_and!.
  - unfold accumulate_predictions_from_multiple_gpus. cbn [negb].
    fold predictions. fold image_ids. rewrite Hlast.
    rewrite bool_decide_eq_true_2 by done. by rewrite Hrun.
  - apply sorted_NoDup_strict; [apply sorted_keys_sorted|apply sorted_keys_NoDup].
  - intros i. unfold image_ids. rewrite elem_of_sorted_keys.
    unfold predictions. rewrite merged_dom, dom_empty_L.
    split; [|by right]. intros [Hi|Hi]; [|done]. by apply not_elem_of_empty in Hi.
  - eapply Forall2_impl; [exact HF|]. intros i v Hv. simpl in Hv.
    destruct (predictions !! i) as [v'|] eqn:Hi; [|done]. simplify_eq.
    split; [done|]. unfold predictions in Hi.
    apply merged_lookup in Hi as [Hi|Hi]; [by rewrite lookup_empty in Hi|done].
Qed.

(** Image 2 is missing: the two gathered predictions come back, with a
    warning. *)
Lemma non_contiguous_ids_warn_and_proceed_witness :
  ∃ merged,
    accumulate_predictions_from_multiple_gpus true
      [({[0 := "a"]} : gmap nat string); {[3 := "b"]}]
    = ([not_contiguous_warning], Ok (Some merged)).
Proof.
  destruct (proj2 (non_contiguous_ids_warn_and_proceed
                     [({[0 := "a"]} : gmap nat string); {[3 := "b"]}]))
    as (merged & Hrun & _).
  - intros n Hn.
    assert (3 ∈ (set_seq 0 n : gset nat)) as H3 by (rewrite <- Hn; compute_done).
    assert (1 ∉ (set_seq 0 n : gset nat)) as H1 by (rewrite <- Hn; compute_done).
    rewrite elem_of_set_seq in H3. rewrite elem_of_set_seq in H1. lia.
  - exists merged. exact Hrun.
Defined.

Example accumulate_sample :
  accumulate_predictions_from_multiple_gpus true
    [({[0 := "a"; 3 := "b"]} : gmap nat string); {[1 := "c"; 3 := "d"]}]
  = ([not_contiguous_warning], Ok (Some ["a"; "c"; "d"])).
Proof. vm_compute. reflexivity. Qed.

(** ** Running the per-level decoder *)

Lemma bind_ok {A B} (m : M A) (f : A → M B) w a w' :
  m w = (Ok a, w') → (m ≫= f) w = f a w'.
Proof. intros H. unfold mbind, M_mbind, bind. by rewrite H. Qed.

Lemma bind_raise {A B} (m : M A) (f : A → M B) w e w' :
  m w = (Raise e, w') → (m ≫= f) w = (Raise e, w').
Proof. intros H. unfold mbind, M_mbind, bind. by rewrite H. Qed.

Lemma dump_topk_row_run topk_idx i level row s w :
  tensor_saver w = Some s → topk_idx !! i = Some row →
  dump_topk_row topk_idx i level w
  = (Ok (), World (Some s)
              (Dump (save_dir s (Some "rpn"))
                 ("topk_idx_img_" +:+ pretty i +:+ "_layer_" +:+ pretty level)
                 [length row] (LongVec row) :: disk w)
              (hooks w)).
Proof.
  intros Hs Hi. unfold dump_topk_row, mbind, M_mbind, bind, get_tensor_saver, lift.
  rewrite Hs, (getitem_Some _ _ _ Hi). unfold call.
  change (binds save_sig by_keyword) with true.
  cbv iota. rewrite save_ok by (by apply has_slash_numbered2). by rewrite Hs.
Qed.

Lemma dump_topk_row_out_of_range topk_idx i level s w :
  tensor_saver w = Some s → topk_idx !! i = None →
  dump_topk_row topk_idx i level w = (Raise IndexError, w).
Proof.
  intros Hs Hi. unfold dump_topk_row, mbind, M_mbind, bind, get_tensor_saver, lift.
  rewrite Hs. unfold getitem. by rewrite Hi.
Qed.

Lemma dump_with_level_and_image_raises t tensor_name s w :
  tensor_saver w = Some s →
  dump_with_level_and_image t tensor_name w = (Raise TypeError, w).
Proof.
  intros Hs. unfold dump_with_level_and_image, mbind, M_mbind, bind, get_tensor_saver.
  by rewrite Hs.
Qed.

Lemma image_boxlist_ok self proposal score im_shape :
  length score = length proposal →
  ∃ b, image_boxlist self proposal score im_shape = Ok b.
Proof.
  intros Hlen. unfold image_boxlist, remove_small_boxes.
  eexists. apply (index_boxlist_one_field _ "objectness" score).
  - unfold add_field, clip_to_image. simpl. by rewrite insert_empty.
  - apply nonzero_in_range. by rewrite length_fmap.
  - apply nonzero_in_range. rewrite length_fmap. unfold clip_to_image. simpl.
    by rewrite length_fmap.
Qed.

Lemma single_image_run ext self anchors x level s w :
  tensor_saver w = Some s →
  length (objectness_logits x) = 1 →
  0 < shape_A x * shape_H x * shape_W x →
  ∃ idx0,
    (snd <$> prefilter ext self x) !! 0 = Some idx0
    ∧ forward_for_single_feature_map ext self anchors x level w
      = (Raise IndexError,
         World (Some s)
           (Dump (save_dir s (Some "rpn"))
              ("topk_idx_img_" +:+ pretty 0 +:+ "_layer_" +:+ pretty level)
              [length idx0] (LongVec idx0) :: disk w)
           (hooks w)).
Proof.
  intros Hs HN Hnum.
  assert (length (snd <$> prefilter ext self x) = 1) as Hl
    by (by rewrite length_fmap, prefilter_length).
  destruct (snd <$> prefilter ext self x) as [|idx0 [|]] eqn:Hidx; try done.
  exists idx0. split; [done|].
  unfold forward_for_single_feature_map. rewrite HN.
  rewrite bool_decide_eq_false_2 by lia.
  erewrite bind_ok by reflexivity. cbv zeta. rewrite Hidx.
  erewrite bind_ok by (by apply dump_topk_row_run).
  erewrite bind_raise; [done|]. by eapply dump_topk_row_out_of_range.
Qed.

Lemma prefilter_scores ext self x :
  let num_anchors := shape_A x * shape_H x * shape_W x in
  Forall (λ r, length r = num_anchors) (objectness_logits x) →
  Forall (λ sc, length sc = pre_nms_top_n self `min` num_anchors)
         (fst <$> prefilter ext self x).
Proof.
  intros num_anchors H. unfold prefilter.
  rewrite Forall_fmap. rewrite Forall_fmap. rewrite Forall_fmap.
  eapply Forall_impl; [exact H|]. intros logits Hlen. unfold compose.
  set (scores := sigmoid ext <$> logits).
  assert (length scores = num_anchors) as Hs by (unfold scores; by rewrite length_fmap).
  fold num_anchors.
  set (k := pre_nms_top_n self `min` num_anchors).
  destruct (topk_top_k_selection scores k) as (Hl & _ & Hr & _).
  rewrite topk_values, gather_length.
  - etrans; [apply Hl|]. unfold k. lia.
  - apply Forall_forall. intros i Hi. by apply Hr.
Qed.

Lemma decode_rows_lengths ext (k : nat) (deltas refs : list (list row4)) :
  Forall (λ r, length r = k) deltas → Forall (λ r, length r = k) refs →
  Forall (λ r, length r = k) (zip_with (zip_with (decode_row ext)) deltas refs).
Proof.
  intros Hd. revert refs. induction Hd as [|d ds Hd _ IH]; intros [|r rs] Hr;
    try constructor.
  - apply Forall_cons in Hr as [Hr _]. rewrite length_zip_with. lia.
  - apply Forall_cons in Hr as [_ Hr]. by apply IH.
Qed.

(** With two images or more, a created saver and well-formed input the
    decoder gets through its dumps to the loop of lines 150-166, which
    runs over the decoded proposals, the scores of the pre-filter and the
    image sizes of the anchors. *)
Lemma decoder_reaches_the_loop ext self anchors x level s w :
  tensor_saver w = Some s →
  well_formed_level anchors x →
  2 ≤ length (objectness_logits x) →
  0 < shape_A x * shape_H x * shape_W x →
  let idxs := snd <$> prefilter ext self x in
  let deltas := zip_with gather (box_regression x) idxs in
  let refs := zip_with gather (bbox <$> anchors) idxs in
  let proposals := zip_with (zip_with (decode_row ext)) deltas refs in
  ∃ w1,
    tensor_saver w1 = Some s
    ∧ forward_for_single_feature_map ext self anchors x level w
      = for_each_M (process_image ext self level)
          (enumerate (zip3 proposals (fst <$> prefilter ext self x) (size <$> anchors)))
          w1
    ∧ length proposals = length (objectness_logits x)
    ∧ Forall (λ r, length r = pre_nms_top_n self
                              `min` (shape_A x * shape_H x * shape_W x)) proposals
    ∧ Forall (λ sc, length sc = pre_nms_top_n self
                                `min` (shape_A x * shape_H x * shape_W x))
             (fst <$> prefilter ext self x).
Proof.
  intros Hs (Hobj & Hreg & Hregs & Hanc & Hancs) HN Hnum.
  cbv zeta.
  set (N := length (objectness_logits x)) in *.
  set (num_anchors := shape_A x * shape_H x * shape_W x) in *.
  set (k := pre_nms_top_n self `min` num_anchors).
  set (idxs := snd <$> prefilter ext self x).
  pose proof (prefilter_indices ext self x Hobj) as Hidx. fold idxs num_anchors k in Hidx.
  pose proof (prefilter_scores ext self x Hobj) as Hsc. fold num_anchors k in Hsc.
  assert (length idxs = N) as Hlen.
  { unfold idxs. by rewrite length_fmap, prefilter_length. }
  assert (Forall (Forall (λ i, i < num_anchors)) idxs) as Hin.
  { eapply Forall_impl; [exact Hidx|]. by intros idx [? _]. }
  assert (Forall (λ idx, length idx = k) idxs) as Hk.
  { eapply Forall_impl; [exact Hidx|]. by intros idx [_ ?]. }
  set (deltas := zip_with gather (box_regression x) idxs).
  set (refs := zip_with gather (bbox <$> anchors) idxs).
  assert (Forall2 in_range (box_regression x) idxs) as H1.
  { apply (Forall2_in_range num_anchors); [congruence|done..]. }
  assert (Forall2 in_range (bbox <$> anchors) idxs) as H2.
  { apply (Forall2_in_range num_anchors); [by rewrite length_fmap; congruence| |done].
    by apply Forall_fmap. }
  assert (Forall (λ r, length r = k) deltas) as Hdk
    by (by apply (zip_with_gather_lengths num_anchors)).
  assert (Forall (λ r, length r = k) refs) as Hrk
    by (by apply (zip_with_gather_lengths num_anchors)).
  assert (length deltas = N) as Hdl.
  { unfold deltas. rewrite length_zip_with. lia. }
  assert (length refs = N) as Hrl.
  { unfold refs. rewrite length_zip_with, length_fmap. lia. }
  set (proposals := zip_with (zip_with (decode_row ext)) deltas refs).
  assert (Torch.reshape N (decode ext (Torch.flatten deltas) (Torch.flatten refs))
          = Ok proposals) as Hresh.
  { rewrite <- Hdl. apply (decode_reshape_ok ext k); [|congruence|done..].
    destruct deltas; simpl in *; [lia|done]. }
  destruct (lookup_lt_is_Some_2 idxs 0 ltac:(lia)) as [row0 Hrow0].
  destruct (lookup_lt_is_Some_2 idxs 1 ltac:(lia)) as [row1 Hrow1].
  assert (∃ w1,
            forward_for_single_feature_map ext self anchors x level w
            = for_each_M (process_image ext self level)
                (enumerate
                   (zip3 proposals (fst <$> prefilter ext self x) (size <$> anchors)))
                w1
            ∧ tensor_saver w1 = Some s) as (w1 & Hrun & Hw1).
  { unfold forward_for_single_feature_map. fold N num_anchors.
    rewrite bool_decide_eq_false_2 by (intros [?|?]%Nat.eq_mul_0; lia).
    erewrite bind_ok by reflexivity. cbv zeta. fold idxs.
    erewrite bind_ok by (by apply dump_topk_row_run).
    erewrite bind_ok by (by apply dump_topk_row_run).
    erewrite bind_ok.
    2:{ unfold lift.
        rewrite (gather_for_decode_ok anchors x idxs ltac:(fold N; lia)
                   Hreg Hregs Hanc Hancs Hlen Hin).
        fold deltas refs. reflexivity. }
    cbv beta iota.
    erewrite bind_ok by (by apply dump_by_keyword_run).
    erewrite bind_ok by (by apply dump_by_keyword_run).
    erewrite bind_ok by (by apply dump_by_keyword_run).
    erewrite bind_ok by (unfold lift; rewrite Hresh; reflexivity).
    match goal with
    | |- context [for_each_M ?f (enumerate proposals) ≫= _] =>
        destruct (for_each_M_run f (enumerate proposals) s
                    (World (Some s)
                       (Dump (save_dir s (Some "rpn/box_decode")) "boxes"
                          (tensor_size (FloatRows (decode ext (Torch.flatten deltas)
                                                     (Torch.flatten refs))))
                          (FloatRows (decode ext (Torch.flatten deltas)
                                        (Torch.flatten refs)))
                        :: Dump (save_dir s (Some "rpn/box_decode")) "boxes_delta"
                             (tensor_size (FloatRows (Torch.flatten deltas)))
                             (FloatRows (Torch.flatten deltas))
                        :: Dump (save_dir s (Some "rpn/box_decode")) "ref_boxes"
                             (tensor_size (FloatRows (Torch.flatten refs)))
                             (FloatRows (Torch.flatten refs))
                        :: Dump (save_dir s (Some "rpn"))
                             ("topk_idx_img_" +:+ pretty 1 +:+ "_layer_" +:+ pretty level)
                             [length row1] (LongVec row1)
                        :: Dump (save_dir s (Some "rpn"))
                             ("topk_idx_img_" +:+ pretty 0 +:+ "_layer_" +:+ pretty level)
                             [length row0] (LongVec row0)
                        :: disk w)
                       (hooks w)))
          as (w1 & Hloop & Hw1)
    end.
    { intros ip w0 Hw0. eexists.
      split; [by apply dump_by_keyword_run; [apply has_slash_numbered2|]|done]. }
    { done. }
    erewrite bind_ok by exact Hloop.
    exists w1. split; [reflexivity|done]. }
  exists w1. split_and!; [done|exact Hrun| | |done].
  - unfold proposals. rewrite length_zip_with. lia.
  - by apply decode_rows_lengths.
Qed.

Lemma first_image_raises ext self level s w1 (proposals : list (list row4))
    (scores : list (list Q)) (shapes : list image_size) (k : nat) :
  tensor_saver w1 = Some s →
  0 < length proposals → length scores = length proposals →
  length shapes = length proposals →
  Forall (λ r, length r = k) proposals → Forall (λ sc, length sc = k) scores →
  ∃ proposal score im_shape boxlist,
    proposals !! 0 = Some proposal ∧ scores !! 0 = Some score
    ∧ shapes !! 0 = Some im_shape
    ∧ image_boxlist self proposal score im_shape = Ok boxlist
    ∧ process_image ext self level (0, (proposal, score, im_shape)) w1
      = (Raise TypeError, w1)
    ∧ for_each_M (process_image ext self level)
        (enumerate (zip3 proposals scores shapes)) w1
      = (Raise TypeError, w1).
Proof.
  intros Hw1 Hp Hs Hsh Hpk Hsk.
  destruct proposals as [|p0 proposals]; [simpl in Hp; lia|].
  destruct scores as [|sc0 scores]; [done|].
  destruct shapes as [|sz0 shapes]; [done|].
  assert (length sc0 = length p0) as Hl0.
  { apply Forall_cons in Hsk as [-> _]. by apply Forall_cons in Hpk as [-> _]. }
  destruct (image_boxlist_ok self p0 sc0 sz0 Hl0) as [b Hb].
  assert (process_image ext self level (0, (p0, sc0, sz0)) w1 = (Raise TypeError, w1))
    as Hfirst.
  { unfold process_image.
    erewrite bind_ok by (unfold lift; rewrite Hb; reflexivity).
    erewrite bind_raise; [done|]. by eapply dump_with_level_and_image_raises. }
  exists p0, sc0, sz0, b. split_and!; [done..|].
  cbn [zip3 zip zip_with enumerate length seq for_each_M].
  unfold bind at 1. by rewrite Hfirst.
Qed.

Lemma batch_run ext self anchors x level s w :
  tensor_saver w = Some s →
  well_formed_level anchors x →
  2 ≤ length (objectness_logits x) →
  0 < shape_A x * shape_H x * shape_W x →
  ∃ w', forward_for_single_feature_map ext self anchors x level w
        = (Raise TypeError, w').
Proof.
  intros Hs Hwf HN Hnum.
  destruct (decoder_reaches_the_loop ext self anchors x level s w Hs Hwf HN Hnum)
    as (w1 & Hw1 & Hrun & Hlen & Hpk & Hsk).
  destruct Hwf as (_ & _ & _ & Hanc & _).
  assert (length (fst <$> prefilter ext self x) = length (objectness_logits x))
    as Hsl by (by rewrite length_fmap, prefilter_length).
  rewrite <- Hlen in HN, Hsl, Hanc.
  assert (length (size <$> anchors) = length anchors) as Hshl by apply length_fmap.
  rewrite Hanc in Hshl.
  destruct (first_image_raises ext self level s w1 _ _ (size <$> anchors) _ Hw1
              (Nat.lt_le_trans _ _ _ Nat.lt_0_2 HN) Hsl Hshl Hpk Hsk)
    as (p & sc & sh & b & _ & _ & _ & _ & _ & Hloop).
  exists w1. rewrite Hrun. exact Hloop.
Qed.

(** C4.  The loop of lines 150-166 builds the collection of the first
    image as described: its [objectness] field is the pre-filter's score
    sequence of that image, its boxes are the decoded proposals clipped
    to the image, none dropped, and then filtered by [min_size].  But the
    statement that follows, the dump of line 155, raises [TypeError]:
    the collection is dropped, no other image is processed and the
    decoder returns no collection at all. *)
Theorem decoder_stops_at_the_first_collection ext self anchors x level s w :
  tensor_saver w = Some s →
  well_formed_level anchors x →
  2 ≤ length (objectness_logits x) →
  0 < shape_A x * shape_H x * shape_W x →
  let idxs := snd <$> prefilter ext self x in
  let scores := fst <$> prefilter ext self x in
  let proposals :=
    zip_with (zip_with (decode_row ext))
      (zip_with gather (box_regression x) idxs)
      (zip_with gather (bbox <$> anchors) idxs) in
  let keeps (r : row4) := big_enough xyxy (min_size self) r = true in
  ∃ proposal score im_shape boxlist w1,
    proposals !! 0 = Some proposal
    ∧ scores !! 0 = Some score
    ∧ (size <$> anchors) !! 0 = Some im_shape
    ∧ image_boxlist self proposal score im_shape = Ok boxlist
    ∧ bbox boxlist = filter keeps (clip_row im_shape <$> proposal)
    ∧ objectness_of boxlist
      = (filter (λ sr : Q * row4, keeps sr.2)
           (zip score (clip_row im_shape <$> proposal))).*1
    ∧ forward_for_single_feature_map ext self anchors x level w
      = for_each_M (process_image ext self level)
          (enumerate (zip3 proposals scores (size <$> anchors))) w1
    ∧ process_image ext self level (0, (proposal, score, im_shape)) w1
      = (Raise TypeError, w1)
    ∧ forward_for_single_feature_map ext self anchors x level w
      = (Raise TypeError, w1).
Proof.
  intros Hs Hwf HN Hnum idxs scores proposals keeps.
  destruct (decoder_reaches_the_loop ext self anchors x level s w Hs Hwf HN Hnum)
    as (w1 & Hw1 & Hrun & Hlen & Hpk & Hsk).
  fold idxs scores proposals in Hrun, Hlen, Hpk, Hsk.
  destruct Hwf as (_ & _ & _ & Hanc & _).
  assert (length scores = length proposals) as Hsl.
  { unfold scores. by rewrite length_fmap, prefilter_length, Hlen. }
  assert (length (size <$> anchors) = length proposals) as Hshl
    by (by rewrite length_fmap, Hanc, Hlen).
  assert (0 < length proposals) as Hpos by lia.
  destruct (first_image_raises ext self level s w1 proposals scores (size <$> anchors)
              _ Hw1 Hpos Hsl Hshl Hpk Hsk)
    as (proposal & score & im_shape & boxlist & Hp & Hsc & Hsh & Hb & Hfirst & Hloop).
  assert (length score = length proposal) as Hl0.
  { rewrite Forall_lookup in Hpk. rewrite Forall_lookup in Hsk.
    by rewrite (Hpk 0 _ Hp), (Hsk 0 _ Hsc). }
  destruct (image_boxlist_clips_then_filters self proposal score im_shape Hl0)
    as (_ & _ & _ & _ & _ & Hbuilt & _).
  rewrite Hb in Hbuilt. injection Hbuilt as ->.
  exists proposal, score, im_shape. eexists. exists w1.
  split_and!; [done|done|done|exact Hb| | |exact Hrun|exact Hfirst|].
  - reflexivity.
  - unfold objectness_of. cbn [extra_fields]. by rewrite lookup_singleton_eq.
  - by rewrite Hrun.
Qed.

(** Two images: the first collection is built, then [TypeError]. *)
Lemma decoder_stops_at_the_first_collection_witness :
  ∃ boxlist w1,
    image_boxlist Samples.self
      [(0, 0, 4, 4); (5, 5, 9, 9); (20, 20, 30, 30)]%Q [0.9; 0.8; 0.3]%Q Samples.image
    = Ok boxlist
    ∧ forward_for_single_feature_map Samples.ext Samples.self Samples.anchors
        Samples.level 1 Samples.saver_ready
      = (Raise TypeError, w1).
Proof.
  assert (2 ≤ length (objectness_logits Samples.level)) as HN by (simpl; lia).
  assert (0 < shape_A Samples.level * shape_H Samples.level * shape_W Samples.level)
    as Hnum by (simpl; lia).
  destruct (decoder_stops_at_the_first_collection Samples.ext Samples.self
              Samples.anchors Samples.level 1 (Build "train_dump" 0)
              Samples.saver_ready eq_refl
              (conj samples_level_rows
                 (conj eq_refl
                    (conj samples_level_regression
                       (conj eq_refl samples_anchors_rows))))
              HN Hnum)
    as (proposal & score & im_shape & boxlist & w1
        & Hp & Hsc & Hsh & Hb & _ & _ & _ & _ & Hrun).
  vm_compute in Hp. vm_compute in Hsc. vm_compute in Hsh.
  injection Hp as <-. injection Hsc as <-. injection Hsh as <-.
  exists boxlist, w1. split; [|exact Hrun].
  exact Hb.
Defined.

(** C8.  With the tensor saver in place, the decoder dumps rows 0 and 1
    of the top-k indices before anything else is done per image.  A batch
    of fewer than two images never gets through: with exactly one image
    (and a feature map that is not empty), row 0 is dumped and reading
    row 1 raises [IndexError]; nothing that is per image has run by then.
    With two images or more both rows are there, and on well-formed input
    the call does not end in an [IndexError]: it ends in the [TypeError]
    of the first dump that passes [level] and [im_idx], or before
    anything is dumped when the feature map is empty. *)
Theorem topk_rows_0_and_1_need_two_images ext self anchors x level s w :
  tensor_saver w = Some s →
  let N := length (objectness_logits x) in
  let num_anchors := shape_A x * shape_H x * shape_W x in
  let topk_idx := snd <$> prefilter ext self x in
  (N < 2 →
   ∃ e w', forward_for_single_feature_map ext self anchors x level w = (Raise e, w'))
  ∧ (N = 1 → 0 < num_anchors →
     ∃ row0,
       topk_idx !! 0 = Some row0
       ∧ topk_idx !! 1 = None
       ∧ forward_for_single_feature_map ext self anchors x level w
         = (Raise IndexError,
            World (Some s)
              (Dump (save_dir s (Some "rpn"))
                 ("topk_idx_img_" +:+ pretty 0 +:+ "_layer_" +:+ pretty level)
                 [length row0] (LongVec row0) :: disk w)
              (hooks w)))
  ∧ (2 ≤ N →
     (∃ row0 row1 w',
        topk_idx !! 0 = Some row0 ∧ topk_idx !! 1 = Some row1
        ∧ (dump_topk_row topk_idx 0 level;; dump_topk_row topk_idx 1 level) w
          = (Ok (), w'))
     ∧ (well_formed_level anchors x →
        ∃ w', forward_for_single_feature_map ext self anchors x level w
              = (Raise (if bool_decide (num_anchors = 0)
                        then RuntimeError else TypeError), w'))).
Proof.
  intros Hs N num_anchors topk_idx.
  assert (length topk_idx = N) as Hlen.
  { unfold topk_idx. by rewrite length_fmap, prefilter_length. }
  assert (N * num_anchors = 0 →
          forward_for_single_feature_map ext self anchors x level w
          = (Raise RuntimeError, w)) as Hempty.
  { intros H0. unfold forward_for_single_feature_map. fold N num_anchors.
    rewrite bool_decide_eq_true_2 by done. by erewrite bind_raise. }
  split_and!.
  - intros HN. destruct (decide (N * num_anchors = 0)) as [H0|H0].
    + exists RuntimeError, w. by apply Hempty.
    + destruct (single_image_run ext self anchors x level s w Hs) as (row0 & _ & Hrun).
      { fold N. destruct N as [|[|]]; [done|done|lia]. }
      { fold num_anchors. destruct num_anchors; [lia|lia]. }
      eauto.
  - intros HN Hnum.
    destruct (single_image_run ext self anchors x level s w Hs HN Hnum)
      as (row0 & H0 & Hrun).
    exists row0. split_and!; [done| |done].
    apply lookup_ge_None_2. lia.
  - intros HN. split.
    + destruct (lookup_lt_is_Some_2 topk_idx 0 ltac:(lia)) as [row0 Hrow0].
      destruct (lookup_lt_is_Some_2 topk_idx 1 ltac:(lia)) as [row1 Hrow1].
      exists row0, row1. eexists. split_and!; [done..|].
      erewrite bind_ok by (by apply dump_topk_row_run).
      by apply dump_topk_row_run.
    + intros Hwf. case_bool_decide as Hnum.
      * exists w. apply Hempty. rewrite Hnum. lia.
      * apply (batch_run ext self anchors x level s w); [done..|]. fold num_anchors. lia.
Qed.

(** A batch of one image: [IndexError], after the dump of row 0. *)
Lemma topk_rows_0_and_1_need_two_images_witness :
  ∃ row0,
    forward_for_single_feature_map Samples.ext Samples.self Samples.single_anchors
      Samples.single_level 1 Samples.saver_ready
    = (Raise IndexError,
       World (Some (Build "train_dump" 0))
         [Dump "train_dump/iter_0/rpn" "topk_idx_img_0_layer_1"
            [length row0] (LongVec row0)]
         []).
Proof.
  destruct (proj1 (proj2 (topk_rows_0_and_1_need_two_images Samples.ext Samples.self
                            Samples.single_anchors Samples.single_level 1
                            (Build "train_dump" 0) Samples.saver_ready eq_refl))
              eq_refl ltac:(simpl; lia))
    as (row0 & _ & _ & Hrun).
  exists row0. exact Hrun.
Defined.

Example single_image_sample :
  forward_for_single_feature_map Samples.ext Samples.self Samples.single_anchors
    Samples.single_level 1 Samples.saver_ready
  = (Raise IndexError,
     World (Some (Build "train_dump" 0))
       [Dump "train_dump/iter_0/rpn" "topk_idx_img_0_layer_1" [3]
          (LongVec [0; 2; 3])]
       []).
Proof. vm_compute. reflexivity. Qed.

Example two_images_sample :
  (forward_for_single_feature_map Samples.ext Samples.self Samples.anchors
     Samples.level 1 Samples.saver_ready).1
  = Raise TypeError.
Proof. vm_compute. reflexivity. Qed.

Example no_saver_sample :
  forward_for_single_feature_map Samples.ext Samples.self Samples.anchors
    Samples.level 1 (World None [] [])
  = (Raise (Exception "Tensor saver not created yet"), World None [] []).
Proof. vm_compute. reflexivity. Qed.

(** * Further properties of the code *)

(** ** The decoder of one level never returns *)

Lemma dump_topk_row_no_saver topk_idx i level w :
  tensor_saver w = None →
  dump_topk_row topk_idx i level w
  = (Raise (Exception "Tensor saver not created yet"), w).
Proof.
  intros Hs. unfold dump_topk_row, mbind, M_mbind, bind, get_tensor_saver.
  by rewrite Hs.
Qed.

Lemma gather_for_decode_Ok_anchors anchors x topk_idx p :
  gather_for_decode anchors x topk_idx = Ok p → anchors ≠ [].
Proof.
  intros H ->. unfold gather_for_decode in H. simpl in H.
  destruct (Torch.index_rows _ _ _); simpl in H; discriminate.
Qed.

Lemma chunks_length {A} sz n (flat : list A) : length (Torch.chunks sz n flat) = n.
Proof.
  revert flat. induction n as [|n IH]; intros flat; [done|]. simpl. by rewrite IH.
Qed.

Lemma reshape_Ok_length {A} n (flat : list A) rows :
  Torch.reshape n flat = Ok rows → length rows = n.
Proof.
  unfold Torch.reshape. intros Hr.
  repeat case_bool_decide; simplify_eq. apply chunks_length.
Qed.

Lemma for_each_M_raise_first {A B} (f : A → M B) a l w e w' :
  f a w = (Raise e, w') → for_each_M f (a :: l) w = (Raise e, w').
Proof. intros H. cbn [for_each_M]. unfold bind at 1. by rewrite H. Qed.

Lemma process_image_raises ext self level it s w :
  tensor_saver w = Some s → raises (process_image ext self level it) w.
Proof.
  intros Hs. destruct it as [im_i [[proposal score] im_shape]].
  unfold raises, process_image.
  destruct (image_boxlist self proposal score im_shape) as [b|e] eqn:Hb.
  - exists TypeError, w.
    erewrite bind_ok by (unfold lift; try rewrite Hb; reflexivity).
    erewrite bind_raise; [done|]. by eapply dump_with_level_and_image_raises.
  - exists e, w. erewrite bind_raise; [done|]. unfold lift. try rewrite Hb. reflexivity.
Qed.

Lemma decoder_raises ext self anchors x level w :
  ∃ e w', forward_for_single_feature_map ext self anchors x level w = (Raise e, w').
Proof.
  set (N := length (objectness_logits x)).
  set (topk_idx := snd <$> prefilter ext self x).
  assert (length topk_idx = N) as Hlen.
  { unfold topk_idx. by rewrite length_fmap, prefilter_length. }
  unfold forward_for_single_feature_map. fold N.
  case_bool_decide as Hnum.
  { exists RuntimeError, w. by erewrite bind_raise. }
  erewrite bind_ok by reflexivity. cbv zeta. fold topk_idx.
  destruct (tensor_saver w) as [s|] eqn:Hs.
  2:{ eexists _, w. erewrite bind_raise; [done|]. by apply dump_topk_row_no_saver. }
  assert (N ≠ 0) as HN0 by (intros H0; apply Hnum; by rewrite H0).
  destruct (lookup_lt_is_Some_2 topk_idx 0 ltac:(lia)) as [row0 Hrow0].
  erewrite bind_ok by (by apply dump_topk_row_run).
  destruct (topk_idx !! 1) as [row1|] eqn:Hrow1.
  2:{ eexists IndexError, _. erewrite bind_raise; [done|].
      by eapply dump_topk_row_out_of_range. }
  assert (2 ≤ N) as HN.
  { rewrite <- Hlen. apply lookup_lt_Some in Hrow1. lia. }
  erewrite bind_ok by (by apply dump_topk_row_run).
  destruct (gather_for_decode anchors x topk_idx) as [[deltas refs]|e] eqn:Hg.
  2:{ eexists e, _. erewrite bind_raise; [done|]. unfold lift. try rewrite Hg. reflexivity. }
  pose proof (gather_for_decode_Ok_anchors _ _ _ _ Hg) as Hanc.
  erewrite bind_ok by (unfold lift; try rewrite Hg; reflexivity). cbv beta iota.
  erewrite bind_ok by (by apply dump_by_keyword_run).
  erewrite bind_ok by (by apply dump_by_keyword_run).
  erewrite bind_ok by (by apply dump_by_keyword_run).
  destruct (Torch.reshape N (decode ext (Torch.flatten deltas) (Torch.flatten refs)))
    as [proposals|e] eqn:Hresh.
  2:{ eexists e, _. erewrite bind_raise; [done|]. unfold lift. try rewrite Hresh. reflexivity. }
  pose proof (reshape_Ok_length _ _ _ Hresh) as Hpl.
  erewrite bind_ok by (unfold lift; try rewrite Hresh; reflexivity).
  match goal with
  | |- context [(for_each_M ?f (enumerate proposals) ≫= _) ?w0] =>
      destruct (for_each_M_run f (enumerate proposals) s w0) as (w1 & Hloop & Hw1)
  end.
  { intros ip w0 Hw0. eexists.
    split; [by apply dump_by_keyword_run; [apply has_slash_numbered2|]|done]. }
  { done. }
  erewrite bind_ok by exact Hloop.
  destruct proposals as [|p0 proposals']; [simpl in Hpl; lia|].
  destruct (fst <$> prefilter ext self x) as [|sc0 scs] eqn:Hscs.
  { apply (f_equal length) in Hscs. rewrite length_fmap, prefilter_length in Hscs.
    simpl in Hscs. fold N in Hscs. lia. }
  destruct anchors as [|a0 anchors']; [done|].
  cbn [fmap list_fmap zip3 zip zip_with enumerate length seq].
  destruct (process_image_raises ext self level (0, (p0, sc0, size a0)) s w1 Hw1)
    as (e & w2 & Hrun).
  exists e, w2. by apply for_each_M_raise_first.
Qed.

(** X2.  No call of [forward_for_single_feature_map] returns a result:
    whatever the tensors, the anchors and the state of the tensor saver,
    the call ends in an exception. *)
Theorem forward_for_single_feature_map_never_returns ext self anchors x level w :
  raises (forward_for_single_feature_map ext self anchors x level) w.
Proof.
  destruct (decoder_raises ext self anchors x level w) as (e & w' & Hrun).
  by exists e, w'.
Qed.

(** X3.  [forward] returns only when there is nothing to decode: with at
    least one level, at least one image and anchors for each image, the
    call ends in an exception. *)
Theorem forward_with_a_level_never_returns ext self anchors levels targets w :
  levels ≠ [] → anchors ≠ [] → Forall (λ per_level, per_level ≠ []) anchors →
  raises (forward ext self anchors levels targets) w.
Proof.
  intros Hl Ha Hne. unfold raises, forward. cbv zeta.
  assert (zip_star anchors ≠ []) as Hz.
  { destruct anchors as [|a0 anchors']; [done|]. unfold zip_star.
    assert (0 < foldr (λ r m, length r `min` m) (length a0) (a0 :: anchors')) as Hn.
    { pose proof Hne as Hall. apply Forall_cons in Hne as [H0 _].
      assert (0 < length a0) as Hlen by (destruct a0; [done|simpl; lia]).
      revert Hall. generalize (a0 :: anchors'). intros l Hall.
      induction Hall as [|r l Hr _ IH]; [done|]. simpl.
      assert (0 < length r) as Hlr by (destruct r; [done|simpl; lia]). lia. }
    destruct (foldr _ _ _) as [|n]; [lia|]. done. }
  destruct (zip_star anchors) as [|a rest]; [done|].
  destruct levels as [|x levels']; [done|].
  cbn [zip zip_with enumerate length seq].
  destruct (decoder_raises ext self a x 1 w) as (e & w' & Hrun).
  exists e, w'. erewrite bind_raise; [done|].
  by apply for_each_M_raise_first.
Qed.

Lemma forward_with_a_level_never_returns_witness :
  raises (forward Samples.ext Samples.self
            [[MkBoxList Samples.anchor_boxes Samples.image xyxy ∅];
             [MkBoxList Samples.anchor_boxes Samples.image xyxy ∅]]
            [Samples.level] None) Samples.saver_ready.
Proof.
  apply forward_with_a_level_never_returns.
  - discriminate.
  - discriminate.
  - repeat apply Forall_cons_2; [..|apply Forall_nil_2]; discriminate.
Defined.

(** X4.  Before the tensor saver is created, the decoder of one level
    stops at its first dump: for tensors that are not empty it raises
    [Exception("Tensor saver not created yet")] and writes nothing. *)
Theorem decoder_needs_the_tensor_saver ext self anchors x level w :
  tensor_saver w = None →
  length (objectness_logits x) * (shape_A x * shape_H x * shape_W x) ≠ 0 →
  forward_for_single_feature_map ext self anchors x level w
  = (Raise (Exception "Tensor saver not created yet"), w).
Proof.
  intros Hs Hnum. unfold forward_for_single_feature_map.
  rewrite bool_decide_eq_false_2 by done.
  erewrite bind_ok by reflexivity. cbv zeta.
  erewrite bind_raise; [done|]. by apply dump_topk_row_no_saver.
Qed.

Lemma decoder_needs_the_tensor_saver_witness :
  forward_for_single_feature_map Samples.ext Samples.self Samples.anchors
    Samples.level 1 (World None [] [])
  = (Raise (Exception "Tensor saver not created yet"), World None [] []).
Proof.
  apply decoder_needs_the_tensor_saver; [reflexivity|simpl; lia].
Defined.

(** ** [forward] as a whole *)

Lemma forward_after_no_levels self num_levels targets w :
  forward_after_levels self num_levels [] targets w
  = (if bool_decide (1 < num_levels) && training self && fpn_post_nms_per_batch self
     then Raise RuntimeError
     else if training self && bool_decide (is_Some targets)
          then Raise IndexError else Ok [],
     w).
Proof.
  unfold forward_after_levels, merge_levels, select_over_all_levels.
  destruct (bool_decide (1 < num_levels)), (training self),
    (fpn_post_nms_per_batch self), targets as [targets|]; reflexivity.
Qed.

Lemma forward_raises_or_returns_nothing ext self anchors levels targets w :
  (∃ e w', forward ext self anchors levels targets w = (Raise e, w'))
  ∨ (forward ext self anchors levels targets w = (Ok [], w)
     ∧ (training self = false ∨ targets = None)).
Proof.
  destruct (zip (zip_star anchors) levels) as [|[a x] rest] eqn:Hz.
  - assert (forward ext self anchors levels targets w
            = forward_after_levels self (length levels) [] targets w) as Heq.
    { unfold forward. cbv zeta. by rewrite Hz. }
    rewrite Heq, forward_after_no_levels.
    destruct (bool_decide (1 < length levels) && training self
              && fpn_post_nms_per_batch self).
    { left. by exists RuntimeError, w. }
    destruct (training self); [|right; split; [done|by left]].
    destruct targets as [targets|]; [left; by exists IndexError, w|].
    right. split; [done|by right].
  - left. unfold forward. cbv zeta. rewrite Hz.
    cbn [enumerate length seq zip zip_with].
    destruct (decoder_raises ext self a x 1 w) as (e & w' & Hrun).
    exists e, w'. erewrite bind_raise; [done|].
    by apply for_each_M_raise_first.
Qed.

(** C6.  [forward] never hands out a ground-truth box.  In training
    with targets every call ends in an exception: with a level to decode
    the decoder raises, and without one [add_gt_proposals] fails on
    [proposals[0]].  What [forward] returns at all, in any mode, is the
    empty list, with nothing dumped. *)
Theorem forward_never_appends_ground_truth ext self anchors levels targets w :
  (training self = true → is_Some targets →
   raises (forward ext self anchors levels targets) w)
  ∧ (∀ out w',
       forward ext self anchors levels targets w = (Ok out, w') →
       out = [] ∧ w' = w).
Proof.
  destruct (forward_raises_or_returns_nothing ext self anchors levels targets w)
    as [(e & w1 & Hrun)|[Hrun Hmode]].
  - split.
    + intros _ _. by exists e, w1.
    + intros out w' Hok. rewrite Hrun in Hok. discriminate Hok.
  - split.
    + intros Ht [t ->]. destruct Hmode as [Hf|Hn]; congruence.
    + intros out w' Hok. rewrite Hrun in Hok. by injection Hok as <- <-.
Qed.

(** Training, one level, two images with their targets. *)
Lemma forward_never_appends_ground_truth_witness :
  raises (forward Samples.ext Samples.trainer
            [[MkBoxList Samples.anchor_boxes Samples.image xyxy ∅];
             [MkBoxList Samples.anchor_boxes Samples.image xyxy ∅]]
            [Samples.level] (Some Samples.targets)) Samples.saver_ready.
Proof.
  apply (proj1 (forward_never_appends_ground_truth Samples.ext Samples.trainer
                  [[MkBoxList Samples.anchor_boxes Samples.image xyxy ∅];
                   [MkBoxList Samples.anchor_boxes Samples.image xyxy ∅]]
                  [Samples.level] (Some Samples.targets) Samples.saver_ready)).
  - reflexivity.
  - by eexists.
Defined.

Example forward_in_training_sample :
  (forward Samples.ext Samples.trainer
     [[MkBoxList Samples.anchor_boxes Samples.image xyxy ∅];
      [MkBoxList Samples.anchor_boxes Samples.image xyxy ∅]]
     [Samples.level] (Some Samples.targets) Samples.saver_ready).1
  = Raise TypeError.
Proof. vm_compute. reflexivity. Qed.

(** ** Ground truth: edge cases and alignment *)

Lemma add_gt_proposals_zip proposals targets :
  proposals ≠ [] →
  Forall (λ p, dom (extra_fields p) = {["objectness"]}) proposals →
  add_gt_proposals proposals targets
  = Ok (zip_with
          (λ p t, MkBoxList (bbox p ++ bbox t) (size p) (mode p)
                    {["objectness" := objectness_of p ++ replicate (len t) 1%Q]})
          proposals targets).
Proof.
  intros Hne Hd. unfold add_gt_proposals.
  assert (∃ p0, proposals !! 0 = Some p0) as [p0 H0]
    by (destruct proposals; [done|by eexists]).
  rewrite (getitem_Some proposals 0 p0) by done. cbn -[cat_boxlist].
  rewrite (for_each_ok _ (λ t, MkBoxList (bbox t) (size t) (mode t) ∅))
    by (intros t _; apply copy_without_fields).
  cbn -[cat_boxlist]. rewrite <- list_fmap_compose.
  set (G := (λ gt_box, add_field "objectness" (replicate (len gt_box) 1%Q) gt_box)
            ∘ (λ t, MkBoxList (bbox t) (size t) (mode t) ∅)).
  rewrite (for_each_ok _
             (λ pg, MkBoxList (bbox pg.1 ++ bbox pg.2) (size pg.1) (mode pg.1)
                      {["objectness" := objectness_of pg.1 ++ replicate (len pg.2) 1%Q]})).
  - f_equal. clear. revert targets.
    induction proposals as [|p ps IH]; intros [|t ts]; try done.
    cbn [fmap list_fmap zip zip_with fst snd]. f_equal. apply IH.
  - intros [p gt] Hin. cbn [fst snd].
    apply list_elem_of_lookup in Hin as [i Hi].
    apply lookup_zip_with_Some in Hi as (p' & gt' & Heq & Hp & Hgt). simplify_eq.
    apply list_lookup_fmap_Some in Hgt as (t & -> & Ht).
    apply cat_with_ground_truth.
    + rewrite Forall_lookup in Hd. by apply (Hd i).
    + unfold G, add_field. simpl. by rewrite insert_empty.
Qed.

(** X5.  [add_gt_proposals] reads [proposals[0]] first, so without
    proposals it raises [IndexError] whatever the targets are.  Otherwise
    it pairs proposals and targets by position and stops at the shorter
    list: the result has [min(len(proposals), len(targets))] collections,
    and a proposal collection beyond the last target is dropped. *)
Theorem add_gt_proposals_stops_at_the_shorter_list proposals targets :
  add_gt_proposals [] targets = Raise IndexError
  ∧ (proposals ≠ [] →
     Forall (λ p, dom (extra_fields p) = {["objectness"]}) proposals →
     ∃ out,
       add_gt_proposals proposals targets = Ok out
       ∧ length out = length proposals `min` length targets
       ∧ (∀ i, length targets ≤ i → out !! i = None)
       ∧ (∀ i p t, proposals !! i = Some p → targets !! i = Some t →
            ∃ o, out !! i = Some o ∧ bbox o = bbox p ++ bbox t)).
Proof.
  split; [done|]. intros Hne Hd. eexists. split; [by apply add_gt_proposals_zip|].
  split_and!.
  - by rewrite length_zip_with.
  - intros i Hi. apply lookup_ge_None_2. rewrite length_zip_with. lia.
  - intros i p t Hp Ht. eexists. rewrite lookup_zip_with, Hp, Ht. done.
Qed.

(** Two images and the ground truth of the first only: one collection
    comes back. *)
Lemma add_gt_proposals_stops_at_the_shorter_list_witness :
  ∃ out, add_gt_proposals Samples.batch (take 1 Samples.targets) = Ok out
         ∧ length out = 1.
Proof.
  destruct (proj2 (add_gt_proposals_stops_at_the_shorter_list Samples.batch
                     (take 1 Samples.targets))
              ltac:(discriminate) samples_batch_dom)
    as (out & Hrun & Hlen & _).
  exists out. split; [exact Hrun|exact Hlen].
Defined.

(** X6.  [add_gt_proposals] keeps the collections aligned: when every
    proposal collection has one objectness score per box, so has every
    output, and an output has as many boxes as its proposals and its
    targets together. *)
Theorem add_gt_proposals_keeps_alignment proposals targets out :
  Forall aligned proposals →
  Forall (λ p, dom (extra_fields p) = {["objectness"]}) proposals →
  add_gt_proposals proposals targets = Ok out →
  Forall aligned out
  ∧ Forall (λ o, length (objectness_of o) = len o) out
  ∧ ∀ i p t o, proposals !! i = Some p → targets !! i = Some t →
      out !! i = Some o → len o = len p + len t.
Proof.
  intros Ha Hd Hrun.
  assert (proposals ≠ []) as Hne by (by intros ->).
  rewrite add_gt_proposals_zip in Hrun by done. injection Hrun as <-.
  assert (∀ i p t, proposals !! i = Some p → targets !! i = Some t →
            length (objectness_of p ++ replicate (len t) 1%Q)
            = length (bbox p ++ bbox t)) as Hlen.
  { intros i p t Hp Ht. rewrite !length_app, length_replicate.
    rewrite Forall_lookup in Ha. rewrite Forall_lookup in Hd.
    rewrite objectness_of_length; [done|by apply (Ha i)|].
    apply elem_of_dom. rewrite (Hd i p Hp). by apply elem_of_singleton. }
  split_and!.
  - apply Forall_lookup. intros i o Ho.
    apply lookup_zip_with_Some in Ho as (p & t & -> & Hp & Ht).
    intros f v Hv. cbn [extra_fields bbox] in *.
    apply lookup_singleton_Some in Hv as [_ <-]. by apply (Hlen i).
  - apply Forall_lookup. intros i o Ho.
    apply lookup_zip_with_Some in Ho as (p & t & -> & Hp & Ht).
    unfold objectness_of at 1, len. cbn [extra_fields bbox].
    rewrite lookup_singleton_eq. simpl. by apply (Hlen i).
  - intros i p t o Hp Ht Ho. rewrite lookup_zip_with, Hp, Ht in Ho.
    simpl in Ho. injection Ho as <-. unfold len. simpl. by rewrite length_app.
Qed.

Lemma add_gt_proposals_keeps_alignment_witness :
  ∃ out, add_gt_proposals Samples.batch Samples.targets = Ok out
         ∧ Forall aligned out.
Proof.
  destruct (add_gt_proposals Samples.batch Samples.targets) as [out|e] eqn:Hrun;
    [|vm_compute in Hrun; discriminate].
  exists out. split; [reflexivity|].
  apply (add_gt_proposals_keeps_alignment Samples.batch Samples.targets out
           samples_batch_aligned samples_batch_dom Hrun).
Defined.

(** ** Selection over all levels: order, budget, edge cases *)

Lemma gather_lookup {A} (l : list A) idx p i :
  in_range l idx → idx !! p = Some i → gather l idx !! p = l !! i.
Proof.
  intros H. revert p. induction H as [|j idx Hj _ IH]; intros p Hp; [done|].
  destruct (lookup_lt_is_Some_2 l j Hj) as [a Ha].
  rewrite (gather_cons _ _ _ _ Ha).
  destruct p as [|p]; simpl in *; [by simplify_eq|by apply IH].
Qed.

Lemma gather_seq {A} (l : list A) : gather l (seq 0 (length l)) = l.
Proof.
  assert (in_range l (seq 0 (length l))) as Hr.
  { apply Forall_forall. intros i Hi. apply elem_of_seq in Hi. lia. }
  apply list_eq. intros p. destruct (decide (p < length l)) as [Hp|Hp].
  - by rewrite (gather_lookup l _ p p Hr) by (by apply lookup_seq_lt).
  - rewrite !lookup_ge_None_2; [done|lia|].
    rewrite gather_length, length_seq by done. lia.
Qed.

Lemma restricted_to_all b : aligned b → restricted_to (seq 0 (len b)) b = b.
Proof.
  intros Ha. destruct b as [boxes sz m fields]. unfold restricted_to, len. simpl.
  f_equal; [apply gather_seq|].
  apply map_eq. intros f. rewrite lookup_fmap.
  destruct (fields !! f) as [v|] eqn:Hv; [|done]. simpl. f_equal.
  pose proof (Ha f v Hv) as Hl. simpl in Hl. rewrite <- Hl. apply gather_seq.
Qed.

Lemma restricted_to_aligned idx b :
  aligned b → in_range (bbox b) idx → aligned (restricted_to idx b).
Proof.
  intros Ha Hr f v Hv. unfold restricted_to in *. simpl in *.
  apply lookup_fmap_Some in Hv as (v0 & <- & Hv0).
  rewrite !gather_length; [done|done|].
  unfold in_range. by rewrite (Ha f v0 Hv0).
Qed.

Lemma restricted_to_has_objectness idx b :
  is_Some (extra_fields b !! "objectness") →
  is_Some (extra_fields (restricted_to idx b) !! "objectness").
Proof. intros H. rewrite restricted_to_objectness by done. by eexists. Qed.

Lemma gather_filter_sublist {A} (P : nat → Prop) `{∀ p, Decision (P p)} (l : list A) :
  gather l (filter P (seq 0 (length l))) `sublist_of` l.
Proof.
  rewrite <- mask_rows_indicator. unfold Torch.mask_rows.
  set (mask := (λ p, if bool_decide (P p) then 1 else 0) <$> seq 0 (length l)).
  assert ((zip l mask).*1 = l) as Hz.
  { apply fst_zip. unfold mask. by rewrite length_fmap, length_seq. }
  rewrite <- Hz at 2. apply fmap_sublist, sublist_filter.
Qed.

Lemma positions_in_range sel offset (n : nat) {A} (l : list A) :
  length l = n → in_range l (positions_in sel offset n).
Proof.
  intros <-. apply Forall_forall. intros p Hp.
  apply list_elem_of_filter in Hp as [_ Hp]. apply elem_of_seq in Hp. lia.
Qed.

(** The run of the batch-wide branch, image by image. *)
Lemma select_batch_run self boxlists :
  training self = true →
  fpn_post_nms_per_batch self = true →
  boxlists ≠ [] →
  Forall aligned boxlists →
  Forall (λ b, is_Some (extra_fields b !! "objectness")) boxlists →
  let k := fpn_post_nms_top_n self `min` length (pooled boxlists) in
  let sel := (Torch.topk (pooled boxlists) k).2 in
  ∃ out,
    select_over_all_levels self boxlists = Ok out
    ∧ length out = length boxlists
    ∧ (∀ i b, boxlists !! i = Some b →
         out !! i
         = Some (restricted_to (positions_in sel (offset_of boxlists i) (len b)) b))
    ∧ sum_list (len <$> out) = k.
Proof.
  intros Ht Hp Hne Ha Ho k sel.
  set (scores := pooled boxlists) in *.
  pose proof (topk_top_k_selection scores k) as Hsel. fold sel in Hsel.
  pose proof (pooled_length boxlists Ha Ho) as Hlen. fold scores in Hlen.
  assert (length sel = k) as Hk.
  { destruct Hsel as [Hl _]. rewrite Hl. unfold k. lia. }
  set (g i := restricted_to
                (positions_in sel (offset_of boxlists i) (len (boxlists !!! i)))
                (boxlists !!! i)).
  set (mask := (λ j, if bool_decide (j ∈ sel) then 1 else 0)
                 <$> seq 0 (sum_list (len <$> boxlists))).
  set (masks := Torch.split_go mask (len <$> boxlists)).
  assert (length mask = sum_list (len <$> boxlists)) as Hml.
  { unfold mask. by rewrite length_fmap, length_seq. }
  exists (g <$> seq 0 (length boxlists)). split_and!.
  - unfold select_over_all_levels. rewrite Ht, Hp. simpl andb. cbv iota.
    rewrite (for_each_ok _ objectness_of).
    2:{ intros b Hb. apply get_field_objectness.
        rewrite Forall_forall in Ho. by apply Ho. }
    cbn -[Torch.index_put Torch.topk Torch.split Torch.cat mjoin].
    rewrite cat_ok by (by destruct boxlists).
    cbn -[Torch.index_put Torch.topk Torch.split mjoin].
    fold (pooled boxlists). fold scores. fold k. fold sel.
    rewrite index_put_zeros, Hlen. fold mask.
    unfold Torch.split. rewrite bool_decide_eq_true_2 by done.
    cbn -[Torch.split_go].
    fold masks. apply for_each_seq_ok. intros i Hi.
    destruct (lookup_lt_is_Some_2 boxlists i Hi) as [b Hb].
    destruct (batch_mask_row boxlists sel i b Ha Hb) as (Hm & Hmb & _).
    fold mask in Hm. fold masks in Hm.
    rewrite (getitem_Some _ _ _ Hb), (getitem_Some _ _ _ Hm). cbn.
    unfold g. rewrite (list_lookup_total_correct _ _ _ Hb). exact Hmb.
  - by rewrite length_fmap, length_seq.
  - intros i b Hi.
    rewrite list_lookup_fmap, lookup_seq_lt by (by eapply lookup_lt_Some).
    simpl. unfold g. by rewrite (list_lookup_total_correct _ _ _ Hi).
  - transitivity (sum_list ((λ l, length (filter (λ x, x ≠ 0) l)) <$> masks)).
    + f_equal. apply list_eq. intros i.
      rewrite !list_lookup_fmap.
      destruct (boxlists !! i) as [b|] eqn:Hi.
      * destruct (batch_mask_row boxlists sel i b Ha Hi) as (Hm & _ & Hc).
        fold mask in Hm. fold masks in Hm.
        rewrite lookup_seq_lt by (by eapply lookup_lt_Some). simpl.
        rewrite Hm. simpl. f_equal. unfold g.
        rewrite (list_lookup_total_correct _ _ _ Hi). exact Hc.
      * apply lookup_ge_None in Hi.
        rewrite (lookup_ge_None_2 (seq _ _)) by (by rewrite length_seq).
        rewrite (lookup_ge_None_2 masks); [done|].
        unfold masks. by rewrite split_go_length, length_fmap.
    + rewrite <- filter_mjoin_length. unfold masks.
      rewrite split_go_mjoin by done. unfold mask.
      rewrite indicator_count, <- Hlen.
      rewrite selected_count; [done|apply Hsel..].
Qed.

(** X7.  Under the batch-wide policy the survivors of an image stay in
    the order they had: the boxes and the scores of every output are
    sublists of the boxes and scores of its input, not a ranking. *)
Theorem select_per_batch_keeps_the_order self boxlists :
  training self = true →
  fpn_post_nms_per_batch self = true →
  boxlists ≠ [] →
  Forall aligned boxlists →
  Forall (λ b, is_Some (extra_fields b !! "objectness")) boxlists →
  ∃ out,
    select_over_all_levels self boxlists = Ok out
    ∧ Forall2 (λ b o, bbox o `sublist_of` bbox b
                      ∧ objectness_of o `sublist_of` objectness_of b
                      ∧ size o = size b ∧ mode o = mode b)
              boxlists out.
Proof.
  intros Ht Hp Hne Ha Ho.
  destruct (select_batch_run self boxlists Ht Hp Hne Ha Ho)
    as (out & Hrun & Hlen & Hout & _).
  exists out. split; [done|].
  apply Forall2_same_length_lookup. split; [done|].
  intros i b o Hb Hi. rewrite (Hout i b Hb) in Hi. injection Hi as <-.
  rewrite Forall_lookup in Ha. rewrite Forall_lookup in Ho.
  split_and!; [| |done..].
  - unfold restricted_to, positions_in, len. simpl. apply gather_filter_sublist.
  - rewrite (objectness_of_Some _ _ (restricted_to_objectness _ b (Ho i b Hb))).
    unfold positions_in.
    rewrite <- (objectness_of_length b (Ha i b Hb) (Ho i b Hb)).
    apply gather_filter_sublist.
Qed.

Lemma select_per_batch_keeps_the_order_witness :
  ∃ out, select_over_all_levels Samples.trainer Samples.batch = Ok out
         ∧ length out = 2.
Proof.
  destruct (select_per_batch_keeps_the_order Samples.trainer Samples.batch
              eq_refl eq_refl ltac:(discriminate)
              samples_batch_aligned samples_batch_objectness)
    as (out & Hrun & HF).
  exists out. split; [exact Hrun|].
  symmetry. exact (Forall2_length _ _ _ HF).
Defined.

Lemma filter_all {A} (P : A → Prop) `{∀ a, Decision (P a)} (l : list A) :
  Forall P l → filter P l = l.
Proof.
  induction 1 as [|a l Ha _ IH]; [done|].
  rewrite filter_cons, decide_True by done. by rewrite IH.
Qed.

Lemma offset_of_le boxlists i b :
  boxlists !! i = Some b →
  offset_of boxlists i + len b ≤ sum_list (len <$> boxlists).
Proof.
  intros Hi. unfold offset_of. rewrite fmap_take.
  apply sum_list_take_le. by rewrite list_lookup_fmap, Hi.
Qed.

Lemma select_batch_covering_budget self boxlists :
  training self = true →
  fpn_post_nms_per_batch self = true →
  boxlists ≠ [] →
  Forall aligned boxlists →
  Forall (λ b, is_Some (extra_fields b !! "objectness")) boxlists →
  sum_list (len <$> boxlists) ≤ fpn_post_nms_top_n self →
  select_over_all_levels self boxlists = Ok boxlists.
Proof.
  intros Ht Hp Hne Ha Ho Hroom.
  destruct (select_batch_run self boxlists Ht Hp Hne Ha Ho)
    as (out & Hrun & Hlen & Hout & _).
  rewrite Hrun. f_equal. apply list_eq_same_length with (length boxlists); [done..|].
  intros i o b Hi Ho' Hb. rewrite (Hout i b Hb) in Ho'. injection Ho' as <-.
  pose proof (pooled_length boxlists Ha Ho) as Hpl.
  rewrite Forall_lookup in Ha.
  etrans; [|apply (restricted_to_all b (Ha i b Hb))].
  f_equal. unfold positions_in. apply filter_all, Forall_forall. intros p Hp'.
  apply elem_of_seq in Hp'.
  pose proof (offset_of_le boxlists i b Hb) as Hle.
  assert (offset_of boxlists i + p
          ∈ (Torch.topk (pooled boxlists)
               (fpn_post_nms_top_n self `min` length (pooled boxlists))).2) as Hin;
    [|exact Hin].
  rewrite (topk_all (pooled boxlists)) by lia.
  apply elem_of_seq. lia.
Qed.

(** X8.  Under the batch-wide policy the selection gives every
    collection back as it was exactly when the budget covers all the
    candidates of the batch; with a smaller budget some box is dropped. *)
Theorem select_per_batch_with_room_is_identity self boxlists :
  training self = true →
  fpn_post_nms_per_batch self = true →
  boxlists ≠ [] →
  Forall aligned boxlists →
  Forall (λ b, is_Some (extra_fields b !! "objectness")) boxlists →
  select_over_all_levels self boxlists = Ok boxlists
  ↔ sum_list (len <$> boxlists) ≤ fpn_post_nms_top_n self.
Proof.
  intros Ht Hp Hne Ha Ho. split.
  - intros Hrun.
    destruct (select_batch_run self boxlists Ht Hp Hne Ha Ho)
      as (out & Hrun' & _ & _ & Hsum).
    rewrite Hrun in Hrun'. injection Hrun' as <-.
    rewrite (pooled_length boxlists Ha Ho) in Hsum. lia.
  - by apply select_batch_covering_budget.
Qed.

Lemma select_per_batch_with_room_is_identity_witness :
  select_over_all_levels
    (MkRPNPostProcessor 3 2 0.5%Q 1%Q 10 true true) Samples.batch
  = Ok Samples.batch.
Proof.
  apply select_per_batch_with_room_is_identity;
    [reflexivity|reflexivity|discriminate|apply samples_batch_aligned
    |apply samples_batch_objectness|vm_compute; lia].
Defined.

(** *** Selecting twice *)

Lemma StronglySorted_from_lookup {A} (R : relation A) (l : list A) :
  (∀ p q x y, p < q → l !! p = Some x → l !! q = Some y → R x y) →
  StronglySorted R l.
Proof.
  induction l as [|a l IH]; intros H; constructor.
  - apply IH. intros p q x y Hpq Hp Hq. by apply (H (S p) (S q)); [lia|..].
  - apply Forall_lookup. intros q y Hq. by apply (H 0 (S q)); [lia|..].
Qed.

Lemma ranking_of_ranked scores k :
  Torch.ranking (Torch.topk scores k).1 = enumerate (Torch.topk scores k).1.
Proof.
  unfold Torch.topk. simpl.
  set (top := take k (Torch.ranking scores)).
  apply (StronglySorted_unique_strong Torch.outranks).
  - intros [i si] [j sj] Hi Hj H1 H2.
    apply elem_of_ranking in Hi. apply elem_of_enumerate in Hj.
    apply outranks_spec in H1. apply outranks_spec in H2.
    assert (i = j) as ->.
    { destruct H1 as [H1|[E1 L1]], H2 as [H2|[E2 L2]]; [| | |lia].
      - exfalso. by apply (Qlt_irrefl si), (Qlt_trans _ sj).
      - exfalso. rewrite E2 in H1. by apply Qlt_irrefl in H1.
      - exfalso. rewrite E1 in H2. by apply Qlt_irrefl in H2. }
    congruence.
  - apply ranking_sorted.
  - apply StronglySorted_from_lookup. intros p q [p' sp] [q' sq] Hpq Hp Hq.
    apply enumerate_lookup in Hp as [-> Hp]. apply enumerate_lookup in Hq as [-> Hq].
    rewrite list_lookup_fmap in Hp, Hq.
    destruct (top !! p) as [[ip sp']|] eqn:Ep; [|done].
    destruct (top !! q) as [[iq sq']|] eqn:Eq; [|done].
    simpl in *. simplify_eq.
    apply lookup_take_Some in Ep as [Ep _]. apply lookup_take_Some in Eq as [Eq _].
    pose proof (StronglySorted_lookup_lt _ _ _ _ _ _ (ranking_sorted scores) Hpq Ep Eq)
      as Hr.
    apply outranks_spec in Hr. apply outranks_spec.
    destruct Hr as [Hr|[Hr _]]; [by left|right]. split; [done|lia].
  - apply ranking_perm.
Qed.

Lemma topk_of_ranked scores k k' :
  length (Torch.topk scores k).1 ≤ k' →
  (Torch.topk (Torch.topk scores k).1 k').2
  = seq 0 (length (Torch.topk scores k).1).
Proof.
  intros Hk. unfold Torch.topk at 1. cbn [snd].
  rewrite ranking_of_ranked.
  rewrite take_ge by (by rewrite enumerate_length).
  apply enumerate_fst.
Qed.

Lemma topk_in_range b k :
  aligned b → is_Some (extra_fields b !! "objectness") →
  in_range (bbox b) (Torch.topk (objectness_of b) k).2.
Proof.
  intros Ha Ho.
  destruct (topk_top_k_selection (objectness_of b) k) as (_ & _ & Hr & _).
  apply Forall_forall. intros i Hi.
  pose proof (objectness_of_length b Ha Ho) as Hl. unfold len in Hl.
  rewrite <- Hl. by apply Hr.
Qed.

Lemma topk_values_length_le scores k : length (Torch.topk scores k).1 ≤ k.
Proof. unfold Torch.topk. simpl. rewrite length_fmap, length_take. lia. Qed.

(** The run of the per-image branch. *)
Lemma select_image_run self boxlists :
  training self && fpn_post_nms_per_batch self = false →
  Forall aligned boxlists →
  Forall (λ b, is_Some (extra_fields b !! "objectness")) boxlists →
  select_over_all_levels self boxlists
  = Ok ((λ b, restricted_to
                (Torch.topk (objectness_of b)
                   (fpn_post_nms_top_n self `min` len b)).2 b) <$> boxlists).
Proof.
  intros Hmode Ha Ho.
  unfold select_over_all_levels. rewrite Hmode.
  rewrite for_each_seq_getitem. apply for_each_ok.
  intros b Hb. rewrite Forall_forall in Ha. rewrite Forall_forall in Ho.
  rewrite (get_field_objectness b (Ho b Hb)). cbn.
  rewrite (objectness_of_length b (Ha b Hb) (Ho b Hb)).
  apply index_boxlist_ok; [by apply Ha|].
  apply topk_in_range; [by apply Ha|by apply Ho].
Qed.


(** X9.  Selecting is idempotent: under either policy, what
    [select_over_all_levels] returns is returned unchanged when it is
    selected from again with the same settings. *)
Theorem select_over_all_levels_idempotent self boxlists out :
  Forall aligned boxlists →
  Forall (λ b, is_Some (extra_fields b !! "objectness")) boxlists →
  select_over_all_levels self boxlists = Ok out →
  select_over_all_levels self out = Ok out.
Proof.
  intros Ha Ho Hrun.
  destruct (training self && fpn_post_nms_per_batch self) eqn:Hmode.
  - apply andb_prop in Hmode as [Ht Hp].
    assert (boxlists ≠ []) as Hne.
    { intros ->. unfold select_over_all_levels in Hrun. by rewrite Ht, Hp in Hrun. }
    destruct (select_batch_run self boxlists Ht Hp Hne Ha Ho)
      as (out' & Hrun' & Hlen & Hout & Hsum).
    rewrite Hrun in Hrun'. injection Hrun' as <-.
    assert (Forall aligned out ∧
            Forall (λ b, is_Some (extra_fields b !! "objectness")) out) as [Ha' Ho'].
    { rewrite Forall_lookup in Ha. rewrite Forall_lookup in Ho.
      split; apply Forall_lookup; intros i o Hi.
      - destruct (lookup_lt_is_Some_2 boxlists i) as [b Hb].
        { rewrite <- Hlen. by eapply lookup_lt_Some. }
        rewrite (Hout i b Hb) in Hi. injection Hi as <-.
        apply restricted_to_aligned; [by apply (Ha i)|].
        by apply positions_in_range.
      - destruct (lookup_lt_is_Some_2 boxlists i) as [b Hb].
        { rewrite <- Hlen. by eapply lookup_lt_Some. }
        rewrite (Hout i b Hb) in Hi. injection Hi as <-.
        apply restricted_to_has_objectness. by apply (Ho i). }
    apply select_batch_covering_budget; try done.
    + intros ->. destruct boxlists; simpl in Hlen; [done|lia].
    + rewrite Hsum. lia.
  - rewrite (select_image_run self boxlists Hmode Ha Ho) in Hrun. injection Hrun as <-.
    rewrite select_image_run; [|done|..].
    + f_equal. rewrite <- list_fmap_compose. apply list_fmap_ext.
      intros i b Hb. unfold compose. cbv beta.
      rewrite Forall_lookup in Ha. rewrite Forall_lookup in Ho.
      set (k := fpn_post_nms_top_n self `min` len b).
      set (sel := (Torch.topk (objectness_of b) k).2).
      assert (in_range (bbox b) sel) as Hr by (by apply topk_in_range; [apply (Ha i)|apply (Ho i)]).
      assert (objectness_of (restricted_to sel b) = (Torch.topk (objectness_of b) k).1) as Hobj.
      { rewrite topk_values. apply objectness_of_Some, restricted_to_objectness.
        by apply (Ho i). }
      assert (len (restricted_to sel b) = length (Torch.topk (objectness_of b) k).1) as Hl.
      { rewrite <- Hobj. symmetry. apply objectness_of_length.
        - apply restricted_to_aligned; [by apply (Ha i)|done].
        - apply restricted_to_has_objectness. by apply (Ho i). }
      change ((take k (Torch.ranking (objectness_of b))).*1) with sel.
      rewrite Hobj, topk_of_ranked.
      * rewrite <- Hl. apply restricted_to_all.
        apply restricted_to_aligned; [by apply (Ha i)|done].
      * pose proof (topk_values_length_le (objectness_of b) k). unfold k in *. lia.
    + apply Forall_fmap, Forall_lookup. intros i b Hb. simpl.
      rewrite Forall_lookup in Ha. rewrite Forall_lookup in Ho.
      apply restricted_to_aligned; [by apply (Ha i)|].
      by apply topk_in_range; [apply (Ha i)|apply (Ho i)].
    + apply Forall_fmap, Forall_lookup. intros i b Hb. simpl.
      rewrite Forall_lookup in Ho.
      apply restricted_to_has_objectness. by apply (Ho i).
Qed.

Lemma select_over_all_levels_idempotent_witness :
  ∃ out, select_over_all_levels Samples.tester Samples.batch = Ok out
         ∧ select_over_all_levels Samples.tester out = Ok out.
Proof.
  eexists. split; [vm_compute; reflexivity|].
  apply (select_over_all_levels_idempotent Samples.tester Samples.batch);
    [apply samples_batch_aligned|apply samples_batch_objectness
    |vm_compute; reflexivity].
Defined.

(** *** What makes the selection fail *)

Lemma for_each_raises {A B} (f : A → result B) (l : list A) e :
  Forall (λ a, (∃ b, f a = Ok b) ∨ f a = Raise e) l →
  Exists (λ a, f a = Raise e) l →
  for_each f l = Raise e.
Proof.
  induction 1 as [|a l Ha _ IH]; intros Hex; [by apply Exists_nil in Hex|].
  simpl. destruct Ha as [[b Hb]|Hr]; [|by rewrite Hr].
  rewrite Hb. apply Exists_cons in Hex as [Hex|Hex]; [congruence|].
  by rewrite (IH Hex).
Qed.

Lemma select_without_objectness self boxlists :
  Forall aligned boxlists →
  Exists (λ b, extra_fields b !! "objectness" = None) boxlists →
  select_over_all_levels self boxlists = Raise KeyError.
Proof.
  intros Ha Hex. unfold select_over_all_levels.
  destruct (training self && fpn_post_nms_per_batch self).
  - rewrite (for_each_raises (get_field "objectness") boxlists KeyError); [done| |].
    + apply Forall_forall. intros b _. unfold get_field.
      destruct (extra_fields b !! "objectness"); eauto.
    + eapply Exists_impl; [exact Hex|]. intros b Hb. unfold get_field. by rewrite Hb.
  - rewrite for_each_seq_getitem. apply for_each_raises.
    + eapply Forall_impl; [exact Ha|]. intros b Hb.
      destruct (extra_fields b !! "objectness") as [v|] eqn:Hv.
      * left. rewrite (get_field_objectness b) by (by rewrite Hv). cbn.
        eexists. apply index_boxlist_ok; [done|].
        apply topk_in_range; [done|by rewrite Hv].
      * right. unfold get_field. by rewrite Hv.
    + eapply Exists_impl; [exact Hex|]. intros b Hb. unfold get_field. by rewrite Hb.
Qed.

(** X10.  When [select_over_all_levels] succeeds and when it fails, for
    collections whose fields are aligned with their boxes: it returns
    exactly when every collection carries the objectness field and, under
    the batch-wide policy, there is at least one collection; a collection
    without the field gives [KeyError], and an empty list under the
    batch-wide policy gives [RuntimeError] (from [torch.cat]). *)
Theorem select_over_all_levels_failures self boxlists :
  Forall aligned boxlists →
  match select_over_all_levels self boxlists with
  | Ok out =>
      Forall (λ b, is_Some (extra_fields b !! "objectness")) boxlists
      ∧ (training self && fpn_post_nms_per_batch self = true → boxlists ≠ [])
      ∧ length out = length boxlists
  | Raise e =>
      (e = KeyError
       ∧ Exists (λ b, extra_fields b !! "objectness" = None) boxlists)
      ∨ (e = RuntimeError ∧ boxlists = []
         ∧ training self && fpn_post_nms_per_batch self = true)
  end.
Proof.
  intros Ha.
  destruct (decide (Forall (λ b, is_Some (extra_fields b !! "objectness")) boxlists))
    as [Ho|Hno].
  - destruct (training self && fpn_post_nms_per_batch self) eqn:Hmode.
    + destruct boxlists as [|b0 bs].
      * unfold select_over_all_levels. rewrite Hmode. cbn. by right.
      * apply andb_prop in Hmode as [Ht Hp].
        destruct (select_batch_run self (b0 :: bs) Ht Hp ltac:(done) Ha Ho)
          as (out & -> & Hlen & _). done.
    + rewrite (select_image_run self boxlists Hmode Ha Ho).
      by rewrite length_fmap.
  - apply not_Forall_Exists in Hno; [|apply _].
    assert (Exists (λ b, extra_fields b !! "objectness" = None) boxlists) as Hex.
    { eapply Exists_impl; [exact Hno|]. intros b Hb. by apply eq_None_not_Some. }
    rewrite (select_without_objectness self boxlists Ha Hex). by left.
Qed.

Lemma samples_targets_aligned : Forall aligned Samples.targets.
Proof.
  repeat apply Forall_cons_2; [..|apply Forall_nil_2];
    intros f v Hv; cbn [extra_fields] in Hv;
    apply lookup_singleton_Some in Hv as [_ <-]; reflexivity.
Defined.

Lemma select_over_all_levels_failures_witness :
  select_over_all_levels Samples.trainer Samples.targets = Raise KeyError.
Proof.
  pose proof (select_over_all_levels_failures Samples.trainer Samples.targets
                samples_targets_aligned) as H.
  destruct (select_over_all_levels Samples.trainer Samples.targets) as [out|e].
  - destruct H as (H & _). apply Forall_cons in H as [[v Hv] _]. discriminate Hv.
  - destruct H as [[-> _]|(_ & Hnil & _)]; [reflexivity|discriminate Hnil].
Defined.

(** *** Gathering the predictions of all processes *)

Lemma seq_sorted a n : StronglySorted le (seq a n).
Proof.
  apply StronglySorted_from_lookup. intros p q x y Hpq Hp Hq.
  apply lookup_seq in Hp as [-> _]. apply lookup_seq in Hq as [-> _]. lia.
Qed.

Lemma sorted_keys_contiguous {P} (m : gmap nat P) n :
  dom m = set_seq 0 n → sorted_keys m = seq 0 n.
Proof.
  intros Hdom. apply (StronglySorted_unique le).
  - apply sorted_keys_sorted.
  - apply seq_sorted.
  - apply NoDup_Permutation; [apply sorted_keys_NoDup|apply NoDup_seq|].
    intros i. rewrite elem_of_sorted_keys, Hdom, elem_of_set_seq, elem_of_seq. lia.
Qed.

Lemma last_sorted_keys {P} (m : gmap nat P) x :
  last (sorted_keys m) = Some x ↔ x ∈ dom m ∧ ∀ i, i ∈ dom m → i ≤ x.
Proof.
  split.
  - intros Hl. split.
    + apply elem_of_sorted_keys. apply last_Some in Hl as [l' ->].
      apply elem_of_app. right. by left.
    + intros i Hi. apply elem_of_sorted_keys in Hi.
      by apply (sorted_last_max _ _ _ (sorted_keys_sorted m) Hl).
  - intros [Hx Hmax]. destruct (last (sorted_keys m)) as [y|] eqn:Hl.
    + f_equal. apply elem_of_sorted_keys in Hx.
      pose proof (sorted_last_max _ _ _ (sorted_keys_sorted m) Hl Hx).
      assert (y ∈ dom m) as Hy.
      { apply elem_of_sorted_keys. apply last_Some in Hl as [l' ->].
        apply elem_of_app. right. by left. }
      specialize (Hmax y Hy). lia.
    + apply last_None in Hl. apply elem_of_sorted_keys in Hx.
      rewrite Hl in Hx. by apply not_elem_of_nil in Hx.
Qed.

Lemma lookup_all_keys {P} (m : gmap nat P) :
  ∃ vs,
    for_each (λ i, match m !! i with
                   | Some p => Ok p
                   | None => Raise KeyError
                   end) (sorted_keys m) = Ok vs
    ∧ Forall2 (λ i v, m !! i = Some v) (sorted_keys m) vs.
Proof.
  destruct (for_each_total
              (λ i, match m !! i with
                    | Some p => Ok p
                    | None => Raise KeyError
                    end) (sorted_keys m)) as (vs & Hrun & HF).
  { intros i Hi. apply elem_of_sorted_keys, elem_of_dom in Hi as [v Hv].
    exists v. by rewrite Hv. }
  exists vs. split; [done|].
  eapply Forall2_impl; [exact HF|]. intros i v Hv. simpl in Hv.
  by destruct (m !! i); simplify_eq.
Qed.

Lemma merged_later_wins {P} (m : gmap nat P) ps i :
  Forall (λ q, q !! i = None) ps → foldl update m ps !! i = m !! i.
Proof.
  intros H. revert m. induction H as [|q ps Hq _ IH]; intros m; [done|].
  cbn [foldl]. rewrite IH. unfold update. by apply lookup_union_r.
Qed.

Lemma merged_precedence {P} (ps1 ps2 : list (gmap nat P)) p i v :
  p !! i = Some v → Forall (λ q, q !! i = None) ps2 →
  foldl update ∅ (ps1 ++ p :: ps2) !! i = Some v.
Proof.
  intros Hp Hq. rewrite foldl_app. cbn [foldl].
  rewrite (merged_later_wins _ ps2 i Hq). unfold update.
  by apply lookup_union_Some_l.
Qed.

(** X11.  On the main process, when the gathered image ids are exactly
    [0 .. n-1] for some [n > 0], nothing is logged and the returned list
    has [n] entries, entry [i] being the merged prediction of image
    [i]: the position in the list is the image id. *)
Theorem contiguous_ids_come_back_by_position {P}
    (all_predictions : list (gmap nat P)) (n : nat) :
  0 < n →
  (∀ i, i < n ↔ ∃ p, p ∈ all_predictions ∧ i ∈ dom p) →
  ∃ merged,
    accumulate_predictions_from_multiple_gpus true all_predictions
    = ([], Ok (Some merged))
    ∧ length merged = n
    ∧ ∀ i, i < n → merged !! i = foldl update ∅ all_predictions !! i.
Proof.
  intros Hn Hids. set (predictions := foldl update ∅ all_predictions).
  assert (dom predictions = set_seq 0 n) as Hdom.
  { apply set_eq. intros i. unfold predictions.
    rewrite merged_dom, dom_empty_L, elem_of_set_seq, <- Hids.
    split; [intros [H|H]; [by apply not_elem_of_empty in H|lia]|].
    intros [_ H]. by right. }
  pose proof (sorted_keys_contiguous predictions n Hdom) as Hkeys.
  destruct (lookup_all_keys predictions) as (merged & Hrun & HF).
  exists merged. rewrite Hkeys in Hrun, HF.
  assert (length merged = n) as Hlen.
  { rewrite <- (Forall2_length _ _ _ HF). apply length_seq. }
  split_and!; [|done|].
  - unfold accumulate_predictions_from_multiple_gpus. cbn [negb].
    fold predictions. rewrite Hkeys.
    destruct n as [|n]; [lia|]. rewrite seq_S, last_snoc. cbn [Nat.add].
    rewrite bool_decide_eq_false_2; [|rewrite length_app, length_seq; simpl; lia].
    rewrite <- seq_S. by rewrite Hrun.
  - intros i Hi.
    destruct (lookup_lt_is_Some_2 merged i) as [v Hv]; [lia|].
    rewrite Hv. symmetry.
    apply (Forall2_lookup_lr _ _ _ i i v HF); [|done].
    by apply lookup_seq.
Qed.

Lemma contiguous_ids_come_back_by_position_witness :
  ∃ merged,
    accumulate_predictions_from_multiple_gpus true
      [{[1 := "b"]}; {[0 := "a"]} : gmap nat string]
    = ([], Ok (Some merged))
    ∧ length merged = 2.
Proof.
  destruct (contiguous_ids_come_back_by_position
              [{[1 := "b"]}; {[0 := "a"]} : gmap nat string] 2 ltac:(lia))
    as (merged & Hrun & Hlen & _).
  - intros i. split.
    + intros Hi. destruct i as [|[|i]]; [| |lia].
      * exists {[0 := "a"]}. split; [compute_done|]. by apply elem_of_dom.
      * exists {[1 := "b"]}. split; [compute_done|]. by apply elem_of_dom.
    + intros (p & Hp & Hi).
      apply elem_of_cons in Hp as [->|Hp];
        [|apply elem_of_cons in Hp as [->|Hp]; [|by apply not_elem_of_nil in Hp]];
        rewrite dom_singleton_L in Hi; apply elem_of_singleton in Hi as ->; lia.
  - exists merged. by split.
Defined.

(** X12.  On the main process the merge fails in one way only: when no
    process gathered any image, with [IndexError] (from [image_ids[-1]])
    and nothing logged.  In every other case it returns a non-empty list,
    one entry per distinct image id; in particular the lookup
    [predictions[i]] never raises. *)
Theorem accumulate_fails_only_without_images {P}
    (all_predictions : list (gmap nat P)) :
  match accumulate_predictions_from_multiple_gpus true all_predictions with
  | (log, Ok r) =>
      ∃ merged, r = Some merged
        ∧ length merged = base.size (dom (foldl update ∅ all_predictions))
        ∧ merged ≠ []
        ∧ Exists (λ p, p ≠ ∅) all_predictions
  | (log, Raise e) =>
      e = IndexError ∧ log = [] ∧ Forall (λ p, p = ∅) all_predictions
  end.
Proof.
  set (predictions := foldl update ∅ all_predictions).
  unfold accumulate_predictions_from_multiple_gpus. cbn [negb].
  fold predictions.
  destruct (last (sorted_keys predictions)) as [last_id|] eqn:Hlast.
  - destruct (lookup_all_keys predictions) as (merged & -> & HF). cbn.
    assert (last_id ∈ dom predictions) as Hin
      by (by apply last_sorted_keys in Hlast as [? _]).
    exists merged. split_and!; [done| | |].
    + rewrite <- (Forall2_length _ _ _ HF). unfold sorted_keys.
      by rewrite merge_sort_Permutation.
    + intros ->. apply Forall2_nil_inv_r in HF. by rewrite HF in Hlast.
    + unfold predictions in Hin.
      apply merged_dom in Hin as [Hin|(p & Hp & Hin)];
        [by rewrite dom_empty_L in Hin; apply not_elem_of_empty in Hin|].
      apply Exists_exists. exists p. split; [done|]. intros ->.
      by rewrite dom_empty_L in Hin; apply not_elem_of_empty in Hin.
  - split_and!; [done..|]. apply last_None in Hlast.
    apply Forall_forall. intros p Hp. apply map_empty. intros i.
    destruct (p !! i) as [v|] eqn:Hv; [|done]. exfalso.
    assert (i ∈ sorted_keys predictions) as Hi.
    { apply elem_of_sorted_keys. unfold predictions. apply merged_dom.
      right. exists p. split; [done|]. by apply elem_of_dom. }
    rewrite Hlast in Hi. by apply not_elem_of_nil in Hi.
Qed.

(** X13.  When several processes report the same image id, the merge
    keeps the prediction of the last of them in gather order: that is
    the one returned for this id. *)
Theorem the_last_process_wins {P} (ps1 ps2 : list (gmap nat P)) p i v :
  p !! i = Some v →
  Forall (λ q, q !! i = None) ps2 →
  ∃ log merged j,
    accumulate_predictions_from_multiple_gpus true (ps1 ++ p :: ps2)
    = (log, Ok (Some merged))
    ∧ sorted_keys (foldl update ∅ (ps1 ++ p :: ps2)) !! j = Some i
    ∧ merged !! j = Some v.
Proof.
  intros Hp Hq.
  pose proof (merged_precedence ps1 ps2 p i v Hp Hq) as Hi.
  set (predictions := foldl update ∅ (ps1 ++ p :: ps2)) in *.
  assert (i ∈ sorted_keys predictions) as Hin.
  { apply elem_of_sorted_keys, elem_of_dom. by exists v. }
  apply list_elem_of_lookup in Hin as [j Hj].
  destruct (lookup_all_keys predictions) as (merged & Hrun & HF).
  destruct (Forall2_lookup_l _ _ _ j i HF Hj) as (v' & Hv' & Hiv').
  assert (v' = v) as -> by congruence.
  unfold accumulate_predictions_from_multiple_gpus. cbn [negb].
  fold predictions.
  destruct (last (sorted_keys predictions)) as [last_id|] eqn:Hlast.
  - rewrite Hrun. cbn. by eexists _, merged, j.
  - apply last_None in Hlast. by rewrite Hlast in Hj.
Qed.

Lemma the_last_process_wins_witness :
  ∃ log merged,
    accumulate_predictions_from_multiple_gpus true
      ([{[0 := "a"]}] ++ {[0 := "b"]} :: [{[1 := "c"]} : gmap nat string])
    = (log, Ok (Some merged))
    ∧ merged !! 0 = Some "b".
Proof.
  assert (({[0 := "b"]} : gmap nat string) !! 0 = Some "b") as Hp by reflexivity.
  assert (Forall (λ q : gmap nat string, q !! 0 = None) [{[1 := "c"]}]) as Hq.
  { apply Forall_cons_2; [reflexivity|apply Forall_nil_2]. }
  destruct (the_last_process_wins [{[0 := "a"]}] _ _ _ _ Hp Hq)
    as (log & merged & j & Hrun & Hj & Hv).
  exists log, merged. split; [exact Hrun|].
  destruct j as [|[|j]]; [exact Hv|discriminate Hj|discriminate Hj].
Defined.

(** X14.  On the main process, with [m] the largest gathered image id,
    the warning is logged exactly when some id below [m] was gathered by
    no process; it is logged at most once. *)
Theorem warns_exactly_when_an_id_is_missing {P}
    (all_predictions : list (gmap nat P)) (m : nat) :
  let predictions := foldl update ∅ all_predictions in
  m ∈ dom predictions →
  (∀ i, i ∈ dom predictions → i ≤ m) →
  ((accumulate_predictions_from_multiple_gpus true all_predictions).1
   = [not_contiguous_warning]
   ↔ ∃ i, i < m ∧ ∀ p, p ∈ all_predictions → p !! i = None)
  ∧ ((accumulate_predictions_from_multiple_gpus true all_predictions).1 = []
     ↔ ∀ i, i < m → ∃ p, p ∈ all_predictions ∧ is_Some (p !! i)).
Proof.
  intros predictions Hm Hmax.
  assert (last (sorted_keys predictions) = Some m) as Hlast
    by (by apply last_sorted_keys).
  assert (∀ i, i ∈ dom predictions ↔ ∃ p, p ∈ all_predictions ∧ is_Some (p !! i))
    as Hdom.
  { intros i. unfold predictions. rewrite merged_dom, dom_empty_L. split.
    - intros [H|(p & Hp & H)]; [by apply not_elem_of_empty in H|].
      exists p. split; [done|]. by apply elem_of_dom.
    - intros (p & Hp & H). right. exists p. split; [done|]. by apply elem_of_dom. }
  assert (length (sorted_keys predictions) = m + 1
          ↔ ∀ i, i < m → i ∈ dom predictions) as Hfull.
  { split.
    - intros Hlen i Hi. rewrite (contiguous_keys predictions m Hlast Hlen).
      apply elem_of_set_seq. lia.
    - intros Hall. rewrite (sorted_keys_contiguous predictions (m + 1)).
      + apply length_seq.
      + apply set_eq. intros i. rewrite elem_of_set_seq. split.
        * intros Hi. specialize (Hmax i Hi). lia.
        * intros [_ Hi]. destruct (decide (i = m)) as [->|]; [done|].
          apply Hall. lia. }
  unfold accumulate_predictions_from_multiple_gpus. cbn [negb].
  fold predictions. rewrite Hlast. cbn [fst].
  case_bool_decide as Hlen.
  - split.
    + split; [intros _|done].
      destruct (decide (Exists (λ i, i ∉ dom predictions) (seq 0 m)))
        as [(i & Hi & Hni)%Exists_exists|Hnone].
      * apply elem_of_seq in Hi. exists i. split; [lia|]. intros p Hp.
        destruct (p !! i) eqn:Hpi; [|done]. exfalso. apply Hni, Hdom.
        exists p. split; [done|]. by rewrite Hpi.
      * exfalso. apply Hlen, Hfull. intros i Hi.
        destruct (decide (i ∈ dom predictions)) as [|Hni]; [done|].
        exfalso. apply Hnone, Exists_exists. exists i. split; [|done].
        apply elem_of_seq. lia.
    + split; [done|]. intros Hall. exfalso. apply Hlen, Hfull.
      intros i Hi. by apply Hdom, Hall.
  - split.
    + split; [done|]. intros (i & Hi & Hnone). exfalso.
      pose proof (proj1 Hfull Hlen i Hi) as Hin.
      apply Hdom in Hin as (p & Hp & [v Hv]).
      specialize (Hnone p Hp). congruence.
    + split; [intros _|done]. intros i Hi. apply Hdom.
      by apply (proj1 Hfull Hlen).
Qed.

Lemma warns_exactly_when_an_id_is_missing_witness :
  (accumulate_predictions_from_multiple_gpus true
     [{[0 := "a"]}; {[2 := "c"]} : gmap nat string]).1
  = [not_contiguous_warning].
Proof.
  apply (warns_exactly_when_an_id_is_missing
           [{[0 := "a"]}; {[2 := "c"]} : gmap nat string] 2).
  - apply elem_of_dom. by exists "c".
  - intros i Hi. apply merged_dom in Hi as [Hi|(p & Hp & Hi)].
    + rewrite dom_empty_L in Hi. by apply not_elem_of_empty in Hi.
    + apply elem_of_cons in Hp as [->|Hp];
        [|apply elem_of_cons in Hp as [->|Hp]; [|by apply not_elem_of_nil in Hp]];
        rewrite dom_singleton_L in Hi; apply elem_of_singleton in Hi as ->; lia.
  - exists 1. split; [lia|]. intros p Hp.
    apply elem_of_cons in Hp as [->|Hp];
      [|apply elem_of_cons in Hp as [->|Hp]; [|by apply not_elem_of_nil in Hp]];
      reflexivity.
Defined.

(** *** Reducing the losses of all processes *)

Lemma dict_of_lookup_from {V} (m : gmap string V) (pairs : list (string * V)) k v :
  NoDup pairs.*1 →
  foldl (λ d kv, <[kv.1 := kv.2]> d) m pairs !! k = Some v
  ↔ (k, v) ∈ pairs ∨ ((k ∉ pairs.*1) ∧ m !! k = Some v).
Proof.
  revert m. induction pairs as [|[k0 v0] ps IH]; intros m Hnd.
  { simpl. split; [intros H; right; split; [apply not_elem_of_nil|done]|].
    intros [H|[_ H]]; [by apply not_elem_of_nil in H|done]. }
  cbn [foldl fst snd]. rewrite fmap_cons in Hnd. apply NoDup_cons in Hnd as [Hk0 Hnd].
  rewrite (IH _ Hnd). rewrite fmap_cons, !elem_of_cons. cbn [fst].
  destruct (decide (k = k0)) as [->|Hne].
  - rewrite lookup_insert_eq. split.
    + intros [H|[_ H]]; [|left; left; congruence].
      exfalso. apply Hk0. apply list_elem_of_fmap. by exists (k0, v).
    + intros [[H|H]|[H _]].
      * right. split; [done|]. congruence.
      * by left.
      * exfalso. apply H. by left.
  - rewrite lookup_insert_ne by done. split.
    + intros [H|[H1 H2]]; [left; by right|].
      right. split; [|done]. intros [?|?]; done.
    + intros [[H|H]|[H1 H2]].
      * congruence.
      * by left.
      * right. split; [|done]. intros ?. apply H1. by right.
Qed.

Lemma dict_of_zip_lookup {V} (ks : list string) (vs : list V) k v :
  NoDup ks → length vs = length ks →
  dict_of (zip ks vs) !! k = Some v
  ↔ ∃ j, ks !! j = Some k ∧ vs !! j = Some v.
Proof.
  intros Hnd Hlen. unfold dict_of.
  rewrite dict_of_lookup_from by (rewrite fst_zip; [done|lia]).
  rewrite lookup_empty. split.
  - intros [H|[_ H]]; [|done].
    apply list_elem_of_lookup in H as [j Hj].
    apply lookup_zip_Some in Hj as [? ?]. by exists j.
  - intros (j & Hk & Hv). left. apply list_elem_of_lookup. exists j.
    by apply lookup_zip_Some.
Qed.

Lemma for_each_lookup `{Countable K} {V} (m : gmap K V) (ks : list K) :
  Forall (λ k, k ∈ dom m) ks →
  ∃ vs,
    for_each (λ k, match m !! k with
                   | Some v => Ok v
                   | None => Raise KeyError
                   end) ks = Ok vs
    ∧ Forall2 (λ k v, m !! k = Some v) ks vs.
Proof.
  intros Hks.
  destruct (for_each_total
              (λ k, match m !! k with
                    | Some v => Ok v
                    | None => Raise KeyError
                    end) ks) as (vs & Hrun & HF).
  { intros k Hk. rewrite Forall_forall in Hks.
    apply Hks, elem_of_dom in Hk as [v Hv]. exists v. by rewrite Hv. }
  exists vs. split; [done|].
  eapply Forall2_impl; [exact HF|]. intros k v Hv. simpl in Hv.
  by destruct (m !! k); simplify_eq.
Qed.

(** The run of [reduce_loss_dict] with two processes or more, on a
    reduction that keeps the shape of the tensor. *)
Lemma reduce_loss_dict_run g (loss_dict : gmap string Q) :
  (∀ xs, length (dist_reduce g xs) = length xs) →
  2 ≤ world_size g →
  loss_dict ≠ ∅ →
  let loss_names := merge_sort String.le (elements (dom loss_dict)) in
  ∃ sent,
    Forall2 (λ k v, loss_dict !! k = Some v) loss_names sent
    ∧ reduce_loss_dict g loss_dict
      = Ok (dict_of
              (zip loss_names
                 (if bool_decide (rank g = 0)
                  then (λ v, v / inject_Z (Z.of_nat (world_size g)))%Q
                         <$> dist_reduce g sent
                  else dist_reduce g sent))).
Proof.
  intros Hshape Hws Hne loss_names.
  destruct (for_each_lookup loss_dict loss_names) as (sent & Hrun & HF).
  { apply Forall_forall. intros k Hk. unfold loss_names in Hk.
    rewrite merge_sort_Permutation in Hk. by apply elem_of_elements in Hk. }
  exists sent. split; [done|].
  unfold reduce_loss_dict. rewrite bool_decide_eq_false_2 by lia.
  fold loss_names. rewrite Hrun. cbn.
  destruct sent as [|v sent]; [|done]. exfalso.
  apply Forall2_nil_inv_r in HF. apply Hne.
  assert (elements (dom loss_dict) = []) as He.
  { apply Permutation_nil_r. rewrite <- (merge_sort_Permutation String.le).
    fold loss_names. by rewrite HF. }
  apply elements_empty_inv, leibniz_equiv in He. by apply dom_empty_iff_L.
Qed.

(** X16.  [reduce_loss_dict] returns a dictionary with the same fields
    as [loss_dict], as its docstring says, whenever it returns, and with
    fewer than two processes it returns [loss_dict] itself; with two
    processes or more it fails on an empty dictionary (nothing to stack),
    and in no other way. *)
Theorem reduce_loss_dict_keeps_the_fields g (loss_dict : gmap string Q) :
  (∀ xs, length (dist_reduce g xs) = length xs) →
  match reduce_loss_dict g loss_dict with
  | Ok reduced =>
      dom reduced = dom loss_dict
      ∧ (world_size g < 2 → reduced = loss_dict)
  | Raise e => e = RuntimeError ∧ loss_dict = ∅ ∧ 2 ≤ world_size g
  end.
Proof.
  intros Hshape.
  destruct (decide (world_size g < 2)) as [Hws|Hws].
  { unfold reduce_loss_dict. by rewrite bool_decide_eq_true_2. }
  destruct (decide (loss_dict = ∅)) as [->|Hne].
  { unfold reduce_loss_dict. rewrite bool_decide_eq_false_2 by done.
    rewrite dom_empty_L, elements_empty. cbn. split_and!; [done..|lia]. }
  destruct (reduce_loss_dict_run g loss_dict Hshape ltac:(lia) Hne)
    as (sent & HF & ->).
  set (loss_names := merge_sort String.le (elements (dom loss_dict))) in *.
  set (all_losses := if bool_decide (rank g = 0) then _ else _).
  assert (length all_losses = length loss_names) as Hlen.
  { unfold all_losses. case_bool_decide; rewrite ?length_fmap, Hshape;
      symmetry; by eapply Forall2_length. }
  assert (NoDup loss_names) as Hnd.
  { unfold loss_names. rewrite merge_sort_Permutation. apply NoDup_elements. }
  split; [|intros ?; lia].
  apply set_eq. intros k. rewrite !elem_of_dom. unfold is_Some.
  setoid_rewrite (dict_of_zip_lookup loss_names all_losses k _ Hnd Hlen).
  split.
  - intros (v & j & Hk & _). apply elem_of_dom, elem_of_elements.
    rewrite <- (merge_sort_Permutation String.le). fold loss_names.
    by eapply list_elem_of_lookup_2.
  - intros Hk. apply elem_of_dom, elem_of_elements in Hk.
    rewrite <- (merge_sort_Permutation String.le) in Hk. fold loss_names in Hk.
    apply list_elem_of_lookup in Hk as [j Hj].
    destruct (lookup_lt_is_Some_2 all_losses j) as [v Hv].
    { rewrite Hlen. by eapply lookup_lt_Some. }
    by exists v, j.
Qed.

Lemma reduce_loss_dict_keeps_the_fields_witness :
  ∃ reduced,
    reduce_loss_dict (ProcessGroup 2 0 (fmap (λ v, v + v)%Q))
      {["loss_objectness" := 1%Q]} = Ok reduced
    ∧ dom reduced = {["loss_objectness"]}.
Proof.
  pose proof (reduce_loss_dict_keeps_the_fields
                (ProcessGroup 2 0 (fmap (λ v, v + v)%Q))
                {["loss_objectness" := 1%Q]}
                (λ xs, length_fmap _ xs)) as H.
  destruct (reduce_loss_dict _ _) as [reduced|e].
  - exists reduced. split; [reflexivity|]. destruct H as [H _].
    by rewrite H, dom_singleton_L.
  - destruct H as (_ & H & _). by apply map_non_empty_singleton in H.
Defined.

(** X17.  With two processes or more, the losses are handed to the
    reduction in the sorted order of their names, and each reduced value
    comes back under the name it was sent for: divided by the world size
    on rank 0, as reduced on every other rank. *)
Theorem reduce_loss_dict_averages_on_rank_0 g (loss_dict : gmap string Q) :
  (∀ xs, length (dist_reduce g xs) = length xs) →
  2 ≤ world_size g →
  loss_dict ≠ ∅ →
  ∃ loss_names sent reduced,
    reduce_loss_dict g loss_dict = Ok reduced
    ∧ StronglySorted String.le loss_names
    ∧ (∀ k, k ∈ loss_names ↔ k ∈ dom loss_dict)
    ∧ Forall2 (λ k v, loss_dict !! k = Some v) loss_names sent
    ∧ Forall2 (λ k r,
                 reduced !! k
                 = Some (if bool_decide (rank g = 0)
                         then (r / inject_Z (Z.of_nat (world_size g)))%Q
                         else r))
              loss_names (dist_reduce g sent).
Proof.
  intros Hshape Hws Hne.
  destruct (reduce_loss_dict_run g loss_dict Hshape Hws Hne) as (sent & HF & Hrun).
  set (loss_names := merge_sort String.le (elements (dom loss_dict))) in *.
  assert (NoDup loss_names) as Hnd.
  { unfold loss_names. rewrite merge_sort_Permutation. apply NoDup_elements. }
  assert (length (dist_reduce g sent) = length loss_names) as Hlen.
  { rewrite Hshape. symmetry. by eapply Forall2_length. }
  eexists loss_names, sent, _. split_and!; [exact Hrun| | |done|].
  - apply StronglySorted_merge_sort; apply _.
  - intros k. unfold loss_names. rewrite merge_sort_Permutation.
    apply elem_of_elements.
  - apply Forall2_same_length_lookup. split; [done|].
    intros j k r Hk Hr. apply dict_of_zip_lookup; [done| |].
    + case_bool_decide; by rewrite ?length_fmap.
    + exists j. split; [done|].
      case_bool_decide; [|done]. by rewrite list_lookup_fmap, Hr.
Qed.

Lemma reduce_loss_dict_averages_on_rank_0_witness :
  ∃ loss_names sent reduced,
    reduce_loss_dict (ProcessGroup 2 0 (fmap (λ v, v + v)%Q))
      {["loss_objectness" := 1%Q]} = Ok reduced
    ∧ Forall2 (λ k r, reduced !! k = Some (r / inject_Z (Z.of_nat 2))%Q)
        loss_names ((λ v, v + v)%Q <$> sent).
Proof.
  destruct (reduce_loss_dict_averages_on_rank_0
              (ProcessGroup 2 0 (fmap (λ v, v + v)%Q))
              {["loss_objectness" := 1%Q]}
              (λ xs, length_fmap _ xs) ltac:(simpl; lia)
              (map_non_empty_singleton _ _))
    as (names & sent & reduced & Hrun & _ & _ & _ & Hred).
  exists names, sent, reduced. split; [exact Hrun|exact Hred].
Defined.

(** *** The saver across iterations *)






(** *** [forward] without levels *)

(** X18.  [forward] on an empty list of levels returns an empty list
    without touching the saver or writing anything, except in training
    with targets, where [add_gt_proposals] fails with [IndexError] on
    [proposals[0]]. *)
Theorem forward_without_levels ext self anchors targets w :
  forward ext self anchors [] targets w
  = (if training self && bool_decide (is_Some targets)
     then Raise IndexError else Ok [], w).
Proof.
  unfold forward. rewrite zip_with_nil_r. cbn [enumerate length seq zip_with for_each_M].
  unfold mbind, M_mbind. unfold bind at 1. unfold ret at 1.
  unfold forward_after_levels.
  destruct targets as [targets|]; [destruct (training self) eqn:Ht|].
  - cbn. unfold bind, lift. cbn. by destruct targets.
  - reflexivity.
  - rewrite andb_false_r. reflexivity.
Qed.

(** *** The order of the per-image selection *)

Lemma topk_values_descending scores k :
  StronglySorted (λ a b, (b <= a)%Q) (Torch.topk scores k).1.
Proof.
  unfold Torch.topk. cbn [fst].
  apply StronglySorted_from_lookup. intros p q x y Hpq Hp Hq.
  rewrite list_lookup_fmap in Hp, Hq.
  destruct (take k (Torch.ranking scores) !! p) as [[ip sp]|] eqn:Ep; [|done].
  destruct (take k (Torch.ranking scores) !! q) as [[iq sq]|] eqn:Eq; [|done].
  simpl in *. simplify_eq.
  apply lookup_take_Some in Ep as [Ep _]. apply lookup_take_Some in Eq as [Eq _].
  pose proof (StronglySorted_lookup_lt _ _ _ _ _ _ (ranking_sorted scores) Hpq Ep Eq)
    as Hr.
  apply outranks_spec in Hr. simpl in Hr.
  destruct Hr as [Hr|[Hr _]]; [by apply Qlt_le_weak|].
  rewrite Hr. apply Qle_refl.
Qed.

(** X19.  Under the per-image policy every returned collection lists its
    proposals best first: the objectness scores are in non-increasing
    order (the batch-wide policy keeps the original order instead). *)
Theorem select_per_image_returns_best_first self boxlists out :
  training self && fpn_post_nms_per_batch self = false →
  Forall aligned boxlists →
  Forall (λ b, is_Some (extra_fields b !! "objectness")) boxlists →
  select_over_all_levels self boxlists = Ok out →
  Forall (λ o, StronglySorted (λ a b, (b <= a)%Q) (objectness_of o)) out.
Proof.
  intros Hmode Ha Ho Hrun.
  rewrite (select_image_run self boxlists Hmode Ha Ho) in Hrun. injection Hrun as <-.
  apply Forall_fmap, Forall_lookup. intros i b Hb.
  change (StronglySorted (λ x y, (y <= x)%Q)
            (objectness_of
               (restricted_to
                  (Torch.topk (objectness_of b)
                     (fpn_post_nms_top_n self `min` len b)).2 b))).
  rewrite Forall_lookup in Ho.
  rewrite (objectness_of_Some _ _
             (restricted_to_objectness
                (Torch.topk (objectness_of b)
                   (fpn_post_nms_top_n self `min` len b)).2 b (Ho i b Hb))).
  rewrite <- topk_values. apply topk_values_descending.
Qed.

Lemma select_per_image_returns_best_first_witness :
  ∃ out,
    select_over_all_levels Samples.tester Samples.batch = Ok out
    ∧ Forall (λ o, StronglySorted (λ a b, (b <= a)%Q) (objectness_of o)) out.
Proof.
  eexists. split; [vm_compute; reflexivity|].
  apply (select_per_image_returns_best_first Samples.tester Samples.batch);
    [reflexivity|apply samples_batch_aligned|apply samples_batch_objectness
    |vm_compute; reflexivity].
Defined.
